(** * ChatInterface: the voice turn-taking logic of [ChatInterface.tsx]

    A shallow embedding of the React component
    [src/components/ChatInterface.tsx]: its state hooks, its refs, the
    closures that its callbacks capture, the timers and promises it leaves
    pending, and the event handlers that the browser invokes.

    JavaScript runs one handler at a time, so every handler is a function
    on the component state; what runs later (a timeout, the continuation
    after an [await]) is kept in the state as a pending task, and the
    browser's events are the inputs of a step function.

    Left out: the JSX but for what its handlers and [disabled] attributes
    compute, [scrollToBottom], console output, the choice of a voice and
    [synthesisRef] (lines 39-50, read only when the component unmounts),
    and the unmount itself (lines 332-345). Line numbers are those of
    [ChatInterface.tsx]. *)

From Stdlib Require Import ZArith NArith Strings.String Strings.Ascii.
From Stdlib Require Import DecimalString.
From stdpp Require Import base list option.

Local Open Scope Z_scope.

(** ** JavaScript strings

    A JavaScript string is a sequence of UTF-16 code units. *)

Abbreviation jsstring := (list N).

Definition str (s : string) : jsstring :=
  map N_of_ascii (list_ascii_of_string s).

(** [WhiteSpace] and [LineTerminator] code points of ECMAScript, the ones
    [String.prototype.trim] strips; all of them are single code units. *)
Definition isWhiteSpace (c : N) : bool :=
  ((9 <=? c) && (c <=? 13) || (c =? 32) || (c =? 160) || (c =? 5760)
   || (8192 <=? c) && (c <=? 8202) || (c =? 8232) || (c =? 8233)
   || (c =? 8239) || (c =? 8287) || (c =? 12288) || (c =? 65279))%N.

Fixpoint trimStart (s : jsstring) : jsstring :=
  match s with
  | c :: s' => if isWhiteSpace c then trimStart s' else s
  | [] => []
  end.

Definition trimEnd (s : jsstring) : jsstring := reverse (trimStart (reverse s)).

(** [s.trim()] *)
Definition trim (s : jsstring) : jsstring := trimEnd (trimStart s).

(** Truthiness of a string: every string but the empty one. *)
Definition truthy (s : jsstring) : bool :=
  match s with [] => false | _ :: _ => true end.

(** [a || b] on strings. *)
Definition js_or (a b : jsstring) : jsstring := if truthy a then a else b.

Fixpoint startsWith (p s : jsstring) : bool :=
  match p, s with
  | [], _ => true
  | a :: p', b :: s' => (a =? b)%N && startsWith p' s'
  | _ :: _, [] => false
  end.

(** [s.includes(p)] *)
Fixpoint includes (p s : jsstring) : bool :=
  startsWith p s || match s with [] => false | _ :: s' => includes p s' end.

(** [n.toString()] for the integer that [Date.now()] returns. *)
Definition toString (n : Z) : jsstring :=
  str (NilZero.string_of_int (Z.to_int n)).

(** ** Messages (lines 11-16) *)

Inductive Sender := user | ai.

Record Message := {
  id : jsstring;
  text : jsstring;
  sender : Sender;
  timestamp : Z
}.

(** The object literals of lines 65-70, 99-104 and 115-120; [now] is the
    reading of the clock. A literal reads it twice ([Date.now()] for the
    id, [new Date()] for the timestamp); the two readings are taken to be
    the same. *)
Definition mkMessage (now : Z) (who : Sender) (t : jsstring) : Message :=
  {| id := toString now; text := t; sender := who; timestamp := now |}.

Definition errorText : jsstring :=
  str "Sorry, there was an error processing your request. Please try again.".

Definition noResponseText : jsstring :=
  str "I received your message but got no response.".

(** ** What [fetch] can settle with (lines 77-97)

    A response offers its body both ways: [json] is what
    [response.json()] resolves to ([None] when it rejects, or when the
    value has no fields to read), [bodyText] what [response.text()]
    resolves to. The JSON value is read only through its fields [response]
    and [output]; a missing field is [None], and a field that is there is
    taken to be a string, as the server sends it: what line 94 makes of a
    value of another type is left out. *)

Record JsonData := {
  response : option jsstring;
  output : option jsstring
}.

Record Response := {
  ok : bool;
  contentType : option jsstring;       (* [headers.get('content-type')] *)
  json : option JsonData;
  bodyText : jsstring
}.

Inductive FetchOutcome :=
| Rejected                    (* the promise of [fetch] rejects *)
| Responded (r : Response).

Definition field (o : option jsstring) : jsstring := default [] o.

(** Lines 86-97: the reply text, or [None] when the [try] block throws. *)
Definition aiTextOf (o : FetchOutcome) : option jsstring :=
  match o with
  | Rejected => None
  | Responded r =>
      if negb (ok r) then None
      else
        let isJson :=
          match contentType r with
          | Some ct => truthy ct && includes (str "application/json") ct
          | None => false
          end in
        if isJson then
          match json r with
          | Some data =>
              Some (js_or (js_or (field (response data)) (field (output data)))
                          noResponseText)
          | None => None
          end
        else Some (bodyText r)
  end.

(** ** Speech recognition events *)

Record SpeechRecognitionResult := {
  transcript : jsstring;       (* [results[i][0].transcript] *)
  isFinal : bool
}.

Record SpeechRecognitionEvent := {
  resultIndex : nat;
  results : list SpeechRecognitionResult
}.

(** The values of [SpeechRecognitionErrorEvent.error]. *)
Inductive SpeechRecognitionErrorCode :=
| no_speech | aborted | audio_capture | network | not_allowed
| service_not_allowed | bad_grammar | language_not_supported.

Definition nonFatal (e : SpeechRecognitionErrorCode) : bool :=
  match e with
  | no_speech | not_allowed => false       (* line 232 *)
  | _ => true
  end.

(** ** Closures

    [startListening] is [useCallback(..., [isAutoChat])]: React makes a new
    closure in the render after [isAutoChat] changed and hands out that one
    until it changes again. The closure reads the render's [isAutoChat] and
    [isLoading]; both are constants of the render, so the closure, the
    handlers it installs and the timeouts it sets see these two values for
    as long as they live. *)

Record Closure := {
  cap_isAutoChat : bool;
  cap_isLoading : bool
}.

(** One run of [startListening] past its guards creates a recognition
    object and the two locals of lines 158-159, which the handlers of that
    object share. [started] is the state of the recognition object:
    [start()] succeeded and its [end] event was not delivered yet. *)
Record Session := {
  closure : Closure;
  finalTranscript : jsstring;
  isProcessing : bool;
  started : bool
}.

Definition newSession (c : Closure) : Session :=
  {| closure := c; finalTranscript := []; isProcessing := false; started := false |}.

(** ** Pending work *)

Inductive TimerTask :=
| SilenceTimer (sid : nat)                       (* line 182 *)
| RestartTimer (c : Closure)                     (* line 206 *)
| RecoverTimer (c : Closure)                     (* line 244 *)
| RetryTimer (c : Closure)                       (* line 260 *)
| AutoChatTimer (isAutoChat : bool) (c : Closure).   (* line 314 *)

(** A timeout; its id is its position in [timers]. [pending] turns false
    when it fires or is cleared. *)
Record Timer := {
  task : TimerTask;
  due : Z;
  pending : bool
}.

(** Who awaits [processAIResponse]: the silence-timer callback of a session
    (line 185) or [handleSubmit] (line 356). *)
Inductive Origin :=
| FromSilenceTimer (sid : nat)
| FromSubmit.

Inductive Phase :=
| AwaitFetch       (* suspended at line 77 *)
| AwaitSpeak       (* suspended at line 107 *)
| Settled.

(** A call of [processAIResponse] that got past line 63; its id is its
    position in [dispatches]. *)
Record Dispatch := {
  sent : jsstring;
  origin : Origin;
  phase : Phase
}.

(** Calls into the platform, in the order they are made. *)
Inductive Call :=
| alert (msg : jsstring)
| recognition_start (sid : nat)
| recognition_stop (sid : nat)
| fetch (text : jsstring)            (* the [text] of the request body *)
| speechSynthesis_cancel
| speechSynthesis_speak (t : jsstring).

(** What the browser offers. [startThrows b] tells whether
    [recognition.start()] throws on an object whose [started] is [b]. *)
Record Platform := {
  hasSpeechRecognition : bool;   (* line 143 *)
  hasSpeechSynthesis : bool;     (* line 34 *)
  startThrows : bool -> bool
}.

(** ** The component state *)

Record State := {
  (* useState, lines 19-23 *)
  messages : list Message;
  input : jsstring;
  isLoading : bool;
  isAutoChat : bool;
  isListening : bool;
  (* useRef, lines 24 and 26 *)
  recognitionRef : option nat;
  silenceTimerRef : option nat;
  (* the closure that [startListening] denotes since the last render *)
  startListeningCb : Closure;
  (* the timeout whose cleanup the effect of line 311 returned *)
  autoChatEffect : option nat;
  (* the heap and the event loop *)
  sessions : list Session;
  timers : list Timer;
  dispatches : list Dispatch;
  calls : list Call;
  clock : Z
}.

Definition set_messages (v : list Message) (s : State) : State :=
  Build_State v (input s) (isLoading s) (isAutoChat s) (isListening s)
    (recognitionRef s) (silenceTimerRef s) (startListeningCb s) (autoChatEffect s)
    (sessions s) (timers s) (dispatches s) (calls s) (clock s).
Definition setInput (v : jsstring) (s : State) : State :=
  Build_State (messages s) v (isLoading s) (isAutoChat s) (isListening s)
    (recognitionRef s) (silenceTimerRef s) (startListeningCb s) (autoChatEffect s)
    (sessions s) (timers s) (dispatches s) (calls s) (clock s).
Definition setIsLoading (v : bool) (s : State) : State :=
  Build_State (messages s) (input s) v (isAutoChat s) (isListening s)
    (recognitionRef s) (silenceTimerRef s) (startListeningCb s) (autoChatEffect s)
    (sessions s) (timers s) (dispatches s) (calls s) (clock s).
Definition setIsAutoChat (v : bool) (s : State) : State :=
  Build_State (messages s) (input s) (isLoading s) v (isListening s)
    (recognitionRef s) (silenceTimerRef s) (startListeningCb s) (autoChatEffect s)
    (sessions s) (timers s) (dispatches s) (calls s) (clock s).
Definition setIsListening (v : bool) (s : State) : State :=
  Build_State (messages s) (input s) (isLoading s) (isAutoChat s) v
    (recognitionRef s) (silenceTimerRef s) (startListeningCb s) (autoChatEffect s)
    (sessions s) (timers s) (dispatches s) (calls s) (clock s).
Definition set_recognitionRef (v : option nat) (s : State) : State :=
  Build_State (messages s) (input s) (isLoading s) (isAutoChat s) (isListening s)
    v (silenceTimerRef s) (startListeningCb s) (autoChatEffect s)
    (sessions s) (timers s) (dispatches s) (calls s) (clock s).
Definition set_silenceTimerRef (v : option nat) (s : State) : State :=
  Build_State (messages s) (input s) (isLoading s) (isAutoChat s) (isListening s)
    (recognitionRef s) v (startListeningCb s) (autoChatEffect s)
    (sessions s) (timers s) (dispatches s) (calls s) (clock s).
Definition set_startListeningCb (v : Closure) (s : State) : State :=
  Build_State (messages s) (input s) (isLoading s) (isAutoChat s) (isListening s)
    (recognitionRef s) (silenceTimerRef s) v (autoChatEffect s)
    (sessions s) (timers s) (dispatches s) (calls s) (clock s).
Definition set_autoChatEffect (v : option nat) (s : State) : State :=
  Build_State (messages s) (input s) (isLoading s) (isAutoChat s) (isListening s)
    (recognitionRef s) (silenceTimerRef s) (startListeningCb s) v
    (sessions s) (timers s) (dispatches s) (calls s) (clock s).
Definition set_sessions (v : list Session) (s : State) : State :=
  Build_State (messages s) (input s) (isLoading s) (isAutoChat s) (isListening s)
    (recognitionRef s) (silenceTimerRef s) (startListeningCb s) (autoChatEffect s)
    v (timers s) (dispatches s) (calls s) (clock s).
Definition set_timers (v : list Timer) (s : State) : State :=
  Build_State (messages s) (input s) (isLoading s) (isAutoChat s) (isListening s)
    (recognitionRef s) (silenceTimerRef s) (startListeningCb s) (autoChatEffect s)
    (sessions s) v (dispatches s) (calls s) (clock s).
Definition set_dispatches (v : list Dispatch) (s : State) : State :=
  Build_State (messages s) (input s) (isLoading s) (isAutoChat s) (isListening s)
    (recognitionRef s) (silenceTimerRef s) (startListeningCb s) (autoChatEffect s)
    (sessions s) (timers s) v (calls s) (clock s).
Definition set_calls (v : list Call) (s : State) : State :=
  Build_State (messages s) (input s) (isLoading s) (isAutoChat s) (isListening s)
    (recognitionRef s) (silenceTimerRef s) (startListeningCb s) (autoChatEffect s)
    (sessions s) (timers s) (dispatches s) v (clock s).
Definition set_clock (v : Z) (s : State) : State :=
  Build_State (messages s) (input s) (isLoading s) (isAutoChat s) (isListening s)
    (recognitionRef s) (silenceTimerRef s) (startListeningCb s) (autoChatEffect s)
    (sessions s) (timers s) (dispatches s) (calls s) v.

(** The component as mounted: the initial values of the hooks, and the
    first run of the effect of line 311, which with [isAutoChat = false]
    calls [stopListening] on refs that are still null. *)
Definition init : State :=
  {| messages := []; input := []; isLoading := false; isAutoChat := false;
     isListening := false; recognitionRef := None; silenceTimerRef := None;
     startListeningCb := {| cap_isAutoChat := false; cap_isLoading := false |};
     autoChatEffect := None; sessions := []; timers := []; dispatches := [];
     calls := []; clock := 0 |}.

(** ** Primitives of the event loop *)

Definition call (c : Call) (s : State) : State := set_calls (calls s ++ [c]) s.

(** [setTimeout(task, delay)]: the id of the new timeout and the state. *)
Definition setTimeout (t : TimerTask) (delay : Z) (s : State) : nat * State :=
  (length (timers s),
   set_timers (timers s ++ [{| task := t; due := clock s + delay; pending := true |}]) s).

Definition cancelled (t : Timer) : Timer :=
  {| task := task t; due := due t; pending := false |}.

(** [clearTimeout(i)]; clearing a timeout that fired already does nothing. *)
Definition clearTimeout (i : nat) (s : State) : State :=
  set_timers (alter cancelled i (timers s)) s.

Definition updSession (f : Session -> Session) (sid : nat) (s : State) : State :=
  set_sessions (alter f sid (sessions s)) s.

Definition set_finalTranscript (v : jsstring) (x : Session) : Session :=
  {| closure := closure x; finalTranscript := v;
     isProcessing := isProcessing x; started := started x |}.
Definition set_isProcessing (v : bool) (x : Session) : Session :=
  {| closure := closure x; finalTranscript := finalTranscript x;
     isProcessing := v; started := started x |}.
Definition set_started (v : bool) (x : Session) : Session :=
  {| closure := closure x; finalTranscript := finalTranscript x;
     isProcessing := isProcessing x; started := v |}.

Definition set_phase (v : Phase) (x : Dispatch) : Dispatch :=
  {| sent := sent x; origin := origin x; phase := v |}.

Definition unsupportedText : jsstring :=
  str "Your browser does not support speech recognition. Please use Chrome, Edge, or Safari.".

(** The outcome of calling an [async] function, for the caller that awaits
    it: it returned without suspending, or it is suspended as a dispatch. *)
Inductive Promise := resolved | awaiting (d : nat).

(** The loop of lines 168-176 over [results[resultIndex..]], from the
    session's [finalTranscript]: the new [finalTranscript] and
    [interimTranscript]. *)
Definition scanResults (final0 : jsstring) (ev : SpeechRecognitionEvent)
  : jsstring * jsstring :=
  foldl (fun acc r => if isFinal r then (transcript r, acc.2)
                      else (acc.1, transcript r))
        (final0, []) (drop (resultIndex ev) (results ev)).

Section Component.

Variable pf : Platform.

(** ** [stopListening] (lines 275-295)

    [stop()] may throw; the [try] swallows it, so both outcomes continue
    alike. *)
Definition stopListening (s : State) : State :=
  let s := match recognitionRef s with
           | Some r => set_recognitionRef None (call (recognition_stop r) s)
           | None => s
           end in
  let s := match silenceTimerRef s with
           | Some t => set_silenceTimerRef None (clearTimeout t s)
           | None => s
           end in
  setIsListening false s.

(** [recognition.start()] on the object of session [sid]: whether it
    returned normally, and the state. *)
Definition recognitionStart (sid : nat) (s : State) : bool * State :=
  let s := call (recognition_start sid) s in
  match sessions s !! sid with
  | Some x => if startThrows pf (started x) then (false, s)
              else (true, updSession (set_started true) sid s)
  | None => (false, s)
  end.

(** ** [startListening] (lines 127-273), run as the closure [c] *)
Definition startListening (c : Closure) (s : State) : State :=
  if negb (cap_isAutoChat c) then s                       (* line 128 *)
  else
    let s := match recognitionRef s with                  (* lines 131-138 *)
             | Some r => set_recognitionRef None (call (recognition_stop r) s)
             | None => s
             end in
    if negb (hasSpeechRecognition pf) then                (* lines 144-147 *)
      call (alert unsupportedText) s
    else
      let s := setIsListening true s in                   (* line 149 *)
      let sid := length (sessions s) in                   (* lines 152-159 *)
      let s := set_sessions (sessions s ++ [newSession c]) s in
      let s := set_recognitionRef (Some sid) s in
      let '(ok1, s) := recognitionStart sid s in          (* lines 253-264 *)
      let s := if ok1 then setIsListening true s
               else if cap_isAutoChat c
                    then (setTimeout (RetryTimer c) 1000 s).2
                    else s in
      let '(ok2, s) := recognitionStart sid s in          (* lines 266-272 *)
      setIsListening ok2 s.

(** ** [processAIResponse] (lines 62-125)

    The part that runs at the call, up to the [await] of line 77. *)
Definition processAIResponse (o : Origin) (t : jsstring) (s : State)
  : State * Promise :=
  if negb (truthy (trim t)) then (s, resolved)            (* line 63 *)
  else
    let s := set_messages (messages s ++ [mkMessage (clock s) user t]) s in
    let s := setInput [] s in
    let s := setIsLoading true s in
    let d := length (dispatches s) in
    let s := call (fetch t) s in
    (set_dispatches (dispatches s ++ [{| sent := t; origin := o; phase := AwaitFetch |}]) s,
     awaiting d).

(** What the caller does once the promise of [processAIResponse] resolves:
    line 186 in the silence-timer callback, nothing in [handleSubmit]. *)
Definition resume (o : Origin) (s : State) : State :=
  match o with
  | FromSilenceTimer sid => updSession (set_isProcessing false) sid s
  | FromSubmit => s
  end.

(** The [finally] of lines 122-124, and the return to the caller. *)
Definition finish (d : nat) (o : Origin) (s : State) : State :=
  let s := setIsLoading false s in
  let s := set_dispatches (alter (set_phase Settled) d (dispatches s)) s in
  resume o s.

(** Lines 109-112. [processAIResponse] is [useCallback(..., [])]: it is the
    closure of the first render for good, and the [isAutoChat] and the
    [startListening] it reads are the ones of that render, those of
    [init]. *)
Definition afterSpeak (d : nat) (o : Origin) (s : State) : State :=
  let s := if isAutoChat init then startListening (startListeningCb init) s
           else s in
  finish d o s.

(** [await speak(aiText)] (lines 33-60 and 107): with speech synthesis the
    function suspends until the utterance ends; without it the promise is
    resolved already. *)
Definition speak (d : nat) (o : Origin) (t : jsstring) (s : State) : State :=
  if hasSpeechSynthesis pf then
    let s := call speechSynthesis_cancel s in
    let s := call (speechSynthesis_speak t) s in
    set_dispatches (alter (set_phase AwaitSpeak) d (dispatches s)) s
  else afterSpeak d o s.

(** The promise of [fetch] settles: lines 86-107, or the [catch] of lines
    113-121. *)
Definition fetchSettled (d : nat) (o : Origin) (out : FetchOutcome) (s : State)
  : State :=
  match aiTextOf out with
  | Some aiText =>
      let s := set_messages (messages s ++ [mkMessage (clock s) ai aiText]) s in
      speak d o aiText s
  | None =>
      let s := set_messages (messages s ++ [mkMessage (clock s) ai errorText]) s in
      finish d o s
  end.

(** ** The handlers of a recognition object (lines 161-250) *)

Definition onresult (sid : nat) (ev : SpeechRecognitionEvent) (s : State) : State :=
  match sessions s !! sid with
  | None => s
  | Some x =>
      let s := match silenceTimerRef s with               (* lines 163-165 *)
               | Some t => clearTimeout t s
               | None => s
               end in
      let '(final, interim) := scanResults (finalTranscript x) ev in
      let s := updSession (set_finalTranscript final) sid s in
      let s := setInput (js_or final interim) s in        (* line 178 *)
      if truthy (trim final) then                         (* lines 181-192 *)
        let '(t, s) := setTimeout (SilenceTimer sid) 1000 s in
        set_silenceTimerRef (Some t) s
      else s
  end.

(** The callback of line 182. *)
Definition silenceCallback (sid : nat) (s : State) : State :=
  match sessions s !! sid with
  | None => s
  | Some x =>
      if truthy (trim (finalTranscript x)) && negb (isProcessing x) then
        let s := updSession (set_isProcessing true) sid s in
        match processAIResponse (FromSilenceTimer sid) (finalTranscript x) s with
        | (s, resolved) => resume (FromSilenceTimer sid) s
        | (s, awaiting _) => s
        end
      else s
  end.

(** Lines 195-225. The function that line 221 returns goes to the browser,
    which ignores it; line 224 is not reached. *)
Definition onend (sid : nat) (s : State) : State :=
  match sessions s !! sid with
  | None => s
  | Some x =>
      let c := closure x in
      if negb (cap_isAutoChat c) then setIsListening false s
      else
        let restartDelay := if cap_isLoading c then 1000 else 300 in
        (setTimeout (RestartTimer c) restartDelay s).2
  end.

(** Lines 227-250. *)
Definition onerror (sid : nat) (e : SpeechRecognitionErrorCode) (s : State) : State :=
  match sessions s !! sid with
  | None => s
  | Some x =>
      let c := closure x in
      let s := setIsListening false s in
      if cap_isAutoChat c && nonFatal e then
        let s := match recognitionRef s with
                 | Some r => call (recognition_stop r) s
                 | None => s
                 end in
        (setTimeout (RecoverTimer c) 1000 s).2
      else s
  end.

(** ** Timeout callbacks *)
Definition runTimer (t : TimerTask) (s : State) : State :=
  match t with
  | SilenceTimer sid => silenceCallback sid s
  | RestartTimer c =>                                     (* lines 207-217 *)
      if cap_isAutoChat c then
        let s := match recognitionRef s with
                 | Some r => call (recognition_stop r) s
                 | None => s
                 end in
        startListening c s
      else s
  | RecoverTimer c =>                                     (* lines 245-247 *)
      if cap_isAutoChat c then startListening c s else s
  | RetryTimer c => startListening c s                    (* line 261 *)
  | AutoChatTimer b c =>                                  (* lines 315-318 *)
      if b then startListening c s else s
  end.

(** ** Handlers of the page *)

(** Lines 297-308, run as the closure of the last render. *)
Definition toggleAutoChat (s : State) : State :=
  let newAutoChatState := negb (isAutoChat s) in
  let wasListening := isListening s in
  let s := setIsAutoChat newAutoChatState s in
  if newAutoChatState then
    if negb wasListening then startListening (startListeningCb s) s else s
  else stopListening s.

(** Lines 351-357. *)
Definition handleSubmit (s : State) : State :=
  let message := trim (input s) in
  if negb (truthy message) || isLoading s then s
  else (processAIResponse FromSubmit message s).1.

(** The microphone button, line 407. *)
Definition clickMic (s : State) : State :=
  if isListening s then stopListening s else startListening (startListeningCb s) s.

(** ** Rendering

    After a handler React renders again. [useCallback] and [useEffect]
    compare their dependencies: [startListening] becomes a new closure, and
    the effect of lines 311-330 runs (after the cleanup that its last run
    returned), only when [isAutoChat] differs from the last render's. *)
Definition render (s : State) : State :=
  if Bool.eqb (cap_isAutoChat (startListeningCb s)) (isAutoChat s) then s
  else
    let c := {| cap_isAutoChat := isAutoChat s; cap_isLoading := isLoading s |} in
    let s := set_startListeningCb c s in
    let s := match autoChatEffect s with                  (* lines 321-325 *)
             | Some t => stopListening (clearTimeout t s)
             | None => s
             end in
    if isAutoChat s then                                  (* lines 312-320 *)
      let '(t, s) := setTimeout (AutoChatTimer (isAutoChat s) c) 300 s in
      set_autoChatEffect (Some t) s
    else set_autoChatEffect None (stopListening s).      (* line 328 *)

(** ** Events *)

Inductive Event :=
| ClickAutoChat
| ClickMic
| ChangeInput (v : jsstring)
| Submit
| TimerFires (i : nat)
| RecognitionResult (sid : nat) (ev : SpeechRecognitionEvent)
| RecognitionEnd (sid : nat)
| RecognitionError (sid : nat) (e : SpeechRecognitionErrorCode)
| FetchSettles (d : nat) (out : FetchOutcome)
| SpeechEnds (d : nat).

(** The handler of an event, or [None] when the browser cannot deliver it
    in this state: a timeout fires once, when due and not cleared; a
    recognition object reports results, errors and its end only while
    started, and then any results in any order (the handlers have to cope
    with what the recognizer sends); a promise settles once; the text field
    takes no input while disabled (line 402). A handler of a recognition
    object that [recognitionRef] has dropped still runs: [stop()] only
    asks the object to end, and its [end] event arrives later. *)
Definition handle (e : Event) (s : State) : option State :=
  match e with
  | ClickAutoChat => Some (toggleAutoChat s)
  | ClickMic => Some (clickMic s)
  | ChangeInput v =>
      if isLoading s || isAutoChat s then None else Some (setInput v s)
  | Submit => Some (handleSubmit s)
  | TimerFires i =>
      match timers s !! i with
      | Some t =>
          if pending t && (due t <=? clock s)
          then Some (runTimer (task t) (clearTimeout i s))
          else None
      | None => None
      end
  | RecognitionResult sid ev =>
      match sessions s !! sid with
      | Some x => if started x then Some (onresult sid ev s) else None
      | None => None
      end
  | RecognitionEnd sid =>
      match sessions s !! sid with
      | Some x => if started x
                  then Some (onend sid (updSession (set_started false) sid s))
                  else None
      | None => None
      end
  | RecognitionError sid e =>
      match sessions s !! sid with
      | Some x => if started x then Some (onerror sid e s) else None
      | None => None
      end
  | FetchSettles d out =>
      match dispatches s !! d with
      | Some x => match phase x with
                  | AwaitFetch => Some (fetchSettled d (origin x) out s)
                  | _ => None
                  end
      | None => None
      end
  | SpeechEnds d =>
      match dispatches s !! d with
      | Some x => match phase x with
                  | AwaitSpeak => Some (afterSpeak d (origin x) s)
                  | _ => None
                  end
      | None => None
      end
  end.

(** One turn of the event loop at time [now]. *)
Definition step (now : Z) (e : Event) (s : State) : option State :=
  if clock s <=? now then render <$> handle e (set_clock now s) else None.

Fixpoint run (es : list (Z * Event)) (s : State) : option State :=
  match es with
  | [] => Some s
  | (now, e) :: es' =>
      match step now e s with
      | Some s' => run es' s'
      | None => None
      end
  end.

Inductive reachable : State -> Prop :=
| reachable_init : reachable init
| reachable_step s now e s' :
    reachable s -> step now e s = Some s' -> reachable s'.

End Component.

(** * Vocabulary of the properties *)

(** A text of white space only, or empty. *)
Definition blank (t : jsstring) : Prop := Forall (fun c => isWhiteSpace c = true) t.

(** The results that the loop of lines 169-176 visits. *)
Definition visited (ev : SpeechRecognitionEvent) : list SpeechRecognitionResult :=
  drop (resultIndex ev) (results ev).

Definition lastFinal (ev : SpeechRecognitionEvent) : option SpeechRecognitionResult :=
  list.last (filter (fun r => isFinal r = true) (visited ev)).

Definition lastInterim (ev : SpeechRecognitionEvent) : option SpeechRecognitionResult :=
  list.last (filter (fun r => isFinal r = false) (visited ev)).

(** Lines 163-165: the timeout that [silenceTimerRef] holds is cleared. *)
Definition clearSilenceTimer (s : State) : State :=
  match silenceTimerRef s with
  | Some t => clearTimeout t s
  | None => s
  end.

(** The timeout that lines 182-191 set in state [s]. *)
Definition silenceTimerAt (sid : nat) (s : State) : Timer :=
  {| task := SilenceTimer sid; due := clock s + 1000; pending := true |}.

(** The dispatch that the silence timer of session [sid] makes. *)
Definition dispatchOf (sid : nat) (x : Session) : Dispatch :=
  {| sent := finalTranscript x; origin := FromSilenceTimer sid; phase := AwaitFetch |}.

(** The sessions after the caller of a dispatch was resumed. *)
Definition sessionsResumed (o : Origin) (l : list Session) : list Session :=
  match o with
  | FromSilenceTimer sid => alter (set_isProcessing false) sid l
  | FromSubmit => l
  end.

(** The text of the assistant's message once [fetch] has settled. *)
Definition replyText (out : FetchOutcome) : jsstring :=
  match aiTextOf out with Some reply => reply | None => errorText end.

(** [startListening] denotes the closure of the current [isAutoChat]. *)
Definition consistent (s : State) : Prop :=
  cap_isAutoChat (startListeningCb s) = isAutoChat s.

(** What the invariants read of a session and of a timeout. *)
Definition core (x : Session) : jsstring * bool := (finalTranscript x, isProcessing x).

Definition cores (s : State) : list (jsstring * bool) := core <$> sessions s.

(** The session of a pending silence timer. *)
Definition live (t : Timer) : option nat :=
  if pending t
  then match task t with SilenceTimer sid => Some sid | _ => None end
  else None.

Definition silences (s : State) : list (option nat) := live <$> timers s.

(** A pending silence timer is the one that [silenceTimerRef] holds, and
    its session stores a final transcript that is not blank. *)
Definition TimerInv (s : State) : Prop :=
  forall i sid, silences s !! i = Some (Some sid) ->
    silenceTimerRef s = Some i /\
    exists p, cores s !! sid = Some p /\ truthy (trim p.1) = true.

(** A dispatch of the silence timer of session [sid] that has not settled. *)
Definition unsettledFrom (sid : nat) (x : Dispatch) : bool :=
  match phase x, origin x with
  | Settled, _ => false
  | _, FromSilenceTimer sid' => Nat.eqb sid sid'
  | _, FromSubmit => false
  end.

(** How many dispatches of session [sid] are in flight. *)
Definition inFlightFrom (sid : nat) (s : State) : nat :=
  length (List.filter (unsettledFrom sid) (dispatches s)).

Definition processing (sid : nat) (s : State) : bool :=
  default false (snd <$> cores s !! sid).

(** [isProcessing] of a session counts its dispatches in flight. *)
Definition DispatchInv (s : State) : Prop :=
  forall sid, inFlightFrom sid s = Nat.b2n (processing sid s).

Definition Inv (s : State) : Prop := TimerInv s /\ DispatchInv s.

(** A change of state that dispatches nothing and leaves the log alone:
    sessions may be added, timeouts set that are no silence timers, and
    silence timers cleared. *)
Record control (s s' : State) : Prop := {
  control_messages : messages s' = messages s;
  control_dispatches : dispatches s' = dispatches s;
  control_cores :
    exists l, cores s' = cores s ++ l /\ Forall (fun p => p = ([], false)) l;
  control_live : forall i sid,
    silences s' !! i = Some (Some sid) -> silences s !! i = Some (Some sid);
  control_ref : silenceTimerRef s' = silenceTimerRef s \/
                forall i sid, silences s' !! i <> Some (Some sid)
}.

Definition notSilence (t : TimerTask) : Prop :=
  match t with SilenceTimer _ => False | _ => True end.

(** What a step at time [now] does to the message log and to the
    dispatches: nothing to the log (a dispatch may settle), or it dispatches
    a text and appends the user's message, or a [fetch] settles and the
    assistant's message is appended. *)
Inductive LogStep (now : Z) (e : Event) (s s' : State) : Prop :=
| log_unchanged :
    messages s' = messages s ->
    (dispatches s' = dispatches s \/
     exists d, dispatches s' = alter (set_phase Settled) d (dispatches s)) ->
    LogStep now e s s'
| log_dispatch t o :
    messages s' = messages s ++ [mkMessage now user t] ->
    dispatches s' = dispatches s ++ [{| sent := t; origin := o; phase := AwaitFetch |}] ->
    LogStep now e s s'
| log_reply d x out p :
    e = FetchSettles d out ->
    dispatches s !! d = Some x -> phase x = AwaitFetch ->
    messages s' = messages s ++ [mkMessage now ai (replyText out)] ->
    p <> AwaitFetch ->
    dispatches s' = alter (set_phase p) d (dispatches s) ->
    LogStep now e s s'.

(** Dispatch [d] is past its [fetch]. *)
Definition pastFetch (d : nat) (s : State) : Prop :=
  exists x, dispatches s !! d = Some x /\ phase x <> AwaitFetch.

(** A setter of a field that [control] does not read keeps [control]. *)
Ltac same H := destruct H as [? ? ? ? ?]; constructor; simpl; assumption.

(** ** Recognition objects that are not continuous

    Line 153 sets [recognition.continuous = false]: a recognition object
    reports interim results and at most one final result, and ends after
    it. What a run of results looks like is up to the browser, so this is a
    condition on the events of a run, not a part of [handle]. *)

(** The event reports a final result. *)
Definition hasFinal (ev : SpeechRecognitionEvent) : bool :=
  match lastFinal ev with Some _ => true | None => false end.

(** The event is a result event of session [sid]. *)
Definition resultOf (sid : nat) (e : Event) : bool :=
  match e with RecognitionResult sid' _ => Nat.eqb sid sid' | _ => false end.

(** No result event of session [sid] among the events [es]. *)
Definition silentFor (sid : nat) (es : list (Z * Event)) : bool :=
  forallb (fun p => negb (resultOf sid p.2)) es.

(** The events of a run with recognition objects that are not continuous:
    no result event of a session follows the one that reports a final
    result. *)
Fixpoint nonContinuous (es : list (Z * Event)) : bool :=
  match es with
  | [] => true
  | (_, e) :: es' =>
      match e with
      | RecognitionResult sid ev => negb (hasFinal ev) || silentFor sid es'
      | _ => true
      end && nonContinuous es'
  end.

(** The final transcript that session [sid] stores; empty when there is no
    such session. *)
Definition stored (sid : nat) (s : State) : jsstring :=
  default [] (finalTranscript <$> sessions s !! sid).

(** A dispatch that the silence timer of session [sid] made. *)
Definition fromSession (sid : nat) (x : Dispatch) : bool :=
  match origin x with
  | FromSilenceTimer sid' => Nat.eqb sid sid'
  | FromSubmit => false
  end.

(** How many dispatches the silence timers of session [sid] have made. *)
Definition dispatchedBy (sid : nat) (s : State) : nat :=
  length (List.filter (fromSession sid) (dispatches s)).

(** What a step does to the stored final transcripts, to the pending
    silence timers and to the dispatches of the sessions: nothing but
    clearing silence timers; or a result event stores the last final result
    it reports and leaves at most its own silence timer pending; or a
    silence timer fires, and its session dispatches at most once. *)
Inductive Capture (e : Event) (s s' : State) : Prop :=
| capture_none :
    (forall sid, stored sid s' = stored sid s) ->
    (forall i sid, silences s' !! i = Some (Some sid) -> silences s !! i = Some (Some sid)) ->
    (forall sid, dispatchedBy sid s' = dispatchedBy sid s) ->
    Capture e s s'
| capture_result sid ev :
    e = RecognitionResult sid ev ->
    stored sid s' = default (stored sid s) (transcript <$> lastFinal ev) ->
    (forall sid', sid' <> sid -> stored sid' s' = stored sid' s) ->
    (forall i sid', silences s' !! i = Some (Some sid') ->
       sid' = sid /\ i = length (timers s) /\ truthy (trim (stored sid s')) = true) ->
    (forall sid', dispatchedBy sid' s' = dispatchedBy sid' s) ->
    Capture e s s'
| capture_fire i sid :
    e = TimerFires i ->
    silences s !! i = Some (Some sid) ->
    (forall sid', stored sid' s' = stored sid' s) ->
    (forall j sid', silences s' !! j <> Some (Some sid')) ->
    (forall sid', sid' <> sid -> dispatchedBy sid' s' = dispatchedBy sid' s) ->
    (dispatchedBy sid s' <= S (dispatchedBy sid s))%nat ->
    Capture e s s'.

(** Whoever stores a final transcript receives no result among [es]. *)
Definition Fresh (es : list (Z * Event)) (s : State) : Prop :=
  forall sid, stored sid s <> [] -> silentFor sid es = true.

(** Every session has dispatched at most once, and not at all while its
    silence timer is pending or while it stores no final transcript. *)
Record Once (s : State) : Prop := {
  once_le : forall sid, (dispatchedBy sid s <= 1)%nat;
  once_pending : forall i sid, silences s !! i = Some (Some sid) -> dispatchedBy sid s = 0%nat;
  once_empty : forall sid, stored sid s = [] -> dispatchedBy sid s = 0%nat
}.

(** ** Vocabulary of the further properties *)

(** The [stop()] call that [stopListening], and [startListening] when it
    cleans up, make on the object that [recognitionRef] holds. *)
Definition stops (s : State) : list Call :=
  match recognitionRef s with Some r => [recognition_stop r] | None => [] end.

(** The timeout of lines 260-262, set in state [s]. *)
Definition retryTimerAt (c : Closure) (s : State) : Timer :=
  {| task := RetryTimer c; due := clock s + 1000; pending := true |}.

(** The texts sent to the server and the texts spoken, in the order of the
    calls. *)
Definition fetches (s : State) : list jsstring :=
  omap (fun c => match c with fetch t => Some t | _ => None end) (calls s).

Definition spoken (s : State) : list jsstring :=
  omap (fun c => match c with speechSynthesis_speak t => Some t | _ => None end)
       (calls s).

Definition quietCall (c : Call) : Prop :=
  match c with fetch _ | speechSynthesis_speak _ => False | _ => True end.

(** What the handlers of the recognition and of the two buttons leave
    alone. *)
Definition frame (s : State) :=
  (messages s, input s, isLoading s, dispatches s, clock s, fetches s, spoken s).

(** What no handler changes, only the render after it. *)
Definition hooks (s : State) := (startListeningCb s, autoChatEffect s, clock s).

(** The [isAutoChat] that the callback of a timeout reads (lines 207, 245,
    259 and 315) is [true]. *)
Definition taskOk (t : TimerTask) : Prop :=
  match t with
  | SilenceTimer _ => True
  | RestartTimer c | RecoverTimer c | RetryTimer c => cap_isAutoChat c = true
  | AutoChatTimer b c => b = true /\ cap_isAutoChat c = true
  end.

(** The closure that a timeout other than a silence timer runs. *)
Definition closureOf (t : TimerTask) : option Closure :=
  match t with
  | SilenceTimer _ => None
  | RestartTimer c | RecoverTimer c | RetryTimer c | AutoChatTimer _ c => Some c
  end.

(** What the way [startListening] is written keeps true: the closures of
    the recognition objects and of the timeouts have [isAutoChat = true],
    [recognitionRef] is null or the object created last, [isListening] is
    false where [start()] throws on a started object, and without speech
    recognition no object exists. *)
Record Sound (pf : Platform) (s : State) : Prop := {
  sound_sessions : Forall (fun x => cap_isAutoChat (closure x) = true) (sessions s);
  sound_timers : Forall (fun t => taskOk (task t)) (timers s);
  sound_ref : forall r, recognitionRef s = Some r -> S r = length (sessions s);
  sound_listening : startThrows pf true = true -> isListening s = false;
  sound_supported : hasSpeechRecognition pf = false -> sessions s = []
}.

(** The effect of line 311 holds a cleanup exactly while [startListening]
    is the closure of a render with auto-chat on. *)
Definition EffectInv (s : State) : Prop :=
  autoChatEffect s = None <-> cap_isAutoChat (startListeningCb s) = false.

Definition sentBy (who : Sender) (m : Message) : bool :=
  match sender m, who with
  | user, user | ai, ai => true
  | _, _ => false
  end.

(** The texts of the messages of one sender, in the order of the log. *)
Definition textsOf (who : Sender) (s : State) : list jsstring :=
  text <$> List.filter (sentBy who) (messages s).

(** The [fetch] of a dispatch has settled. *)
Definition answered (x : Dispatch) : bool :=
  match phase x with AwaitFetch => false | _ => true end.

(** What a step at time [now] does to the conversation: nothing; a text is
    dispatched; the [fetch] of a dispatch settles, and the reply is spoken
    or the call completes; the speech of a reply ends. *)
Inductive Turn (now : Z) (s s' : State) : Prop :=
| turn_none :
    messages s' = messages s -> dispatches s' = dispatches s ->
    fetches s' = fetches s -> spoken s' = spoken s ->
    isLoading s' = isLoading s ->
    Turn now s s'
| turn_dispatch t o :
    truthy (trim t) = true ->
    (o = FromSubmit -> trim t = t) ->
    messages s' = messages s ++ [mkMessage now user t] ->
    dispatches s' = dispatches s ++ [{| sent := t; origin := o; phase := AwaitFetch |}] ->
    fetches s' = fetches s ++ [t] -> spoken s' = spoken s ->
    isLoading s' = true ->
    Turn now s s'
| turn_reply d x out p :
    dispatches s !! d = Some x -> phase x = AwaitFetch ->
    messages s' = messages s ++ [mkMessage now ai (replyText out)] ->
    dispatches s' = alter (set_phase p) d (dispatches s) ->
    fetches s' = fetches s ->
    (p = AwaitSpeak /\ spoken s' = spoken s ++ [replyText out] /\
     isLoading s' = isLoading s
     \/ p = Settled /\ spoken s' = spoken s /\ isLoading s' = false) ->
    Turn now s s'
| turn_settle d x :
    dispatches s !! d = Some x -> phase x = AwaitSpeak ->
    messages s' = messages s ->
    dispatches s' = alter (set_phase Settled) d (dispatches s) ->
    fetches s' = fetches s -> spoken s' = spoken s ->
    isLoading s' = false ->
    Turn now s s'.

(** The conversation on record: the log, the dispatches and the calls
    agree. *)
Record Ledger (s : State) : Prop := {
  ledger_user : textsOf user s = sent <$> dispatches s;
  ledger_fetch : fetches s = sent <$> dispatches s;
  ledger_sent :
    Forall (fun x => truthy (trim (sent x)) = true /\
                     (origin x = FromSubmit -> trim (sent x) = sent x))
           (dispatches s);
  ledger_ai : length (textsOf ai s) = length (List.filter answered (dispatches s));
  ledger_spoken : spoken s `sublist_of` textsOf ai s;
  ledger_loading :
    isLoading s = true ->
    exists d x, dispatches s !! d = Some x /\ phase x <> Settled
}.

(** The [disabled] attribute of the Send button (line 438). *)
Definition sendDisabled (s : State) : bool :=
  isLoading s || negb (truthy (trim (input s))).

(** The calls of a conversation in writing: the request, and the speech of
    the reply. *)
Definition textCall (c : Call) : Prop :=
  match c with
  | fetch _ | speechSynthesis_cancel | speechSynthesis_speak _ => True
  | _ => False
  end.

(** The component while auto-chat has never been switched on. *)
Record TextOnly (s : State) : Prop := {
  text_isAutoChat : isAutoChat s = false;
  text_cb : cap_isAutoChat (startListeningCb s) = false;
  text_isListening : isListening s = false;
  text_ref : recognitionRef s = None;
  text_sessions : sessions s = [];
  text_timers : timers s = [];
  text_calls : Forall textCall (calls s)
}.

(** * Scenarios

    A browser with speech recognition and synthesis in which [start()]
    throws on a recognition object that is started already, as the Web
    Speech API has it. *)
Definition chrome : Platform :=
  {| hasSpeechRecognition := true; hasSpeechSynthesis := true;
     startThrows := fun alreadyStarted => alreadyStarted |}.

Definition finalEvent (t : string) : SpeechRecognitionEvent :=
  {| resultIndex := 0; results := [{| transcript := str t; isFinal := true |}] |}.

Definition interimEvent (t : string) : SpeechRecognitionEvent :=
  {| resultIndex := 0; results := [{| transcript := str t; isFinal := false |}] |}.

Definition plainReply (t : string) : FetchOutcome :=
  Responded {| ok := true; contentType := Some (str "text/plain");
               json := None; bodyText := str t |}.

(** The closure of [startListening] of a render with auto-chat on. *)
Definition autoChatClosure : Closure :=
  {| cap_isAutoChat := true; cap_isLoading := false |}.

(** Auto-chat is switched on at time 0; the timeout of the effect (id 0)
    fires at 300 and [startListening] creates session 0. *)
Definition switchOn : list (Z * Event) :=
  [(0, ClickAutoChat); (300, TimerFires 0%nat)].

(** Session 0 hears "hello" as a final result at time 1000: the silence
    timer (id 1) is due at 2000. *)
Definition heardHello : list (Z * Event) :=
  switchOn ++ [(1000, RecognitionResult 0%nat (finalEvent "hello"))].

(** ... and the timer fires: dispatch 0 is in flight. *)
Definition sentHello : list (Z * Event) :=
  heardHello ++ [(2000, TimerFires 1%nat)].

(** ... and the reply "hi" arrives. *)
Definition gotReply : list (Z * Event) :=
  sentHello ++ [(2500, FetchSettles 0%nat (plainReply "hi"))].

(** Session 0 hears the final results "hi" at 1000 (silence timer 1, due at
    2000) and "hi there" at 1500 (silence timer 2, due at 2500). *)
Definition heardHiThere : list (Z * Event) :=
  switchOn ++ [(1000, RecognitionResult 0%nat (finalEvent "hi"));
               (1500, RecognitionResult 0%nat (finalEvent "hi there"))].

(** Session 0 ends at 2000; its [onend] sets the restart timeout (id 1, due
    at 2300); the user switches auto-chat off at 2100. *)
Definition switchedOff : list (Z * Event) :=
  switchOn ++ [(2000, RecognitionEnd 0%nat); (2100, ClickAutoChat)].

(** Session 0 hears "hello" and ends, as a recognition that is not
    continuous does after its final result; the restart timeout (id 2)
    creates session 1 at 1400; the silence timer of session 0 dispatches
    "hello" at 2000; session 1 hears "stop" at 2500 (silence timer 3, due
    at 3500), while the reply to "hello" is still awaited. *)
Definition overlapping : list (Z * Event) :=
  heardHello ++ [(1100, RecognitionEnd 0%nat); (1400, TimerFires 2%nat);
                 (2000, TimerFires 1%nat);
                 (2500, RecognitionResult 1%nat (finalEvent "stop"))].

Definition listening : State :=
  Eval vm_compute in default init (run chrome switchOn init).

Definition heard : State :=
  Eval vm_compute in default init (run chrome heardHello init).

Definition sending : State :=
  Eval vm_compute in default init (run chrome sentHello init).

Definition replied : State :=
  Eval vm_compute in default init (run chrome gotReply init).

Definition off : State :=
  Eval vm_compute in default init (run chrome switchedOff init).

(** Session 0 hears "hello" and ends; the restart timeout (id 2) creates
    session 1 at 1400, while the silence timer of "hello" (id 1, due at
    2000) is pending. *)
Definition restartedAfterHello : list (Z * Event) :=
  heardHello ++ [(1100, RecognitionEnd 0%nat); (1400, TimerFires 2%nat)].

(** ... and the silence timer fires: "hello" is dispatched. *)
Definition dispatchedHello : list (Z * Event) :=
  restartedAfterHello ++ [(2000, TimerFires 1%nat)].

Definition restarted : State :=
  Eval vm_compute in default init (run chrome restartedAfterHello init).

(** A browser in which [start()] throws every time, as it does while the
    microphone cannot be had. *)
Definition blocked : Platform :=
  {| hasSpeechRecognition := true; hasSpeechSynthesis := true;
     startThrows := fun _ => true |}.

(** A browser without speech recognition. *)
Definition noRecognition : Platform :=
  {| hasSpeechRecognition := false; hasSpeechSynthesis := true;
     startThrows := fun alreadyStarted => alreadyStarted |}.

(** Auto-chat is off; the user types " hi " at time 0. *)
Definition typed : State :=
  Eval vm_compute in default init (run chrome [(0, ChangeInput (str " hi "))] init).

(** Auto-chat is switched on in the browser [blocked]: the timeout of the
    effect fires at 300, both calls of [start()] throw, and the retry
    timeout (id 1) is due at 1300. *)
Definition retrying : State :=
  Eval vm_compute in default init (run blocked switchOn init).

(** Auto-chat is switched on in the browser [noRecognition] at time 0; the
    timeout of the effect (id 0) is due at 300. *)
Definition unsupported : State :=
  Eval vm_compute in default init (run noRecognition [(0, ClickAutoChat)] init).

(** A turn in writing, auto-chat off: the user types " hi ", clicks the
    microphone button, submits; the reply "hello" arrives and is spoken. *)
Definition inWriting : list (Z * Event) :=
  [(0, ChangeInput (str " hi ")); (5, ClickMic); (10, Submit);
   (500, FetchSettles 0%nat (plainReply "hello")); (900, SpeechEnds 0%nat)].

Definition written : State :=
  Eval vm_compute in default init (run chrome inWriting init).

(** * Lemmas *)

(** ** Blank strings *)

Lemma trimStart_blank t : blank t -> trimStart t = [].
Proof.
  induction 1 as [|c t Hc _ IH]; simpl; [done|]. by rewrite Hc.
Qed.

Lemma trimStart_nil_blank t : trimStart t = [] -> blank t.
Proof.
  induction t as [|c t IH]; simpl.
  - intros _. constructor.
  - destruct (isWhiteSpace c) eqn:Hc; [|done].
    intros H. apply Forall_cons; [exact Hc | exact (IH H)].
Qed.

Lemma trimStart_head t c u : trimStart t = c :: u -> isWhiteSpace c = false.
Proof.
  induction t as [|a t IH]; simpl; [done|].
  destruct (isWhiteSpace a) eqn:Ha; [done|]. by intros [= <- _].
Qed.

Lemma trim_blank t : blank t -> trim t = [].
Proof.
  intros H. unfold trim, trimEnd. by rewrite (trimStart_blank t H).
Qed.

Lemma trim_nil_blank t : trim t = [] -> blank t.
Proof.
  unfold trim, trimEnd. intros H.
  assert (Hr : trimStart (reverse (trimStart t)) = []).
  { apply (f_equal reverse) in H. by rewrite reverse_involutive in H. }
  apply trimStart_nil_blank in Hr.
  destruct (trimStart t) as [|c u] eqn:Ht; [by apply trimStart_nil_blank|].
  apply trimStart_head in Ht.
  assert (Hc : isWhiteSpace c = true); [|congruence].
  unfold blank in Hr. rewrite Forall_forall in Hr.
  apply Hr, list_elem_of_In, elem_of_reverse. by left.
Qed.

Lemma truthy_trim_blank t : truthy (trim t) = false <-> blank t.
Proof.
  split.
  - intros H. apply trim_nil_blank. by destruct (trim t).
  - intros H. by rewrite trim_blank.
Qed.

(** ** Lists *)

Lemma alter_lookup_id {A} (f : A -> A) (l : list A) i x :
  l !! i = Some x -> f x = x -> alter f i l = l.
Proof.
  revert i. induction l as [|a l IH]; intros [|i]; simpl; try done.
  - intros [= ->] ->. done.
  - intros H Hf. f_equal. by apply IH.
Qed.

(** Counting with a boolean predicate. *)
Lemma filter_length_snoc {A} (p : A -> bool) l x :
  length (List.filter p (l ++ [x])) = (length (List.filter p l) + Nat.b2n (p x))%nat.
Proof.
  rewrite List.filter_app, length_app. simpl. by destruct (p x).
Qed.

Lemma filter_length_alter {A} (p : A -> bool) (f : A -> A) l d y :
  l !! d = Some y ->
  (length (List.filter p (alter f d l)) + Nat.b2n (p y)
   = length (List.filter p l) + Nat.b2n (p (f y)))%nat.
Proof.
  revert d. induction l as [|a l IH]; intros [|d]; simpl; try done.
  - intros [= ->]. destruct (p y), (p (f y)); simpl; lia.
  - intros H. specialize (IH d H).
    destruct (p a); simpl; [f_equal|]; exact IH.
Qed.

Lemma alter_fst_lookup {A B} (g : A * B -> A * B) (l : list (A * B)) sid0 sid p :
  (forall q, (g q).1 = q.1) ->
  l !! sid = Some p -> exists p', alter g sid0 l !! sid = Some p' /\ p'.1 = p.1.
Proof.
  intros Hg Hp. destruct (decide (sid0 = sid)) as [->|Hne].
  - rewrite list_lookup_alter_eq, Hp. simpl. eauto.
  - rewrite list_lookup_alter_ne by done. eauto.
Qed.

(** ** The handlers, field by field *)

Lemma scanResults_spec final0 ev :
  scanResults final0 ev =
    (default final0 (transcript <$> lastFinal ev),
     default [] (transcript <$> lastInterim ev)).
Proof.
  unfold scanResults, lastFinal, lastInterim, visited.
  generalize (drop (resultIndex ev) (results ev)) as l.
  intros l. induction l as [|r l IH] using rev_ind; [done|].
  rewrite foldl_snoc, IH, !list.filter_app. simpl.
  destruct (isFinal r) eqn:Hr.
  - rewrite (filter_cons_True _ r []) by done.
    rewrite (filter_cons_False _ r []) by (by rewrite Hr).
    rewrite !filter_nil, app_nil_r, last_snoc. done.
  - rewrite (filter_cons_False _ r []) by (by rewrite Hr).
    rewrite (filter_cons_True _ r []) by done.
    rewrite !filter_nil, app_nil_r, last_snoc. done.
Qed.

(** [onresult], field by field. *)
Lemma onresult_effect sid ev s x :
  sessions s !! sid = Some x ->
  let final := default (finalTranscript x) (transcript <$> lastFinal ev) in
  let interim := default [] (transcript <$> lastInterim ev) in
  let s' := onresult sid ev s in
  sessions s' = alter (set_finalTranscript final) sid (sessions s) /\
  input s' = js_or final interim /\
  timers s' = timers (clearSilenceTimer s)
                ++ (if truthy (trim final) then [silenceTimerAt sid s] else []) /\
  silenceTimerRef s' = (if truthy (trim final) then Some (length (timers s))
                        else silenceTimerRef s) /\
  messages s' = messages s /\ dispatches s' = dispatches s /\
  calls s' = calls s /\ isListening s' = isListening s /\
  isLoading s' = isLoading s /\ recognitionRef s' = recognitionRef s /\
  isAutoChat s' = isAutoChat s /\ startListeningCb s' = startListeningCb s.
Proof.
  intros Hx. simpl. unfold onresult. rewrite Hx, scanResults_spec.
  unfold clearSilenceTimer, silenceTimerAt.
  destruct (silenceTimerRef s) as [t|] eqn:Ht;
    destruct (truthy (trim _)) eqn:Hf; simpl;
    rewrite ?Ht, ?length_alter, ?app_nil_r; done.
Qed.

Lemma onresult_latest_final sid ev s x r :
  sessions s !! sid = Some x ->
  lastFinal ev = Some r ->
  sessions (onresult sid ev s) !! sid = Some (set_finalTranscript (transcript r) x).
Proof.
  intros Hx Hr.
  destruct (onresult_effect sid ev s x Hx) as (-> & _).
  rewrite Hr. simpl. by rewrite list_lookup_alter_eq, Hx.
Qed.

(** The callback dispatches: the session is not blank and not processing. *)
Lemma silenceCallback_dispatches sid s x :
  sessions s !! sid = Some x ->
  truthy (trim (finalTranscript x)) = true ->
  isProcessing x = false ->
  let s' := silenceCallback sid s in
  dispatches s' = dispatches s ++ [dispatchOf sid x] /\
  calls s' = calls s ++ [fetch (finalTranscript x)] /\
  messages s' = messages s ++ [mkMessage (clock s) user (finalTranscript x)] /\
  sessions s' = alter (set_isProcessing true) sid (sessions s) /\
  timers s' = timers s /\ isLoading s' = true /\ input s' = [] /\
  isAutoChat s' = isAutoChat s /\ startListeningCb s' = startListeningCb s /\
  silenceTimerRef s' = silenceTimerRef s /\ recognitionRef s' = recognitionRef s.
Proof.
  intros Hx Ht Hp. simpl. unfold silenceCallback, processAIResponse.
  rewrite Hx, Ht, Hp. simpl. done.
Qed.

(** The fire is dropped: the session is processing, or blank. *)
Lemma silenceCallback_dropped sid s x :
  sessions s !! sid = Some x ->
  isProcessing x = true \/ truthy (trim (finalTranscript x)) = false ->
  silenceCallback sid s = s.
Proof.
  intros Hx H. unfold silenceCallback. rewrite Hx.
  destruct H as [-> | ->]; [by rewrite andb_false_r | done].
Qed.

Lemma aiTextOf_rejected : aiTextOf Rejected = None.
Proof. done. Qed.

Lemma aiTextOf_not_ok r : ok r = false -> aiTextOf (Responded r) = None.
Proof. intros H. simpl. by rewrite H. Qed.

Lemma finish_effect d o s :
  let s' := finish d o s in
  messages s' = messages s /\ calls s' = calls s /\ timers s' = timers s /\
  isLoading s' = false /\
  dispatches s' = alter (set_phase Settled) d (dispatches s) /\
  sessions s' = sessionsResumed o (sessions s) /\
  recognitionRef s' = recognitionRef s /\ isListening s' = isListening s /\
  isAutoChat s' = isAutoChat s /\ startListeningCb s' = startListeningCb s /\
  silenceTimerRef s' = silenceTimerRef s /\ input s' = input s.
Proof. destruct o; simpl; done. Qed.

Lemma fetchSettled_log pf d o out s :
  messages (fetchSettled pf d o out s)
    = messages s ++ [mkMessage (clock s) ai (replyText out)] /\
  exists p, p <> AwaitFetch /\
    dispatches (fetchSettled pf d o out s) = alter (set_phase p) d (dispatches s).
Proof.
  unfold fetchSettled, replyText, speak, afterSpeak.
  destruct (aiTextOf out); [destruct (hasSpeechSynthesis pf)|];
    destruct o; simpl; (split; [done|]);
    first [by exists AwaitSpeak | by exists Settled].
Qed.

Lemma processAIResponse_log o t s :
  let s' := (processAIResponse o t s).1 in
  s' = s \/
  (messages s' = messages s ++ [mkMessage (clock s) user t] /\
   dispatches s' = dispatches s ++ [{| sent := t; origin := o; phase := AwaitFetch |}]).
Proof.
  simpl. unfold processAIResponse. destruct (negb _); [by left|by right].
Qed.

Lemma fetchSettled_frame pf d o out s :
  isAutoChat (fetchSettled pf d o out s) = isAutoChat s /\
  startListeningCb (fetchSettled pf d o out s) = startListeningCb s.
Proof.
  unfold fetchSettled, speak, afterSpeak.
  destruct (aiTextOf out); [destruct (hasSpeechSynthesis pf)|];
    destruct o; simpl; done.
Qed.

Lemma silenceCallback_frame sid s :
  isAutoChat (silenceCallback sid s) = isAutoChat s /\
  startListeningCb (silenceCallback sid s) = startListeningCb s.
Proof.
  unfold silenceCallback, processAIResponse.
  destruct (sessions s !! sid) as [x|]; [|done].
  destruct (_ && _); [|done]. simpl.
  destruct (negb _); simpl; done.
Qed.

Lemma clearSilenceTimer_clock now s :
  timers (clearSilenceTimer (set_clock now s)) = timers (clearSilenceTimer s).
Proof. unfold clearSilenceTimer. simpl. by destruct (silenceTimerRef s). Qed.

Lemma stopListening_effect u :
  let u' := stopListening u in
  isListening u' = false /\ recognitionRef u' = None /\ silenceTimerRef u' = None /\
  isAutoChat u' = isAutoChat u /\ startListeningCb u' = startListeningCb u.
Proof.
  unfold stopListening.
  destruct (recognitionRef u) eqn:Hr; simpl;
    destruct (silenceTimerRef u) eqn:Hs; simpl; rewrite ?Hr, ?Hs; done.
Qed.

(** Line 128. *)
Lemma startListening_guard pf c s :
  cap_isAutoChat c = false -> startListening pf c s = s.
Proof. intros H. unfold startListening. by rewrite H. Qed.

(** Lines 131-147: without speech recognition the closure that passes line
    128 alerts once, after dropping the recognition object it found, and
    returns: [isListening] is not set, no recognition object is created and
    no timeout is set. *)
Lemma startListening_unsupported pf c s :
  hasSpeechRecognition pf = false ->
  cap_isAutoChat c = true ->
  let s' := startListening pf c s in
  calls s' = calls s
             ++ match recognitionRef s with
                | Some r => [recognition_stop r]
                | None => []
                end
             ++ [alert unsupportedText] /\
  isListening s' = isListening s /\ recognitionRef s' = None /\
  sessions s' = sessions s /\ timers s' = timers s /\
  messages s' = messages s /\ dispatches s' = dispatches s.
Proof.
  intros Hp Hc. simpl. unfold startListening. rewrite Hc, Hp. simpl.
  destruct (recognitionRef s) eqn:Hr; simpl; rewrite ?Hr, <- ?app_assoc; done.
Qed.

Lemma recognitionStart_frame pf sid s :
  let s' := (recognitionStart pf sid s).2 in
  recognitionRef s' = recognitionRef s /\
  length (sessions s') = length (sessions s) /\
  isAutoChat s' = isAutoChat s /\ startListeningCb s' = startListeningCb s.
Proof.
  simpl. unfold recognitionStart.
  destruct (sessions (call _ s) !! sid) as [x|]; [|done].
  destruct (startThrows pf (started x)); simpl; [done|].
  by rewrite length_alter.
Qed.

(** Lines 149-272: with speech recognition, the closure that passes line
    128 creates a recognition object, whatever the state is. *)
Lemma startListening_opens pf c s :
  cap_isAutoChat c = true -> hasSpeechRecognition pf = true ->
  let s' := startListening pf c s in
  recognitionRef s' = Some (length (sessions s)) /\
  length (sessions s') = S (length (sessions s)) /\
  isAutoChat s' = isAutoChat s /\ startListeningCb s' = startListeningCb s.
Proof.
  intros Hc Hp. simpl. unfold startListening. rewrite Hc, Hp. simpl.
  set (s1 := match recognitionRef s with Some r => _ | None => s end).
  assert (H1 : sessions s1 = sessions s /\ isAutoChat s1 = isAutoChat s /\
               startListeningCb s1 = startListeningCb s).
  { subst s1. by destruct (recognitionRef s). }
  destruct H1 as (Hs1 & Ha1 & Hcb1).
  set (s2 := set_recognitionRef _ _).
  pose proof (recognitionStart_frame pf (length (sessions s1)) s2) as H3.
  destruct (recognitionStart pf _ s2) as [ok1 s3]. simpl in H3.
  destruct H3 as (Hr3 & Hl3 & Ha3 & Hcb3).
  set (s4 := if ok1 then _ else _).
  assert (H4 : recognitionRef s4 = recognitionRef s3 /\
               length (sessions s4) = length (sessions s3) /\
               isAutoChat s4 = isAutoChat s3 /\
               startListeningCb s4 = startListeningCb s3).
  { subst s4. by destruct ok1. }
  destruct H4 as (Hr4 & Hl4 & Ha4 & Hcb4).
  pose proof (recognitionStart_frame pf (length (sessions s1)) s4) as H5.
  destruct (recognitionStart pf _ s4) as [ok2 s5]. simpl in H5.
  destruct H5 as (Hr5 & Hl5 & Ha5 & Hcb5). simpl.
  rewrite Hr5, Hr4, Hr3, Hl5, Hl4, Hl3, Ha5, Ha4, Ha3, Hcb5, Hcb4, Hcb3.
  subst s2. simpl. rewrite length_app, Hs1. simpl.
  repeat split; try done. lia.
Qed.

(** ** Rendering keeps [startListening] in step with [isAutoChat] *)

Lemma render_consistent s : consistent (render s).
Proof.
  unfold consistent, render.
  destruct (Bool.eqb _ _) eqn:E; [by apply Bool.eqb_prop|].
  unfold stopListening, clearTimeout, setTimeout, call.
  destruct s as [? ? ? b ? r t ? e ? ? ? ? ?]; simpl.
  destruct e, r, t, b; reflexivity.
Qed.

Lemma render_id s : consistent s -> render s = s.
Proof.
  unfold consistent, render. intros ->. by rewrite Bool.eqb_reflx.
Qed.

(** The render after [isAutoChat] became false: the cleanup of the effect,
    then its body (line 328). *)
Lemma render_switch_off u :
  cap_isAutoChat (startListeningCb u) = true -> isAutoChat u = false ->
  let u1 := set_startListeningCb
              {| cap_isAutoChat := false; cap_isLoading := isLoading u |} u in
  let u2 := match autoChatEffect u1 with
            | Some t => stopListening (clearTimeout t u1)
            | None => u1
            end in
  render u = set_autoChatEffect None (stopListening u2) /\ isAutoChat u2 = false.
Proof.
  intros H1 H2 u1 u2.
  assert (Hu : isAutoChat u2 = false).
  { subst u2. destruct (autoChatEffect u1); [|done].
    destruct (stopListening_effect (clearTimeout n u1)) as (_ & _ & _ & -> & _).
    done. }
  split; [|done]. unfold render. rewrite H1, H2.
  change (Bool.eqb true false) with false. cbv iota. fold u1. fold u2.
  by rewrite Hu.
Qed.

Section Steps.

Context (pf : Platform).

Lemma reachable_consistent s : reachable pf s -> consistent s.
Proof.
  destruct 1 as [|s now e s' _ Hstep]; [done|].
  unfold step in Hstep. destruct (clock s <=? now); [|done].
  destruct (handle pf e _); [|done].
  injection Hstep as <-. apply render_consistent.
Qed.

(** A step whose handler leaves [isAutoChat] alone renders nothing new. *)
Lemma step_no_render s now e h :
  reachable pf s ->
  handle pf e (set_clock now s) = Some h ->
  isAutoChat h = isAutoChat s ->
  startListeningCb h = startListeningCb s ->
  clock s <= now ->
  step pf now e s = Some h.
Proof.
  intros Hr Hh Ha Hc Hle. unfold step.
  destruct (Z.leb_spec (clock s) now); [|lia].
  rewrite Hh. simpl. f_equal. apply render_id.
  unfold consistent. rewrite Ha, Hc. by apply reachable_consistent.
Qed.

Lemma run_reachable es : forall s s',
  reachable pf s -> run pf es s = Some s' -> reachable pf s'.
Proof.
  induction es as [|[now e] es IH]; simpl; intros s s' Hr Hrun.
  - by injection Hrun as <-.
  - destruct (step pf now e s) as [s1|] eqn:Hs; [|done].
    eapply IH; [|exact Hrun]. by eapply reachable_step.
Qed.

(** The closure that the component hands out in a reachable state with
    auto-chat off (to the microphone button and to [toggleAutoChat]) does
    nothing. *)
Lemma startListening_off s :
  reachable pf s -> isAutoChat s = false ->
  startListening pf (startListeningCb s) s = s.
Proof.
  intros Hr Ha. apply startListening_guard.
  apply reachable_consistent in Hr. unfold consistent in Hr. congruence.
Qed.

End Steps.

(** ** Control steps *)

Lemma control_refl s : control s s.
Proof.
  constructor; auto. exists []. by rewrite app_nil_r.
Qed.

Lemma control_TimerInv s s' : TimerInv s -> control s s' -> TimerInv s'.
Proof.
  intros HT [_ _ (l & Hc & _) Hl Hr] i sid Hi.
  destruct (HT i sid (Hl i sid Hi)) as (Href & p & Hp & Ht).
  split.
  - destruct Hr as [-> | Hn]; [done|]. by destruct (Hn i sid).
  - exists p. split; [|done]. rewrite Hc. apply lookup_app_l_Some. done.
Qed.

Lemma processing_app s s' l :
  cores s' = cores s ++ l -> Forall (fun p => p = ([], false)) l ->
  forall sid, processing sid s' = processing sid s.
Proof.
  intros Hc Hl sid. unfold processing. rewrite Hc.
  destruct (decide (sid < length (cores s))%nat) as [Hlt|Hge].
  - by rewrite lookup_app_l.
  - rewrite lookup_app_r by lia. rewrite (lookup_ge_None_2 (cores s)) by lia.
    destruct (l !! _) as [p|] eqn:Hp; [|done].
    rewrite Forall_lookup in Hl. by rewrite (Hl _ _ Hp).
Qed.

Lemma control_DispatchInv s s' : DispatchInv s -> control s s' -> DispatchInv s'.
Proof.
  intros HD [_ Hd (l & Hc & Hl) _ _] sid.
  unfold inFlightFrom. rewrite Hd.
  rewrite (processing_app s s' l Hc Hl). apply HD.
Qed.

Lemma silences_clear j s :
  silences (clearTimeout j s) = alter (fun _ => None) j (silences s).
Proof.
  unfold silences, clearTimeout. simpl.
  apply list_fmap_alter, Forall_true. done.
Qed.

Lemma cores_alter f sid s :
  (forall x, core (f x) = core x) -> cores (updSession f sid s) = cores s.
Proof.
  intros Hf. unfold cores, updSession. simpl.
  rewrite (list_fmap_alter core f (fun p => p)) by (apply Forall_true; intros x; apply Hf).
  by apply list_alter_id.
Qed.

Lemma cores_lookup s sid x :
  sessions s !! sid = Some x -> cores s !! sid = Some (core x).
Proof. intros H. unfold cores. by rewrite list_lookup_fmap, H. Qed.

Lemma clearSilenceTimer_quiet s :
  TimerInv s -> forall i sid, silences (clearSilenceTimer s) !! i <> Some (Some sid).
Proof.
  intros HT i sid Hi. unfold clearSilenceTimer in Hi.
  destruct (silenceTimerRef s) as [j|] eqn:Hj.
  - rewrite silences_clear in Hi.
    destruct (decide (j = i)) as [->|Hne].
    + rewrite list_lookup_alter_eq in Hi. by destruct (silences s !! i).
    + rewrite list_lookup_alter_ne in Hi by done.
      destruct (HT i sid Hi) as [Hi' _]. congruence.
  - destruct (HT i sid Hi) as [Hi' _]. congruence.
Qed.

Lemma clearSilenceTimer_length s :
  length (timers (clearSilenceTimer s)) = length (timers s).
Proof.
  unfold clearSilenceTimer. destruct (silenceTimerRef s); [|done].
  simpl. apply length_alter.
Qed.

Lemma stopListening_quiet u :
  TimerInv u -> forall i sid, silences (stopListening u) !! i <> Some (Some sid).
Proof.
  intros HT i sid Hi.
  set (u1 := match recognitionRef u with
             | Some r => set_recognitionRef None (call (recognition_stop r) u)
             | None => u
             end).
  assert (HT1 : TimerInv u1) by (subst u1; by destruct (recognitionRef u)).
  apply (clearSilenceTimer_quiet u1 HT1 i sid).
  unfold stopListening in Hi. fold u1 in Hi. unfold clearSilenceTimer.
  by destruct (silenceTimerRef u1).
Qed.

Section Control.

Variable s0 : State.
Hypothesis HT : TimerInv s0.

Lemma control_setInput v s : control s0 s -> control s0 (setInput v s).
Proof. intros H; same H. Qed.
Lemma control_setIsLoading v s : control s0 s -> control s0 (setIsLoading v s).
Proof. intros H; same H. Qed.
Lemma control_setIsAutoChat v s : control s0 s -> control s0 (setIsAutoChat v s).
Proof. intros H; same H. Qed.
Lemma control_setIsListening v s : control s0 s -> control s0 (setIsListening v s).
Proof. intros H; same H. Qed.
Lemma control_set_recognitionRef v s : control s0 s -> control s0 (set_recognitionRef v s).
Proof. intros H; same H. Qed.
Lemma control_set_startListeningCb v s : control s0 s -> control s0 (set_startListeningCb v s).
Proof. intros H; same H. Qed.
Lemma control_set_autoChatEffect v s : control s0 s -> control s0 (set_autoChatEffect v s).
Proof. intros H; same H. Qed.
Lemma control_set_clock v s : control s0 s -> control s0 (set_clock v s).
Proof. intros H; same H. Qed.
Lemma control_call c s : control s0 s -> control s0 (call c s).
Proof. intros H; same H. Qed.

Lemma control_clearTimeout j s : control s0 s -> control s0 (clearTimeout j s).
Proof.
  intros [Hm Hd Hc Hl Hr].
  assert (Hlive : forall i sid, silences (clearTimeout j s) !! i = Some (Some sid) ->
                    silences s !! i = Some (Some sid)).
  { intros i sid. rewrite silences_clear.
    destruct (decide (j = i)) as [->|Hne].
    - rewrite list_lookup_alter_eq. by destruct (silences s !! i).
    - by rewrite list_lookup_alter_ne. }
  constructor; simpl; auto.
  destruct Hr as [Hr|Hr]; [by left|right].
  intros i sid Hi. by apply (Hr i sid), Hlive.
Qed.

Lemma control_setTimeout t d s :
  notSilence t -> control s0 s -> control s0 (setTimeout t d s).2.
Proof.
  intros Hn [Hm Hd Hc Hl Hr].
  assert (Hlive : forall i sid, silences (setTimeout t d s).2 !! i = Some (Some sid) ->
                    silences s !! i = Some (Some sid)).
  { intros i sid. unfold silences. simpl. rewrite fmap_app. simpl.
    intros [H|[_ H]]%lookup_app_Some; [done|].
    destruct (i - _)%nat; [|done]. simpl in H. by destruct t. }
  constructor; simpl; auto.
  destruct Hr as [Hr|Hr]; [by left|right].
  intros i sid Hi. by apply (Hr i sid), Hlive.
Qed.

Lemma control_updSession f sid s :
  (forall x, core (f x) = core x) -> control s0 s -> control s0 (updSession f sid s).
Proof.
  intros Hf [Hm Hd Hc Hl Hr]. constructor; simpl; auto.
  by rewrite cores_alter.
Qed.

Lemma control_newSession c s :
  control s0 s -> control s0 (set_sessions (sessions s ++ [newSession c]) s).
Proof.
  intros [Hm Hd (l & Hc & Hf) Hl Hr]. constructor; simpl; auto.
  exists (l ++ [([], false)]). split.
  - unfold cores in *. simpl. by rewrite fmap_app, Hc, app_assoc.
  - apply list.Forall_app. split; [done|]. by constructor.
Qed.

Lemma control_stopListening s : control s0 s -> control s0 (stopListening s).
Proof.
  intros H. unfold stopListening. apply control_setIsListening.
  set (s1 := match recognitionRef s with Some r => _ | None => s end).
  assert (H1 : control s0 s1).
  { subst s1. destruct (recognitionRef s); [|done].
    by apply control_set_recognitionRef, control_call. }
  assert (Href : silenceTimerRef s1 = silenceTimerRef s).
  { subst s1. by destruct (recognitionRef s). }
  pose proof (control_TimerInv _ _ HT H1) as HT1.
  destruct (silenceTimerRef s1) as [j|] eqn:Hj.
  - pose proof (control_clearTimeout j s1 H1) as [Hm Hd Hc Hl Hr].
    constructor; simpl; auto. right. intros i sid Hi.
    change (silences (clearTimeout j s1) !! i = Some (Some sid)) in Hi.
    rewrite silences_clear in Hi.
    destruct (decide (j = i)) as [->|Hne].
    + rewrite list_lookup_alter_eq in Hi. by destruct (silences s1 !! i).
    + rewrite list_lookup_alter_ne in Hi by done.
      destruct (HT1 i sid Hi) as [Hi' _]. congruence.
  - exact H1.
Qed.

Lemma control_recognitionStart pf sid s :
  control s0 s -> control s0 (recognitionStart pf sid s).2.
Proof.
  intros H. unfold recognitionStart.
  destruct (sessions (call _ s) !! sid) as [x|]; [|by apply control_call].
  destruct (startThrows pf (started x)); simpl; [by apply control_call|].
  apply control_updSession; [done|]. by apply control_call.
Qed.

Lemma control_startListening pf c s : control s0 s -> control s0 (startListening pf c s).
Proof.
  intros H. unfold startListening.
  destruct (cap_isAutoChat c) eqn:Hc; simpl; [|done].
  set (s1 := match recognitionRef s with Some r => _ | None => s end).
  assert (H1 : control s0 s1).
  { subst s1. destruct (recognitionRef s); [|done].
    by apply control_set_recognitionRef, control_call. }
  clearbody s1.
  destruct (hasSpeechRecognition pf); simpl; [|by apply control_call].
  set (s2 := set_recognitionRef _ _).
  assert (H2 : control s0 s2).
  { subst s2. apply control_set_recognitionRef.
    apply (control_newSession c (setIsListening true s1)). by apply control_setIsListening. }
  clearbody s2.
  pose proof (control_recognitionStart pf (length (sessions s1)) s2 H2) as H3.
  destruct (recognitionStart pf _ s2) as [ok1 s3]. simpl in H3.
  set (s4 := if ok1 then _ else _).
  assert (H4 : control s0 s4).
  { subst s4. destruct ok1; [by apply control_setIsListening|].
    by apply control_setTimeout. }
  clearbody s4.
  pose proof (control_recognitionStart pf (length (sessions s1)) s4 H4) as H5.
  destruct (recognitionStart pf _ s4) as [ok2 s5]. simpl in H5.
  by apply control_setIsListening.
Qed.
End Control.

Section ControlHandlers.

Variable pf : Platform.
Variable s0 : State.
Hypothesis HT : TimerInv s0.

Lemma control_onend sid s : control s0 s -> control s0 (onend sid s).
Proof.
  intros H. unfold onend. destruct (sessions s !! sid) as [x|]; [|done].
  destruct (cap_isAutoChat (closure x)); simpl.
  - by apply control_setTimeout.
  - by apply control_setIsListening.
Qed.

Lemma control_onerror sid e s : control s0 s -> control s0 (onerror sid e s).
Proof.
  intros H. unfold onerror. destruct (sessions s !! sid) as [x|]; [|done].
  destruct (_ && _); [|by apply control_setIsListening].
  apply control_setTimeout; [done|]. simpl.
  destruct (recognitionRef s); [apply control_call|]; by apply control_setIsListening.
Qed.

Lemma control_toggleAutoChat s : control s0 s -> control s0 (toggleAutoChat pf s).
Proof.
  intros H. unfold toggleAutoChat.
  destruct (negb (isAutoChat s)).
  - destruct (negb (isListening s)).
    + by apply control_startListening, control_setIsAutoChat.
    + by apply control_setIsAutoChat.
  - by apply control_stopListening, control_setIsAutoChat.
Qed.

Lemma control_clickMic s : control s0 s -> control s0 (clickMic pf s).
Proof.
  intros H. unfold clickMic. destruct (isListening s).
  - by apply control_stopListening.
  - by apply control_startListening.
Qed.

Lemma control_render s : control s0 s -> control s0 (render s).
Proof.
  intros H. unfold render. destruct (Bool.eqb _ _); [done|].
  set (s1 := set_startListeningCb _ s).
  assert (H1 : control s0 s1) by (by apply control_set_startListeningCb).
  clearbody s1.
  set (s2 := match autoChatEffect s1 with Some t => _ | None => s1 end).
  assert (H2 : control s0 s2).
  { subst s2. destruct (autoChatEffect s1); [|done].
    by apply control_stopListening, control_clearTimeout. }
  clearbody s2.
  destruct (isAutoChat s2).
  - apply control_set_autoChatEffect. by apply control_setTimeout.
  - by apply control_set_autoChatEffect, control_stopListening.
Qed.

Lemma control_runTimer t s :
  notSilence t -> control s0 s -> control s0 (runTimer pf t s).
Proof.
  intros Hn H. destruct t as [sid|c|c|c|b c]; simpl; [done|..].
  - destruct (cap_isAutoChat c); [|done]. apply control_startListening.
    destruct (recognitionRef s); [by apply control_call|done].
  - destruct (cap_isAutoChat c); [|done]. by apply control_startListening.
  - by apply control_startListening.
  - destruct b; [|done]. by apply control_startListening.
Qed.

End ControlHandlers.

(** ** The invariants hold in every reachable state *)

Lemma TimerInv_proj s s' :
  timers s' = timers s ->
  silenceTimerRef s' = silenceTimerRef s ->
  (forall sid p, cores s !! sid = Some p ->
     exists p', cores s' !! sid = Some p' /\ p'.1 = p.1) ->
  TimerInv s -> TimerInv s'.
Proof.
  intros Ht Hr Hc HT i sid Hi. unfold silences in Hi. rewrite Ht in Hi.
  destruct (HT i sid Hi) as (Href & p & Hp & Htr).
  split; [congruence|].
  destruct (Hc sid p Hp) as (p' & Hp' & E). exists p'. by rewrite E.
Qed.

Lemma processing_alter b sid sid' s s' :
  cores s' = alter (fun p => (p.1, b)) sid (cores s) ->
  processing sid' s' =
    if decide (sid = sid')
    then match cores s !! sid with Some _ => b | None => false end
    else processing sid' s.
Proof.
  intros Hc. unfold processing. rewrite Hc.
  destruct (decide (sid = sid')) as [->|Hne].
  - rewrite list_lookup_alter_eq. by destruct (cores s !! sid').
  - by rewrite list_lookup_alter_ne.
Qed.

Lemma unsettledFrom_settled sid y : unsettledFrom sid (set_phase Settled y) = false.
Proof. done. Qed.

Lemma unsettledFrom_speak sid y :
  phase y <> Settled -> unsettledFrom sid (set_phase AwaitSpeak y) = unsettledFrom sid y.
Proof. unfold unsettledFrom. simpl. by destruct (phase y). Qed.

Lemma Inv_control s s' : Inv s -> control s s' -> Inv s'.
Proof. intros [HT HD] H. split; [by eapply control_TimerInv | by eapply control_DispatchInv]. Qed.

Lemma Inv_set_messages v s : Inv s -> Inv (set_messages v s).
Proof. intros [HT HD]. split; done. Qed.

Lemma Inv_processAIResponse_submit t s :
  Inv s -> Inv (processAIResponse FromSubmit t s).1.
Proof.
  intros [HT HD]. unfold processAIResponse.
  destruct (negb _); [done|]. split; [done|].
  intros sid. unfold inFlightFrom. simpl.
  rewrite filter_length_snoc. simpl. rewrite Nat.add_0_r. apply HD.
Qed.

Lemma Inv_silenceCallback sid s : Inv s -> Inv (silenceCallback sid s).
Proof.
  intros [HT HD].
  destruct (sessions s !! sid) as [x|] eqn:Hx;
    [|unfold silenceCallback; by rewrite Hx].
  destruct (truthy (trim (finalTranscript x))) eqn:Ht;
    [|by rewrite (silenceCallback_dropped sid s x Hx) by (by right)].
  destruct (isProcessing x) eqn:Hp;
    [by rewrite (silenceCallback_dropped sid s x Hx) by (by left)|].
  destruct (silenceCallback_dispatches sid s x Hx Ht Hp)
    as (Hd & _ & _ & Hs & Hti & _ & _ & _ & _ & Hr & _).
  assert (Hc : cores (silenceCallback sid s) = alter (fun p => (p.1, true)) sid (cores s)).
  { unfold cores. rewrite Hs. apply list_fmap_alter, Forall_true. done. }
  split.
  - apply (TimerInv_proj s); [done|done| |done].
    intros sid' p Hp'. rewrite Hc. by apply alter_fst_lookup.
  - intros sid'. unfold inFlightFrom. rewrite Hd, filter_length_snoc.
    rewrite (processing_alter true sid sid' s _ Hc). simpl.
    rewrite (cores_lookup s sid x Hx).
    specialize (HD sid'). unfold inFlightFrom in HD. rewrite HD.
    unfold unsettledFrom. simpl.
    destruct (decide (sid = sid')) as [->|Hne].
    + rewrite Nat.eqb_refl. unfold processing.
      rewrite (cores_lookup s sid' x Hx). simpl. by rewrite Hp.
    + destruct (Nat.eqb_spec sid' sid); [congruence|]. simpl. lia.
Qed.

Lemma Inv_finish d x s :
  dispatches s !! d = Some x -> phase x <> Settled ->
  Inv s -> Inv (finish d (origin x) s).
Proof.
  intros Hx Hph [HT HD].
  destruct (finish_effect d (origin x) s)
    as (_ & _ & Hti & _ & Hd & Hs & _ & _ & _ & _ & Hr & _).
  split.
  - apply (TimerInv_proj s); [done|done| |done].
    intros sid p Hp. unfold cores. rewrite Hs. unfold sessionsResumed.
    destruct (origin x) as [sid0|]; [|eauto].
    rewrite (list_fmap_alter core _ (fun p => (p.1, false)))
      by (apply Forall_true; done).
    by apply alter_fst_lookup.
  - intros sid. unfold inFlightFrom. rewrite Hd.
    pose proof (filter_length_alter (unsettledFrom sid) (set_phase Settled) _ d x Hx) as E.
    rewrite unsettledFrom_settled in E. simpl in E.
    specialize (HD sid). unfold inFlightFrom in HD.
    destruct (origin x) as [sid0|] eqn:Ho.
    + assert (Hc : cores (finish d (FromSilenceTimer sid0) s)
                   = alter (fun p => (p.1, false)) sid0 (cores s)).
      { unfold cores. rewrite Hs. apply list_fmap_alter, Forall_true. done. }
      rewrite (processing_alter false sid0 sid s _ Hc).
      assert (Hu : unsettledFrom sid x = Nat.eqb sid sid0).
      { unfold unsettledFrom. rewrite Ho. by destruct (phase x). }
      rewrite Hu in E.
      destruct (decide (sid0 = sid)) as [->|Hne].
      * rewrite Nat.eqb_refl in E. simpl in E.
        destruct (processing sid s); simpl in HD;
          destruct (cores s !! sid); simpl; lia.
      * destruct (Nat.eqb_spec sid sid0); [congruence|]. simpl in E. lia.
    + assert (Hu : unsettledFrom sid x = false).
      { unfold unsettledFrom. rewrite Ho. by destruct (phase x). }
      rewrite Hu in E. simpl in E.
      assert (Hp : processing sid (finish d FromSubmit s) = processing sid s).
      { unfold processing, cores. by rewrite Hs. }
      rewrite Hp. lia.
Qed.

Lemma Inv_afterSpeak pf d x s :
  dispatches s !! d = Some x -> phase x <> Settled ->
  Inv s -> Inv (afterSpeak pf d (origin x) s).
Proof. intros. unfold afterSpeak. simpl. by apply Inv_finish. Qed.

Lemma Inv_speak pf d x t s :
  dispatches s !! d = Some x -> phase x <> Settled ->
  Inv s -> Inv (speak pf d (origin x) t s).
Proof.
  intros Hx Hph HI. unfold speak.
  destruct (hasSpeechSynthesis pf); [|by apply Inv_afterSpeak].
  destruct HI as [HT HD]. split; [done|].
  intros sid. unfold inFlightFrom. simpl.
  pose proof (filter_length_alter (unsettledFrom sid) (set_phase AwaitSpeak) _ d x Hx) as E.
  rewrite unsettledFrom_speak in E by done.
  specialize (HD sid). unfold inFlightFrom in HD.
  change (processing sid _) with (processing sid s). lia.
Qed.

Lemma Inv_fetchSettled pf d x out s :
  dispatches s !! d = Some x -> phase x <> Settled ->
  Inv s -> Inv (fetchSettled pf d (origin x) out s).
Proof.
  intros Hx Hph HI. unfold fetchSettled.
  destruct (aiTextOf out).
  - apply Inv_speak; [done|done|]. by apply Inv_set_messages.
  - apply (Inv_finish d x); [done|done|]. by apply Inv_set_messages.
Qed.

Lemma Inv_onresult sid ev s : Inv s -> Inv (onresult sid ev s).
Proof.
  intros [HT HD].
  destruct (sessions s !! sid) as [x|] eqn:Hx;
    [|unfold onresult; by rewrite Hx].
  destruct (onresult_effect sid ev s x Hx)
    as (Hs & _ & Hti & Hr & _ & Hd & _).
  set (final := default (finalTranscript x) (transcript <$> lastFinal ev)) in *.
  assert (Hc : cores (onresult sid ev s) = alter (fun p => (final, p.2)) sid (cores s)).
  { unfold cores. rewrite Hs. apply list_fmap_alter, Forall_true. done. }
  split.
  - intros i sid' Hi. unfold silences in Hi. rewrite Hti, fmap_app in Hi.
    apply lookup_app_Some in Hi as [Hi|[Hlen Hi]];
      [by destruct (clearSilenceTimer_quiet s HT i sid')|].
    rewrite length_fmap, clearSilenceTimer_length in Hlen, Hi.
    destruct (truthy (trim final)) eqn:Hf; [|by destruct (i - _)%nat].
    destruct (i - length (timers s))%nat eqn:E; [|by destruct n].
    simpl in Hi. injection Hi as <-.
    split; [rewrite Hr; f_equal; lia|].
    exists (final, isProcessing x). split; [|done].
    by rewrite Hc, list_lookup_alter_eq, (cores_lookup s sid x Hx).
  - intros sid'. unfold inFlightFrom. rewrite Hd.
    assert (Hp : processing sid' (onresult sid ev s) = processing sid' s).
    { unfold processing. rewrite Hc.
      destruct (decide (sid = sid')) as [->|Hne].
      - rewrite list_lookup_alter_eq. by destruct (cores s !! sid').
      - by rewrite list_lookup_alter_ne. }
    rewrite Hp. apply HD.
Qed.

Lemma Inv_init : Inv init.
Proof.
  split.
  - intros i sid Hi. by destruct i.
  - intros sid. by destruct sid.
Qed.

Lemma handle_Inv pf e s h : Inv s -> handle pf e s = Some h -> Inv h.
Proof.
  intros HI Hh. pose proof HI as [HT HD].
  destruct e as [| |v| |i|sid ev|sid|sid e|d out|d]; simpl in Hh.
  - injection Hh as <-. eapply Inv_control; [done|].
    apply control_toggleAutoChat; [done|apply control_refl].
  - injection Hh as <-. eapply Inv_control; [done|].
    apply control_clickMic; [done|apply control_refl].
  - destruct (_ || _); [done|]. injection Hh as <-.
    eapply Inv_control; [done|]. apply control_setInput, control_refl.
  - injection Hh as <-. unfold handleSubmit.
    destruct (_ || _); [done|]. by apply Inv_processAIResponse_submit.
  - destruct (timers s !! i) as [t|]; [|done].
    destruct (_ && _); [|done]. injection Hh as <-.
    assert (H1 : control s (clearTimeout i s)) by apply control_clearTimeout, control_refl.
    destruct (task t) as [sid|c|c|c|b c] eqn:Et.
    + apply Inv_silenceCallback. by eapply Inv_control.
    + eapply Inv_control; [done|]. by apply control_runTimer.
    + eapply Inv_control; [done|]. by apply control_runTimer.
    + eapply Inv_control; [done|]. by apply control_runTimer.
    + eapply Inv_control; [done|]. by apply control_runTimer.
  - destruct (sessions s !! sid) as [x|]; [|done].
    destruct (started x); [|done]. injection Hh as <-. by apply Inv_onresult.
  - destruct (sessions s !! sid) as [x|]; [|done].
    destruct (started x); [|done]. injection Hh as <-.
    eapply Inv_control; [done|]. apply control_onend, control_updSession; [done|apply control_refl].
  - destruct (sessions s !! sid) as [x|]; [|done].
    destruct (started x); [|done]. injection Hh as <-.
    eapply Inv_control; [done|]. apply control_onerror, control_refl.
  - destruct (dispatches s !! d) as [x|] eqn:Hx; [|done].
    destruct (phase x) eqn:Hp; try done. injection Hh as <-.
    apply Inv_fetchSettled; [done|congruence|done].
  - destruct (dispatches s !! d) as [x|] eqn:Hx; [|done].
    destruct (phase x) eqn:Hp; try done. injection Hh as <-.
    apply Inv_afterSpeak; [done|congruence|done].
Qed.

Lemma step_Inv pf now e s s' : Inv s -> step pf now e s = Some s' -> Inv s'.
Proof.
  intros HI Hs. unfold step in Hs. destruct (clock s <=? now); [|done].
  destruct (handle pf e _) as [h|] eqn:Hh; [|done]. injection Hs as <-.
  assert (H1 : Inv (set_clock now s)).
  { eapply Inv_control; [done|]. apply control_set_clock, control_refl. }
  pose proof (handle_Inv pf e _ h H1 Hh) as H2.
  eapply Inv_control; [done|]. apply control_render; [by destruct H2|apply control_refl].
Qed.

Lemma reachable_Inv pf s : reachable pf s -> Inv s.
Proof.
  induction 1 as [|s now e s' _ IH Hs]; [apply Inv_init|].
  by eapply step_Inv.
Qed.

(** ** The message log, step by step *)

Lemma handle_log pf e s h :
  Inv s -> handle pf e s = Some h -> LogStep (clock s) e s h.
Proof.
  intros HI Hh. pose proof HI as [HT HD].
  assert (Hcontrol : forall h', control s h' -> LogStep (clock s) e s h').
  { intros h' [Hm Hd _ _ _]. apply log_unchanged; [done|by left]. }
  destruct e as [| |v| |i|sid ev|sid|sid e|d out|d]; simpl in Hh.
  - injection Hh as <-. apply Hcontrol, control_toggleAutoChat; [done|apply control_refl].
  - injection Hh as <-. apply Hcontrol, control_clickMic; [done|apply control_refl].
  - destruct (_ || _); [done|]. injection Hh as <-.
    apply Hcontrol, control_setInput, control_refl.
  - injection Hh as <-. unfold handleSubmit.
    destruct (_ || _); [apply Hcontrol, control_refl|].
    destruct (processAIResponse_log FromSubmit (trim (input s)) s) as [->|[Hm Hd]].
    + apply Hcontrol, control_refl.
    + by eapply log_dispatch.
  - destruct (timers s !! i) as [t|]; [|done].
    destruct (_ && _); [|done]. injection Hh as <-.
    assert (H1 : control s (clearTimeout i s)) by apply control_clearTimeout, control_refl.
    destruct (task t) as [sid|c|c|c|b c] eqn:Et;
      [|by apply Hcontrol, control_runTimer..].
    simpl. set (s1 := clearTimeout i s) in *.
    destruct (sessions s1 !! sid) as [x|] eqn:Hx;
      [|unfold silenceCallback; rewrite Hx; by apply Hcontrol].
    destruct (truthy (trim (finalTranscript x))) eqn:Ht;
      [|rewrite (silenceCallback_dropped sid s1 x Hx) by (by right); by apply Hcontrol].
    destruct (isProcessing x) eqn:Hp;
      [rewrite (silenceCallback_dropped sid s1 x Hx) by (by left); by apply Hcontrol|].
    destruct (silenceCallback_dispatches sid s1 x Hx Ht Hp) as (Hd & _ & Hm & _).
    by eapply log_dispatch.
  - destruct (sessions s !! sid) as [x|] eqn:Hx; [|done].
    destruct (started x); [|done]. injection Hh as <-.
    destruct (onresult_effect sid ev s x Hx) as (_ & _ & _ & _ & Hm & Hd & _).
    apply log_unchanged; [done|by left].
  - destruct (sessions s !! sid) as [x|]; [|done].
    destruct (started x); [|done]. injection Hh as <-.
    apply Hcontrol, control_onend, control_updSession; [done|apply control_refl].
  - destruct (sessions s !! sid) as [x|]; [|done].
    destruct (started x); [|done]. injection Hh as <-.
    apply Hcontrol, control_onerror, control_refl.
  - destruct (dispatches s !! d) as [x|] eqn:Hx; [|done].
    destruct (phase x) eqn:Hp; try done. injection Hh as <-.
    destruct (fetchSettled_log pf d (origin x) out s) as (Hm & p & Hne & Hd).
    by eapply log_reply.
  - destruct (dispatches s !! d) as [x|] eqn:Hx; [|done].
    destruct (phase x) eqn:Hp; try done. injection Hh as <-.
    unfold afterSpeak. simpl.
    destruct (finish_effect d (origin x) s) as (Hm & _ & _ & _ & Hd & _).
    apply log_unchanged; [done|]. right. by exists d.
Qed.

Lemma step_log pf now e s s' :
  reachable pf s -> step pf now e s = Some s' -> LogStep now e s s'.
Proof.
  intros Hr Hs. apply reachable_Inv in Hr as HI.
  unfold step in Hs. destruct (clock s <=? now); [|done].
  destruct (handle pf e _) as [h|] eqn:Hh; [|done]. injection Hs as <-.
  assert (H1 : Inv (set_clock now s)).
  { eapply Inv_control; [done|]. apply control_set_clock, control_refl. }
  pose proof (handle_Inv pf e _ h H1 Hh) as [HT2 _].
  destruct (control_render h HT2 h (control_refl h)) as [Hm Hd _ _ _].
  destruct (handle_log pf e _ h H1 Hh)
    as [Em El|t o Em Ed|d x out p Ee Ex Ep Em Hne Ed]; simpl in *.
  - apply log_unchanged; [congruence|by rewrite Hd].
  - eapply log_dispatch; [by rewrite Hm, Em | by rewrite Hd, Ed].
  - eapply log_reply; [done..| by rewrite Hm, Em | done | by rewrite Hd, Ed].
Qed.

Lemma LogStep_prefix now e s s' :
  LogStep now e s s' -> messages s `prefix_of` messages s'.
Proof.
  intros [Hm _|t o Hm _|d x out p _ _ _ Hm _ _]; rewrite Hm;
    [done|by apply prefix_app_r..].
Qed.

Lemma LogStep_pastFetch now e s s' d :
  LogStep now e s s' -> pastFetch d s -> pastFetch d s'.
Proof.
  intros H (x & Hx & Hp).
  assert (Halter : forall p d', p <> AwaitFetch ->
            pastFetch d (set_dispatches (alter (set_phase p) d' (dispatches s)) s)).
  { intros p d' Hne. unfold pastFetch. simpl.
    destruct (decide (d' = d)) as [->|Hd].
    - exists (set_phase p x). by rewrite list_lookup_alter_eq, Hx.
    - exists x. by rewrite list_lookup_alter_ne. }
  unfold pastFetch.
  destruct H as [_ [->| [d' ->]]|t o _ ->|d' y out p _ _ _ _ Hne ->].
  - eauto.
  - by apply (Halter Settled d').
  - exists x. split; [by apply lookup_app_l_Some|done].
  - by apply (Halter p d').
Qed.

Lemma run_log pf es : forall s s',
  reachable pf s -> run pf es s = Some s' ->
  messages s `prefix_of` messages s' /\
  forall d, pastFetch d s -> pastFetch d s'.
Proof.
  induction es as [|[now e] es IH]; simpl; intros s s' Hr Hrun.
  - by injection Hrun as <-.
  - destruct (step pf now e s) as [s1|] eqn:Hs; [|done].
    pose proof (step_log pf now e s s1 Hr Hs) as HL.
    destruct (IH s1 s' (reachable_step pf s now e s1 Hr Hs) Hrun) as [Hp Hf].
    split.
    + etrans; [by eapply LogStep_prefix|done].
    + intros d Hd. by eapply Hf, LogStep_pastFetch.
Qed.

Lemma step_fetchSettles pf now d out s s' :
  reachable pf s -> step pf now (FetchSettles d out) s = Some s' ->
  messages s' = messages s ++ [mkMessage now ai (replyText out)] /\
  pastFetch d s'.
Proof.
  intros Hr Hs. apply reachable_Inv in Hr as HI.
  unfold step in Hs. destruct (clock s <=? now); [|done].
  destruct (handle pf _ _) as [h|] eqn:Hh; [|done]. injection Hs as <-.
  assert (H1 : Inv (set_clock now s)).
  { eapply Inv_control; [done|]. apply control_set_clock, control_refl. }
  pose proof (handle_Inv pf _ _ h H1 Hh) as [HT2 _].
  destruct (control_render h HT2 h (control_refl h)) as [Hm Hd _ _ _].
  simpl in Hh. destruct (dispatches s !! d) as [x|] eqn:Hx; [|done].
  destruct (phase x); try done. injection Hh as <-.
  destruct (fetchSettled_log pf d (origin x) out (set_clock now s))
    as (Em & p & Hne & Ed).
  split; [by rewrite Hm, Em|].
  exists (set_phase p x). rewrite Hd, Ed. simpl.
  by rewrite list_lookup_alter_eq, Hx.
Qed.

Lemma pastFetch_no_settle pf now d out s :
  pastFetch d s -> step pf now (FetchSettles d out) s = None.
Proof.
  intros (x & Hx & Hp). unfold step. destruct (clock s <=? now); [|done].
  simpl. rewrite Hx. by destruct (phase x).
Qed.

(** ** The steps of three handlers *)

Section HandlerSteps.

Context (pf : Platform).

Lemma step_onresult s now sid ev x :
  reachable pf s ->
  sessions s !! sid = Some x -> started x = true -> clock s <= now ->
  step pf now (RecognitionResult sid ev) s = Some (onresult sid ev (set_clock now s)).
Proof.
  intros Hr Hx Hs Hle.
  destruct (onresult_effect sid ev (set_clock now s) x Hx)
    as (_ & _ & _ & _ & _ & _ & _ & _ & _ & _ & Ha & Hc).
  apply step_no_render; try done. simpl. by rewrite Hx, Hs.
Qed.

Lemma step_fetchSettled s now d x out :
  reachable pf s ->
  dispatches s !! d = Some x -> phase x = AwaitFetch -> clock s <= now ->
  step pf now (FetchSettles d out) s
    = Some (fetchSettled pf d (origin x) out (set_clock now s)).
Proof.
  intros Hr Hx Hp Hle.
  destruct (fetchSettled_frame pf d (origin x) out (set_clock now s)) as [Ha Hc].
  apply step_no_render; try done. simpl. by rewrite Hx, Hp.
Qed.

(** A pending silence timer fires: its session stores a final transcript
    that is not blank, and the step is the callback of line 182. *)
Lemma step_silenceCallback s now i t sid :
  reachable pf s ->
  timers s !! i = Some t -> pending t = true -> task t = SilenceTimer sid ->
  due t <= now -> clock s <= now ->
  exists x,
    sessions s !! sid = Some x /\
    truthy (trim (finalTranscript x)) = true /\
    inFlightFrom sid s = Nat.b2n (isProcessing x) /\
    step pf now (TimerFires i) s
      = Some (silenceCallback sid (clearTimeout i (set_clock now s))).
Proof.
  intros Hr Hi Hp Ht Hdue Hclock.
  pose proof (reachable_Inv pf s Hr) as [HT HD].
  assert (Hlive : silences s !! i = Some (Some sid)).
  { unfold silences. rewrite list_lookup_fmap, Hi. simpl.
    unfold live. by rewrite Hp, Ht. }
  destruct (HT i sid Hlive) as (_ & p & Hc & Htr).
  unfold cores in Hc. rewrite list_lookup_fmap in Hc.
  destruct (sessions s !! sid) as [x|] eqn:Hx; [|done].
  simpl in Hc. injection Hc as <-. simpl in Htr.
  exists x. split; [done|]. split; [done|]. split.
  { rewrite (HD sid). unfold processing. by rewrite (cores_lookup s sid x Hx). }
  destruct (silenceCallback_frame sid (clearTimeout i (set_clock now s))) as [Ha Hcb].
  apply step_no_render; try done.
  simpl. rewrite Hi, Hp. simpl.
  destruct (Z.leb_spec (due t) now); [|lia]. by rewrite Ht.
Qed.

End HandlerSteps.

(** ** Trimming *)

(** [trim] is idempotent: what it returns neither starts nor ends with
    white space. *)
Lemma trimStart_snoc l c :
  isWhiteSpace c = false -> trimStart (l ++ [c]) = trimStart l ++ [c].
Proof.
  intros Hc. induction l as [|a l IH]; simpl; [by rewrite Hc|].
  by destruct (isWhiteSpace a).
Qed.

Lemma trimStart_fixed c u : isWhiteSpace c = false -> trimStart (c :: u) = c :: u.
Proof. intros Hc. simpl. by rewrite Hc. Qed.

Lemma trimEnd_cons c u :
  isWhiteSpace c = false -> trimEnd (c :: u) = c :: trimEnd u.
Proof.
  intros Hc. unfold trimEnd. rewrite reverse_cons, trimStart_snoc by done.
  by rewrite reverse_app.
Qed.

Lemma trimStart_idem t : trimStart (trimStart t) = trimStart t.
Proof.
  destruct (trimStart t) as [|c u] eqn:E; [done|].
  apply trimStart_fixed. by eapply trimStart_head.
Qed.

Lemma trimEnd_idem t : trimEnd (trimEnd t) = trimEnd t.
Proof.
  unfold trimEnd. by rewrite reverse_involutive, trimStart_idem.
Qed.

Lemma trim_trimStart t : trimStart (trim t) = trim t.
Proof.
  unfold trim. destruct (trimStart t) as [|c u] eqn:E; [done|].
  assert (Hc : isWhiteSpace c = false) by (by eapply trimStart_head).
  rewrite trimEnd_cons by done. by apply trimStart_fixed.
Qed.

Lemma trim_idem t : trim (trim t) = trim t.
Proof.
  unfold trim at 1. rewrite trim_trimStart. unfold trim. apply trimEnd_idem.
Qed.

(** ** [startListening] and [stopListening], written out

    The state after [startListening] got past its guards, in a browser
    with speech recognition: [ok] tells whether the first [start()]
    returned; the second one then throws if [start()] throws on a started
    object, and it throws as the first did otherwise. *)
Lemma startListening_run pf c s :
  cap_isAutoChat c = true -> hasSpeechRecognition pf = true ->
  let sid := length (sessions s) in
  let ok := negb (startThrows pf false) in
  startListening pf c s =
    {| messages := messages s; input := input s; isLoading := isLoading s;
       isAutoChat := isAutoChat s;
       isListening := ok && negb (startThrows pf true);
       recognitionRef := Some sid; silenceTimerRef := silenceTimerRef s;
       startListeningCb := startListeningCb s; autoChatEffect := autoChatEffect s;
       sessions := sessions s ++ [set_started ok (newSession c)];
       timers := timers s ++ (if ok then [] else [retryTimerAt c s]);
       dispatches := dispatches s;
       calls := calls s ++ stops s ++ [recognition_start sid; recognition_start sid];
       clock := clock s |}.
Proof.
  intros Hc Hp. simpl.
  assert (Hnew : forall ss : list Session, (ss ++ [newSession c]) !! length ss
                 = Some (newSession c)) by (intros; by apply list_lookup_middle).
  assert (Hnew' : forall ss : list Session,
             (ss ++ [set_started true (newSession c)]) !! length ss
             = Some (set_started true (newSession c)))
    by (intros; by apply list_lookup_middle).
  assert (Halt : forall (ss : list Session) x,
             alter (set_started true) (length ss) (ss ++ [x])
             = ss ++ [set_started true x]).
  { intros ss x. rewrite <- (Nat.add_0_r (length ss)). by rewrite alter_app_r. }
  destruct s as [m i l a li r st cb ef ss ts ds cs ck].
  unfold startListening, recognitionStart, stops, retryTimerAt, updSession. simpl.
  rewrite Hc, Hp. simpl.
  destruct r as [r|]; simpl; rewrite Hnew; simpl;
    destruct (startThrows pf false) eqn:Hf; simpl;
    rewrite ?Halt, ?Hnew, ?Hnew'; simpl; rewrite ?Hf; simpl;
    try (destruct (startThrows pf true); simpl);
    cbv beta iota delta [setIsListening call set_timers set_calls set_recognitionRef
      set_sessions messages input isLoading isAutoChat isListening recognitionRef
      silenceTimerRef startListeningCb autoChatEffect sessions timers dispatches
      calls clock];
    rewrite ?Halt, <- ?app_assoc, ?app_nil_r; reflexivity.
Qed.

(** ... and in a browser without speech recognition. *)
Lemma startListening_alert pf c s :
  cap_isAutoChat c = true -> hasSpeechRecognition pf = false ->
  startListening pf c s =
    {| messages := messages s; input := input s; isLoading := isLoading s;
       isAutoChat := isAutoChat s; isListening := isListening s;
       recognitionRef := None; silenceTimerRef := silenceTimerRef s;
       startListeningCb := startListeningCb s; autoChatEffect := autoChatEffect s;
       sessions := sessions s; timers := timers s; dispatches := dispatches s;
       calls := calls s ++ stops s ++ [alert unsupportedText];
       clock := clock s |}.
Proof.
  intros Hc Hp. destruct s as [m i l a li r st cb ef ss ts ds cs ck].
  unfold startListening, stops. simpl. rewrite Hc, Hp. simpl.
  destruct r as [r|]; simpl;
    cbv beta iota delta [call set_calls set_recognitionRef messages input isLoading
      isAutoChat isListening recognitionRef silenceTimerRef startListeningCb
      autoChatEffect sessions timers dispatches calls clock];
    rewrite <- ?app_assoc; reflexivity.
Qed.

Lemma stopListening_run s :
  stopListening s =
    {| messages := messages s; input := input s; isLoading := isLoading s;
       isAutoChat := isAutoChat s; isListening := false;
       recognitionRef := None; silenceTimerRef := None;
       startListeningCb := startListeningCb s; autoChatEffect := autoChatEffect s;
       sessions := sessions s; timers := timers (clearSilenceTimer s);
       dispatches := dispatches s; calls := calls s ++ stops s;
       clock := clock s |}.
Proof.
  destruct s as [m i l a li r st cb ef ss ts ds cs ck].
  unfold stopListening, stops, clearSilenceTimer. simpl.
  destruct r as [r|]; simpl; destruct st as [t|]; simpl;
    rewrite ?app_nil_r; reflexivity.
Qed.

(** ** What the handlers leave alone *)

Lemma fetches_quiet l : Forall quietCall l ->
  omap (fun c => match c with fetch t => Some t | _ => None end) l = [].
Proof. induction 1 as [|c l Hc _ IH]; [done|]. by destruct c. Qed.

Lemma spoken_quiet l : Forall quietCall l ->
  omap (fun c => match c with speechSynthesis_speak t => Some t | _ => None end) l = [].
Proof. induction 1 as [|c l Hc _ IH]; [done|]. by destruct c. Qed.

Lemma frame_calls s s' l :
  messages s' = messages s -> input s' = input s -> isLoading s' = isLoading s ->
  dispatches s' = dispatches s -> clock s' = clock s ->
  calls s' = calls s ++ l -> Forall quietCall l ->
  frame s' = frame s.
Proof.
  intros Hm Hi Hl Hd Hc Hcalls Hq. unfold frame, fetches, spoken.
  rewrite Hm, Hi, Hl, Hd, Hc, Hcalls, !omap_app.
  rewrite (fetches_quiet l), (spoken_quiet l) by done. by rewrite !app_nil_r.
Qed.

Lemma frame_stopListening s : frame (stopListening s) = frame s.
Proof.
  rewrite stopListening_run.
  eapply frame_calls; try reflexivity. simpl.
  unfold stops. destruct (recognitionRef s); repeat constructor.
Qed.

Lemma frame_startListening pf c s : frame (startListening pf c s) = frame s.
Proof.
  destruct (cap_isAutoChat c) eqn:Hc; [|by rewrite startListening_guard].
  destruct (hasSpeechRecognition pf) eqn:Hp.
  - rewrite startListening_run by done.
    eapply frame_calls; try reflexivity. simpl.
    unfold stops. destruct (recognitionRef s); repeat constructor.
  - rewrite startListening_alert by done.
    eapply frame_calls; try reflexivity. simpl.
    unfold stops. destruct (recognitionRef s); repeat constructor.
Qed.

Lemma hooks_stopListening s :
  hooks (stopListening s) = hooks s /\ isAutoChat (stopListening s) = isAutoChat s.
Proof. by rewrite stopListening_run. Qed.

Lemma hooks_startListening pf c s :
  hooks (startListening pf c s) = hooks s /\
  isAutoChat (startListening pf c s) = isAutoChat s.
Proof.
  destruct (cap_isAutoChat c) eqn:Hc; [|by rewrite startListening_guard].
  destruct (hasSpeechRecognition pf) eqn:Hp.
  - by rewrite startListening_run.
  - by rewrite startListening_alert.
Qed.

Lemma frame_onend sid s : frame (onend sid s) = frame s.
Proof.
  unfold onend. destruct (sessions s !! sid); [|done].
  by destruct (negb _).
Qed.

Lemma hooks_onend sid s :
  hooks (onend sid s) = hooks s /\ isAutoChat (onend sid s) = isAutoChat s.
Proof.
  unfold onend. destruct (sessions s !! sid); [|done].
  by destruct (negb _).
Qed.

Lemma frame_onerror sid e s : frame (onerror sid e s) = frame s.
Proof.
  unfold onerror. destruct (sessions s !! sid); [|done].
  destruct (_ && _); [|done]. simpl.
  destruct (recognitionRef s); [|done].
  eapply frame_calls; try reflexivity. simpl. repeat constructor.
Qed.

Lemma hooks_onerror sid e s :
  hooks (onerror sid e s) = hooks s /\ isAutoChat (onerror sid e s) = isAutoChat s.
Proof.
  unfold onerror. destruct (sessions s !! sid); [|done].
  destruct (_ && _); [|done]. simpl. by destruct (recognitionRef s).
Qed.

Lemma frame_clickMic pf s : frame (clickMic pf s) = frame s.
Proof.
  unfold clickMic. destruct (isListening s);
    [apply frame_stopListening|apply frame_startListening].
Qed.

Lemma hooks_clickMic pf s :
  hooks (clickMic pf s) = hooks s /\ isAutoChat (clickMic pf s) = isAutoChat s.
Proof.
  unfold clickMic. destruct (isListening s);
    [apply hooks_stopListening|apply hooks_startListening].
Qed.

Lemma frame_toggleAutoChat pf s : frame (toggleAutoChat pf s) = frame s.
Proof.
  unfold toggleAutoChat. destruct (negb (isAutoChat s)).
  - destruct (negb _); [|done]. by rewrite frame_startListening.
  - by rewrite frame_stopListening.
Qed.

Lemma hooks_toggleAutoChat pf s : hooks (toggleAutoChat pf s) = hooks s.
Proof.
  unfold toggleAutoChat. destruct (negb (isAutoChat s)).
  - destruct (negb _); [|done].
    by destruct (hooks_startListening pf (startListeningCb (setIsAutoChat true s))
                   (setIsAutoChat true s)) as [-> _].
  - by destruct (hooks_stopListening (setIsAutoChat false s)) as [-> _].
Qed.

Lemma frame_runTimer pf t s : notSilence t -> frame (runTimer pf t s) = frame s.
Proof.
  intros Hn. destruct t as [sid|c|c|c|b c]; simpl; [done|..].
  - destruct (cap_isAutoChat c); [|done]. rewrite frame_startListening.
    destruct (recognitionRef s); [|done].
    eapply frame_calls; try reflexivity. simpl. repeat constructor.
  - destruct (cap_isAutoChat c); [|done]. apply frame_startListening.
  - apply frame_startListening.
  - destruct b; [|done]. apply frame_startListening.
Qed.

Lemma hooks_processAIResponse o t s :
  hooks (processAIResponse o t s).1 = hooks s /\
  isAutoChat (processAIResponse o t s).1 = isAutoChat s.
Proof. unfold processAIResponse. by destruct (negb _). Qed.

Lemma hooks_silenceCallback sid s :
  hooks (silenceCallback sid s) = hooks s /\
  isAutoChat (silenceCallback sid s) = isAutoChat s.
Proof.
  unfold silenceCallback, processAIResponse.
  destruct (sessions s !! sid) as [x|]; [|done].
  destruct (_ && _); [|done]. simpl. by destruct (negb _).
Qed.

Lemma hooks_runTimer pf t s :
  hooks (runTimer pf t s) = hooks s /\ isAutoChat (runTimer pf t s) = isAutoChat s.
Proof.
  destruct t as [sid|c|c|c|b c]; simpl.
  - apply hooks_silenceCallback.
  - destruct (cap_isAutoChat c); [|done].
    destruct (hooks_startListening pf c
                (match recognitionRef s with
                 | Some r => call (recognition_stop r) s
                 | None => s
                 end)) as [-> ->].
    by destruct (recognitionRef s).
  - destruct (cap_isAutoChat c); [|done]. apply hooks_startListening.
  - apply hooks_startListening.
  - destruct b; [|done]. apply hooks_startListening.
Qed.

Lemma hooks_onresult sid ev s :
  hooks (onresult sid ev s) = hooks s /\ isAutoChat (onresult sid ev s) = isAutoChat s.
Proof.
  unfold onresult. destruct (sessions s !! sid) as [x|]; [|done].
  destruct (scanResults _ _) as [final interim].
  destruct (silenceTimerRef s); destruct (truthy _); done.
Qed.

Lemma hooks_finish d o s :
  hooks (finish d o s) = hooks s /\ isAutoChat (finish d o s) = isAutoChat s.
Proof. by destruct o. Qed.

Lemma hooks_fetchSettled pf d o out s :
  hooks (fetchSettled pf d o out s) = hooks s /\
  isAutoChat (fetchSettled pf d o out s) = isAutoChat s.
Proof.
  unfold fetchSettled, speak, afterSpeak.
  destruct (aiTextOf out); [destruct (hasSpeechSynthesis pf)|]; by destruct o.
Qed.

(** No handler but [toggleAutoChat] changes [isAutoChat], and none changes
    what the render keeps. *)
Lemma handle_hooks pf e s h :
  handle pf e s = Some h ->
  hooks h = hooks s /\ (e <> ClickAutoChat -> isAutoChat h = isAutoChat s).
Proof.
  intros Hh.
  destruct e as [| |v| |i|sid ev|sid|sid e|d out|d]; simpl in Hh.
  - injection Hh as <-. split; [apply hooks_toggleAutoChat|done].
  - injection Hh as <-. split; [apply hooks_clickMic|intros _; apply hooks_clickMic].
  - destruct (_ || _); [done|]. by injection Hh as <-.
  - injection Hh as <-. unfold handleSubmit.
    destruct (_ || _); [done|].
    split; [apply hooks_processAIResponse|intros _; apply hooks_processAIResponse].
  - destruct (timers s !! i) as [t|]; [|done].
    destruct (_ && _); [|done]. injection Hh as <-.
    destruct (hooks_runTimer pf (task t) (clearTimeout i s)) as [-> ->]. done.
  - destruct (sessions s !! sid) as [x|]; [|done].
    destruct (started x); [|done]. injection Hh as <-.
    split; [apply hooks_onresult|intros _; apply hooks_onresult].
  - destruct (sessions s !! sid) as [x|]; [|done].
    destruct (started x); [|done]. injection Hh as <-.
    destruct (hooks_onend sid (updSession (set_started false) sid s)) as [-> ->]. done.
  - destruct (sessions s !! sid) as [x|]; [|done].
    destruct (started x); [|done]. injection Hh as <-.
    split; [apply hooks_onerror|intros _; apply hooks_onerror].
  - destruct (dispatches s !! d) as [x|]; [|done].
    destruct (phase x); try done. injection Hh as <-.
    split; [apply hooks_fetchSettled|intros _; apply hooks_fetchSettled].
  - destruct (dispatches s !! d) as [x|]; [|done].
    destruct (phase x); try done. injection Hh as <-.
    unfold afterSpeak. simpl.
    split; [apply hooks_finish|intros _; apply hooks_finish].
Qed.

(** ** What [startListening] keeps true *)

(** [Sound] reads four fields of the state. *)
Lemma Sound_same pf s s' :
  Sound pf s ->
  sessions s' = sessions s -> timers s' = timers s ->
  recognitionRef s' = recognitionRef s -> isListening s' = isListening s ->
  Sound pf s'.
Proof.
  intros [H1 H2 H3 H4 H5] Hs Ht Hr Hl.
  constructor; rewrite ?Hs, ?Ht, ?Hr, ?Hl; done.
Qed.

Lemma Sound_init pf : Sound pf init.
Proof. constructor; simpl; done. Qed.

Lemma Sound_clearTimeout pf i s : Sound pf s -> Sound pf (clearTimeout i s).
Proof.
  intros [H1 H2 H3 H4 H5]. constructor; simpl; try done.
  apply Forall_alter; done.
Qed.

Lemma Sound_setTimeout pf t d s :
  taskOk t -> Sound pf s -> Sound pf (setTimeout t d s).2.
Proof.
  intros Ht [H1 H2 H3 H4 H5]. constructor; simpl; try done.
  apply list.Forall_app. split; [done|]. by constructor.
Qed.

Lemma Sound_updSession pf f sid s :
  (forall x, closure (f x) = closure x) ->
  Sound pf s -> Sound pf (updSession f sid s).
Proof.
  intros Hf [H1 H2 H3 H4 H5]. constructor; simpl; try done.
  - apply Forall_alter; [done|]. intros x _. by rewrite Hf.
  - intros r Hr. rewrite length_alter. by apply H3.
  - intros Hp. by rewrite (H5 Hp).
Qed.

Lemma Sound_setIsListening_false pf s : Sound pf s -> Sound pf (setIsListening false s).
Proof. intros [H1 H2 H3 H4 H5]. constructor; simpl; done. Qed.

Lemma Sound_stopListening pf s : Sound pf s -> Sound pf (stopListening s).
Proof.
  intros [H1 H2 H3 H4 H5]. rewrite stopListening_run. constructor; simpl; try done.
  unfold clearSilenceTimer. destruct (silenceTimerRef s); [|done].
  simpl. apply Forall_alter; done.
Qed.

Lemma Sound_startListening pf c s : Sound pf s -> Sound pf (startListening pf c s).
Proof.
  intros HS. pose proof HS as [H1 H2 H3 H4 H5].
  destruct (cap_isAutoChat c) eqn:Hc; [|by rewrite startListening_guard].
  destruct (hasSpeechRecognition pf) eqn:Hp.
  - rewrite startListening_run by done. constructor; simpl.
    + apply list.Forall_app. split; [done|]. by constructor.
    + apply list.Forall_app. split; [done|].
      destruct (negb _); by repeat constructor.
    + intros r [= <-]. rewrite length_app. simpl. lia.
    + intros ->. apply andb_false_r.
    + congruence.
  - rewrite startListening_alert by done. constructor; simpl; try done; auto.
Qed.

Lemma Sound_processAIResponse pf o t s :
  Sound pf s -> Sound pf (processAIResponse o t s).1.
Proof.
  intros HS. unfold processAIResponse. destruct (negb _); [exact HS|].
  by apply (Sound_same pf _ _ HS).
Qed.

Lemma Sound_finish pf d o s : Sound pf s -> Sound pf (finish d o s).
Proof.
  intros HS. unfold finish, resume.
  destruct o as [sid|]; [apply Sound_updSession; [done|]|]; by apply (Sound_same pf _ _ HS).
Qed.

Lemma Sound_fetchSettled pf d o out s :
  Sound pf s -> Sound pf (fetchSettled pf d o out s).
Proof.
  intros HS. unfold fetchSettled, speak, afterSpeak. simpl.
  destruct (aiTextOf out); [destruct (hasSpeechSynthesis pf)|].
  - by apply (Sound_same pf _ _ HS).
  - apply Sound_finish. by apply (Sound_same pf _ _ HS).
  - apply Sound_finish. by apply (Sound_same pf _ _ HS).
Qed.

Lemma Sound_silenceCallback pf sid s : Sound pf s -> Sound pf (silenceCallback sid s).
Proof.
  intros HS. unfold silenceCallback.
  destruct (sessions s !! sid) as [x|]; [|done].
  destruct (_ && _); [|done].
  pose proof (Sound_processAIResponse pf (FromSilenceTimer sid) (finalTranscript x)
                (updSession (set_isProcessing true) sid s)
                (Sound_updSession pf (set_isProcessing true) sid s
                   (fun _ => eq_refl) HS)) as H.
  destruct (processAIResponse _ _ _) as [s1 [|d]]; simpl in H; [|done].
  by apply Sound_updSession.
Qed.

Lemma Sound_onresult pf sid ev s : Sound pf s -> Sound pf (onresult sid ev s).
Proof.
  intros HS. unfold onresult.
  destruct (sessions s !! sid) as [x|]; [|done].
  destruct (scanResults _ _) as [final interim].
  set (s1 := match silenceTimerRef s with Some t => clearTimeout t s | None => s end).
  assert (H1 : Sound pf s1).
  { subst s1. destruct (silenceTimerRef s); [by apply Sound_clearTimeout|done]. }
  clearbody s1.
  assert (H2 : Sound pf (setInput (js_or final interim)
                           (updSession (set_finalTranscript final) sid s1))).
  { pose proof (Sound_updSession pf (set_finalTranscript final) sid s1
                  (fun _ => eq_refl) H1) as H. by apply (Sound_same pf _ _ H). }
  destruct (truthy (trim final)); [|done].
  apply (Sound_setTimeout pf (SilenceTimer sid) 1000) in H2; [|done].
  by apply (Sound_same pf _ _ H2).
Qed.

Lemma Sound_onend pf sid s : Sound pf s -> Sound pf (onend sid s).
Proof.
  intros HS. unfold onend. destruct (sessions s !! sid) as [x|]; [|done].
  destruct (cap_isAutoChat (closure x)) eqn:Hc; simpl.
  - by apply Sound_setTimeout.
  - by apply Sound_setIsListening_false.
Qed.

Lemma Sound_onerror pf sid e s : Sound pf s -> Sound pf (onerror sid e s).
Proof.
  intros HS. unfold onerror. destruct (sessions s !! sid) as [x|]; [|done].
  apply Sound_setIsListening_false in HS.
  destruct (cap_isAutoChat (closure x)) eqn:Hc; simpl; [|done].
  destruct (nonFatal e); [|done].
  apply Sound_setTimeout; [done|].
  destruct (recognitionRef _); [|done]. by apply (Sound_same pf _ _ HS).
Qed.

Lemma Sound_runTimer pf t s : Sound pf s -> Sound pf (runTimer pf t s).
Proof.
  intros HS. destruct t as [sid|c|c|c|b c]; simpl.
  - by apply Sound_silenceCallback.
  - destruct (cap_isAutoChat c); [|done]. apply Sound_startListening.
    destruct (recognitionRef s); [|done]. by apply (Sound_same pf _ _ HS).
  - destruct (cap_isAutoChat c); [|done]. by apply Sound_startListening.
  - by apply Sound_startListening.
  - destruct b; [|done]. by apply Sound_startListening.
Qed.

Lemma Sound_toggleAutoChat pf s : Sound pf s -> Sound pf (toggleAutoChat pf s).
Proof.
  intros HS. unfold toggleAutoChat.
  destruct (negb (isAutoChat s)).
  - destruct (negb _); [apply Sound_startListening|]; by apply (Sound_same pf _ _ HS).
  - apply Sound_stopListening. by apply (Sound_same pf _ _ HS).
Qed.

Lemma Sound_clickMic pf s : Sound pf s -> Sound pf (clickMic pf s).
Proof.
  intros HS. unfold clickMic. destruct (isListening s).
  - by apply Sound_stopListening.
  - by apply Sound_startListening.
Qed.

Lemma handle_Sound pf e s h : Sound pf s -> handle pf e s = Some h -> Sound pf h.
Proof.
  intros HS Hh.
  destruct e as [| |v| |i|sid ev|sid|sid e|d out|d]; simpl in Hh.
  - injection Hh as <-. by apply Sound_toggleAutoChat.
  - injection Hh as <-. by apply Sound_clickMic.
  - destruct (_ || _); [done|]. injection Hh as <-. by apply (Sound_same pf _ _ HS).
  - injection Hh as <-. unfold handleSubmit.
    destruct (_ || _); [done|]. by apply Sound_processAIResponse.
  - destruct (timers s !! i) as [t|]; [|done].
    destruct (_ && _); [|done]. injection Hh as <-.
    by apply Sound_runTimer, Sound_clearTimeout.
  - destruct (sessions s !! sid) as [x|]; [|done].
    destruct (started x); [|done]. injection Hh as <-. by apply Sound_onresult.
  - destruct (sessions s !! sid) as [x|]; [|done].
    destruct (started x); [|done]. injection Hh as <-.
    by apply Sound_onend, Sound_updSession.
  - destruct (sessions s !! sid) as [x|]; [|done].
    destruct (started x); [|done]. injection Hh as <-. by apply Sound_onerror.
  - destruct (dispatches s !! d) as [x|]; [|done].
    destruct (phase x); try done. injection Hh as <-. by apply Sound_fetchSettled.
  - destruct (dispatches s !! d) as [x|]; [|done].
    destruct (phase x); try done. injection Hh as <-.
    unfold afterSpeak. simpl. by apply Sound_finish.
Qed.

Lemma render_Sound pf s : Sound pf s -> Sound pf (render s).
Proof.
  intros HS. unfold render. destruct (Bool.eqb _ _); [done|].
  set (c := {| cap_isAutoChat := isAutoChat s; cap_isLoading := isLoading s |}).
  set (s1 := set_startListeningCb c s).
  assert (H1 : Sound pf s1) by (by apply (Sound_same pf _ _ HS)).
  set (s2 := match autoChatEffect s1 with Some t => _ | None => s1 end).
  assert (H2 : Sound pf s2 /\ isAutoChat s2 = isAutoChat s).
  { subst s2. destruct (autoChatEffect s1) as [t|]; [|done].
    split; [by apply Sound_stopListening, Sound_clearTimeout|].
    by destruct (hooks_stopListening (clearTimeout t s1)) as [_ ->]. }
  destruct H2 as [H2 Ha]. clearbody s2.
  destruct (isAutoChat s2) eqn:Ha2.
  - apply (Sound_setTimeout pf (AutoChatTimer true c) 300) in H2; [|done].
    by apply (Sound_same pf _ _ H2).
  - apply Sound_stopListening in H2. by apply (Sound_same pf _ _ H2).
Qed.

Lemma reachable_Sound pf s : reachable pf s -> Sound pf s.
Proof.
  induction 1 as [|s now e s' _ IH Hs]; [apply Sound_init|].
  unfold step in Hs. destruct (clock s <=? now); [|done].
  destruct (handle pf e _) as [h|] eqn:Hh; [|done]. injection Hs as <-.
  apply render_Sound. eapply handle_Sound; [|exact Hh]. by apply (Sound_same pf _ _ IH).
Qed.

(** The effect of line 311 keeps a cleanup exactly while auto-chat is on. *)
Lemma render_EffectInv s : EffectInv s -> EffectInv (render s).
Proof.
  intros HE. unfold render. destruct (Bool.eqb _ _) eqn:E; [done|].
  set (c := {| cap_isAutoChat := isAutoChat s; cap_isLoading := isLoading s |}).
  set (s1 := set_startListeningCb c s).
  set (s2 := match autoChatEffect s1 with Some t => _ | None => s1 end).
  assert (H2 : isAutoChat s2 = isAutoChat s /\ startListeningCb s2 = c).
  { subst s2. destruct (autoChatEffect s1) as [t|]; [|done].
    by rewrite stopListening_run. }
  destruct H2 as [Ha Hcb]. clearbody s2.
  unfold EffectInv. destruct (isAutoChat s2) eqn:Ha2.
  - simpl. rewrite Hcb. simpl. rewrite <- Ha. done.
  - destruct (stopListening_effect s2) as (_ & _ & _ & _ & Hk).
    change (@None nat = None
            <-> cap_isAutoChat (startListeningCb (stopListening s2)) = false).
    rewrite Hk, Hcb. simpl. by rewrite <- Ha.
Qed.

Lemma reachable_EffectInv pf s : reachable pf s -> EffectInv s.
Proof.
  induction 1 as [|s now e s' _ IH Hs]; [done|].
  unfold step in Hs. destruct (clock s <=? now); [|done].
  destruct (handle pf e _) as [h|] eqn:Hh; [|done]. injection Hs as <-.
  apply render_EffectInv.
  destruct (handle_hooks pf e _ h Hh) as [Hk _].
  unfold hooks in Hk. simpl in Hk. injection Hk as Hcb He _.
  unfold EffectInv. by rewrite Hcb, He.
Qed.

(** ** The conversation, step by step *)

Lemma frame_Turn now s h : frame h = frame (set_clock now s) -> Turn now s h.
Proof.
  unfold frame. simpl. intros [= Hm _ Hl Hd _ Hf Hs]. by apply turn_none.
Qed.

Lemma frame_render s : frame (render s) = frame s.
Proof.
  unfold render. destruct (Bool.eqb _ _); [done|].
  set (c := {| cap_isAutoChat := isAutoChat s; cap_isLoading := isLoading s |}).
  set (s1 := set_startListeningCb c s).
  set (s2 := match autoChatEffect s1 with Some t => _ | None => s1 end).
  assert (H2 : frame s2 = frame s).
  { subst s2. destruct (autoChatEffect s1) as [t|]; [|done].
    by rewrite frame_stopListening. }
  clearbody s2. destruct (isAutoChat s2).
  - by rewrite <- H2.
  - rewrite <- H2. apply (frame_stopListening s2).
Qed.

(** What a handler does to the conversation. *)
Lemma handle_Turn pf e s h :
  handle pf e s = Some h -> Turn (clock s) s h.
Proof.
  intros Hh.
  assert (Hframe : forall h', frame h' = frame s -> Turn (clock s) s h').
  { unfold frame. intros h' [= Hm _ Hl Hd _ Hf Hs]. by apply turn_none. }
  destruct e as [| |v| |i|sid ev|sid|sid e|d out|d]; simpl in Hh.
  - injection Hh as <-. apply Hframe, frame_toggleAutoChat.
  - injection Hh as <-. apply Hframe, frame_clickMic.
  - destruct (_ || _); [done|]. injection Hh as <-. by apply turn_none.
  - injection Hh as <-. unfold handleSubmit.
    destruct (_ || _); [by apply Hframe|].
    unfold processAIResponse.
    destruct (truthy (trim (trim (input s)))) eqn:Ht; simpl; [|by apply Hframe].
    eapply turn_dispatch; try done.
    + intros _. apply trim_idem.
    + unfold fetches. simpl. by rewrite omap_app.
    + unfold spoken. simpl. rewrite omap_app. simpl. by rewrite app_nil_r.
  - destruct (timers s !! i) as [t|]; [|done].
    destruct (_ && _); [|done]. injection Hh as <-.
    destruct (task t) as [sid|c|c|c|b c] eqn:Et;
      [|apply Hframe; by rewrite frame_runTimer..].
    simpl. set (s1 := clearTimeout i s).
    destruct (sessions s1 !! sid) as [x|] eqn:Hx;
      [|unfold silenceCallback; rewrite Hx; by apply Hframe].
    destruct (truthy (trim (finalTranscript x))) eqn:Ht;
      [|rewrite (silenceCallback_dropped sid s1 x Hx) by (by right); by apply Hframe].
    destruct (isProcessing x) eqn:Hp;
      [rewrite (silenceCallback_dropped sid s1 x Hx) by (by left); by apply Hframe|].
    destruct (silenceCallback_dispatches sid s1 x Hx Ht Hp)
      as (Hd & Hc & Hm & _ & _ & Hl & _).
    eapply turn_dispatch; try done.
    + intros [=].
    + unfold fetches. rewrite Hc, omap_app. done.
    + unfold spoken. rewrite Hc, omap_app. simpl. by rewrite app_nil_r.
  - destruct (sessions s !! sid) as [x|] eqn:Hx; [|done].
    destruct (started x); [|done]. injection Hh as <-.
    destruct (onresult_effect sid ev s x Hx)
      as (_ & _ & _ & _ & Hm & Hd & Hc & _ & Hl & _).
    apply turn_none; try done; unfold fetches, spoken; by rewrite Hc.
  - destruct (sessions s !! sid) as [x|]; [|done].
    destruct (started x); [|done]. injection Hh as <-.
    apply Hframe. by rewrite frame_onend.
  - destruct (sessions s !! sid) as [x|]; [|done].
    destruct (started x); [|done]. injection Hh as <-.
    apply Hframe, frame_onerror.
  - destruct (dispatches s !! d) as [x|] eqn:Hx; [|done].
    destruct (phase x) eqn:Hp; try done. injection Hh as <-.
    assert (Hreply : replyText out = default errorText (aiTextOf out)) by done.
    unfold fetchSettled, speak, afterSpeak.
    destruct (aiTextOf out) as [t|] eqn:Ho; [destruct (hasSpeechSynthesis pf)|];
      simpl in *.
    + eapply (turn_reply _ _ _ d x out AwaitSpeak); try done.
      * simpl. by rewrite Hreply.
      * unfold fetches. simpl. rewrite !omap_app. simpl. by rewrite !app_nil_r.
      * left. split; [done|]. split; [|done].
        unfold spoken. simpl. rewrite !omap_app, Hreply. simpl.
        by rewrite <- app_assoc.
    + set (s1 := set_messages _ s).
      destruct (finish_effect d (origin x) s1) as (Hm & Hc & _ & Hl & Hd & _).
      eapply (turn_reply _ _ _ d x out Settled); try done.
      * by rewrite Hm, Hreply.
      * unfold fetches. by rewrite Hc.
      * right. split; [done|]. split; [|done]. unfold spoken. by rewrite Hc.
    + set (s1 := set_messages _ s).
      destruct (finish_effect d (origin x) s1) as (Hm & Hc & _ & Hl & Hd & _).
      eapply (turn_reply _ _ _ d x out Settled); try done.
      * by rewrite Hm, Hreply.
      * unfold fetches. by rewrite Hc.
      * right. split; [done|]. split; [|done]. unfold spoken. by rewrite Hc.
  - destruct (dispatches s !! d) as [x|] eqn:Hx; [|done].
    destruct (phase x) eqn:Hp; try done. injection Hh as <-.
    unfold afterSpeak. simpl.
    destruct (finish_effect d (origin x) s) as (Hm & Hc & _ & Hl & Hd & _).
    eapply turn_settle; try done; unfold fetches, spoken; by rewrite Hc.
Qed.

(** Every step is a turn, and the clock is the time of the step. *)
Lemma step_Turn pf now e s s' :
  step pf now e s = Some s' -> Turn now s s' /\ clock s' = now /\ clock s <= now.
Proof.
  intros Hs. unfold step in Hs.
  destruct (Z.leb_spec (clock s) now) as [Hle|]; [|done].
  destruct (handle pf e _) as [h|] eqn:Hh; [|done]. injection Hs as <-.
  pose proof (frame_render h) as Hf. unfold frame in Hf.
  injection Hf as Hm _ Hl Hd Hc Hfe Hsp.
  destruct (handle_hooks pf e _ h Hh) as [[= _ _ Hck] _]. simpl in Hck.
  split; [|split; [congruence|done]].
  destruct (handle_Turn pf e _ h Hh)
    as [Em Ed Ef Es El|t o Ht Ho Em Ed Ef Es El|d x out p Hx Hp Em Ed Ef Hor
       |d x Hx Hp Em Ed Ef Es El]; simpl in *;
    change (fetches (set_clock now s)) with (fetches s) in *;
    change (spoken (set_clock now s)) with (spoken s) in *.
  - apply turn_none; congruence.
  - eapply turn_dispatch; try done; congruence.
  - eapply (turn_reply _ _ _ d x out p); try done; try congruence.
    all: try (destruct Hor as [(-> & E1 & E2)|(-> & E1 & E2)]; [left|right];
      (split; [done|]); split; congruence).
  - eapply turn_settle; try done; congruence.
Qed.

(** ** The conversation on record *)

Lemma sent_alter p d (l : list Dispatch) :
  sent <$> alter (set_phase p) d l = sent <$> l.
Proof.
  rewrite (list_fmap_alter sent _ (fun t => t)) by (by apply Forall_true).
  by apply list_alter_id.
Qed.

Lemma textsOf_snoc who s s' now who' t :
  messages s' = messages s ++ [mkMessage now who' t] ->
  textsOf who s' = textsOf who s
                     ++ match who', who with
                        | user, user | ai, ai => [t]
                        | _, _ => []
                        end.
Proof.
  intros Hm. unfold textsOf. rewrite Hm, List.filter_app, fmap_app. simpl.
  by destruct who', who.
Qed.

Lemma textsOf_same who s s' : messages s' = messages s -> textsOf who s' = textsOf who s.
Proof. intros Hm. unfold textsOf. by rewrite Hm. Qed.

Lemma unsettled_alter p d (l : list Dispatch) d' x :
  p <> Settled -> l !! d' = Some x -> phase x <> Settled ->
  exists x', alter (set_phase p) d l !! d' = Some x' /\ phase x' <> Settled.
Proof.
  intros Hp Hx Hne. destruct (decide (d = d')) as [->|Hd].
  - exists (set_phase p x). by rewrite list_lookup_alter_eq, Hx.
  - exists x. by rewrite list_lookup_alter_ne.
Qed.

(** A turn keeps the ledger. *)
Lemma Turn_Ledger now s s' : Ledger s -> Turn now s s' -> Ledger s'.
Proof.
  intros [Lu Lf Ls La Lp Ll]
    [Em Ed Ef Es El|t o Ht Ho Em Ed Ef Es El|d x out p Hx Hp Em Ed Ef Hor
    |d x Hx Hp Em Ed Ef Es El].
  - constructor; rewrite ?Ed, ?Ef, ?Es, ?El, ?(textsOf_same _ s s' Em); done.
  - constructor; try done;
      rewrite ?Ed, ?Ef, ?Es, ?(textsOf_snoc _ s s' now user t Em), ?fmap_app; simpl.
    + by rewrite Lu.
    + by rewrite Lf.
    + apply list.Forall_app. split; [done|]. by repeat constructor.
    + rewrite app_nil_r, List.filter_app, length_app. simpl. lia.
    + by rewrite app_nil_r.
    + intros _. exists (length (dispatches s)), {| sent := t; origin := o; phase := AwaitFetch |}.
      split; [by apply list_lookup_middle|done].
  - assert (Hans : length (List.filter answered (alter (set_phase p) d (dispatches s)))
                   = S (length (List.filter answered (dispatches s)))).
    { pose proof (filter_length_alter answered (set_phase p) _ d x Hx) as E.
      assert (A1 : answered x = false) by (unfold answered; by rewrite Hp).
      assert (A2 : answered (set_phase p x) = true)
        by (destruct Hor as [(-> & _)|(-> & _)]; done).
      rewrite A1, A2 in E. simpl in E. lia. }
    constructor; try done;
      rewrite ?Ed, ?Ef, ?(textsOf_snoc _ s s' now ai _ Em), ?sent_alter; simpl.
    + by rewrite app_nil_r.
    + done.
    + apply Forall_alter; [done|]. intros y _ H. exact H.
    + rewrite length_app, Hans. simpl. lia.
    + destruct Hor as [(_ & -> & _)|(_ & -> & _)].
      * by apply sublist_app.
      * by apply sublist_inserts_r.
    + destruct Hor as [(-> & _ & El)|(_ & _ & El)]; [|congruence].
      rewrite El. intros H. destruct (Ll H) as (d' & y & Hy & Hne).
      destruct (unsettled_alter AwaitSpeak d (dispatches s) d' y) as (y' & ? & ?);
        eauto.
  - constructor; rewrite ?Ed, ?Ef, ?Es, ?(textsOf_same _ s s' Em), ?sent_alter; try done.
    + apply Forall_alter; [done|]. intros y _ H. exact H.
    + pose proof (filter_length_alter answered (set_phase Settled) _ d x Hx) as E.
      assert (A1 : answered x = true) by (unfold answered; by rewrite Hp).
      rewrite A1 in E. simpl in E. lia.
    + congruence.
Qed.

Lemma Ledger_init : Ledger init.
Proof.
  constructor; try done; simpl; try constructor.
Qed.

Lemma reachable_Ledger pf s : reachable pf s -> Ledger s.
Proof.
  induction 1 as [|s now e s' _ IH Hs]; [apply Ledger_init|].
  destruct (step_Turn pf now e s s' Hs) as (HT & _ & _).
  by eapply Turn_Ledger.
Qed.

(** ** Capture, step by step *)

Lemma stored_cores sid s : stored sid s = default [] (fst <$> cores s !! sid).
Proof.
  unfold stored, cores. rewrite list_lookup_fmap.
  by destruct (sessions s !! sid).
Qed.

Lemma stored_lookup sid s x : sessions s !! sid = Some x -> stored sid s = finalTranscript x.
Proof. intros H. unfold stored. by rewrite H. Qed.

Lemma control_stored s s' sid : control s s' -> stored sid s' = stored sid s.
Proof.
  intros [_ _ (l & Hc & Hl) _ _]. rewrite !stored_cores, Hc.
  destruct (decide (sid < length (cores s))%nat) as [Hlt|Hge].
  - by rewrite lookup_app_l.
  - rewrite lookup_app_r by lia. rewrite (lookup_ge_None_2 (cores s)) by lia.
    destruct (l !! _) as [p|] eqn:Hp; [|done].
    rewrite Forall_lookup in Hl. by rewrite (Hl _ _ Hp).
Qed.

Lemma control_dispatchedBy s s' sid : control s s' -> dispatchedBy sid s' = dispatchedBy sid s.
Proof. intros [_ Hd _ _ _]. unfold dispatchedBy. by rewrite Hd. Qed.

Lemma control_Capture e s s' : control s s' -> Capture e s s'.
Proof.
  intros H. apply capture_none.
  - intros sid. by apply control_stored.
  - by destruct H.
  - intros sid. by apply control_dispatchedBy.
Qed.

Lemma Capture_control e s h s' : Capture e s h -> control h s' -> Capture e s s'.
Proof.
  intros HC H.
  pose proof (fun sid => control_stored h s' sid H) as Hst.
  pose proof (fun sid => control_dispatchedBy h s' sid H) as Hd.
  pose proof (control_live h s' H) as Hl.
  destruct HC as [H1 H2 H3|sid ev He H1 H1' H2 H3|i sid He Hi H1 H2 H3 H4].
  - apply capture_none.
    + intros sid. by rewrite Hst.
    + intros i sid Hi. by apply H2, Hl.
    + intros sid. by rewrite Hd.
  - eapply capture_result; [done| | | |].
    + by rewrite Hst.
    + intros sid' Hne. rewrite Hst. by apply H1'.
    + intros i sid' Hi. rewrite Hst. by apply H2, Hl.
    + intros sid'. by rewrite Hd.
  - eapply capture_fire; [done|done| | | |].
    + intros sid'. by rewrite Hst.
    + intros j sid' Hj. by apply (H2 j sid'), Hl.
    + intros sid' Hne. rewrite Hd. by apply H3.
    + by rewrite Hd.
Qed.

Lemma fromSession_alter sid p d (l : list Dispatch) :
  length (List.filter (fromSession sid) (alter (set_phase p) d l))
  = length (List.filter (fromSession sid) l).
Proof.
  destruct (l !! d) as [y|] eqn:Hy.
  - pose proof (filter_length_alter (fromSession sid) (set_phase p) l d y Hy) as E.
    change (fromSession sid (set_phase p y)) with (fromSession sid y) in E. lia.
  - f_equal. f_equal. apply list_eq. intros j.
    destruct (decide (d = j)) as [->|Hne].
    + by rewrite list_lookup_alter_eq, Hy.
    + by rewrite list_lookup_alter_ne.
Qed.

(** The handlers that complete a dispatch. *)
Lemma finish_Capture e d o s s0 :
  (forall sid, stored sid s = stored sid s0) ->
  timers s = timers s0 ->
  (forall sid, dispatchedBy sid s = dispatchedBy sid s0) ->
  Capture e s0 (finish d o s).
Proof.
  intros Hst Ht Hd.
  destruct (finish_effect d o s) as (_ & _ & Hti & _ & Hdi & Hs & _).
  apply capture_none.
  - intros sid. rewrite <- Hst. unfold stored. rewrite Hs.
    destruct o as [sid0|]; simpl; [|done].
    destruct (decide (sid0 = sid)) as [->|Hne].
    + rewrite list_lookup_alter_eq. by destruct (sessions s !! sid).
    + by rewrite list_lookup_alter_ne.
  - intros i sid. unfold silences. by rewrite Hti, Ht.
  - intros sid. rewrite <- Hd. unfold dispatchedBy. rewrite Hdi. apply fromSession_alter.
Qed.

Lemma fetchSettled_Capture pf e d o out s : Capture e s (fetchSettled pf d o out s).
Proof.
  unfold fetchSettled, speak, afterSpeak.
  destruct (aiTextOf out) as [t|]; [destruct (hasSpeechSynthesis pf)|]; simpl.
  - apply capture_none; try done.
    intros sid. unfold dispatchedBy. simpl. apply fromSession_alter.
  - by apply finish_Capture.
  - by apply finish_Capture.
Qed.

Lemma silences_fired i s t sid :
  TimerInv s -> timers s !! i = Some t -> pending t = true -> task t = SilenceTimer sid ->
  silences s !! i = Some (Some sid) /\
  forall j sid', silences (clearTimeout i s) !! j <> Some (Some sid').
Proof.
  intros HT Hi Hp Ht.
  assert (Hl : silences s !! i = Some (Some sid)).
  { unfold silences. rewrite list_lookup_fmap, Hi. simpl. unfold live. by rewrite Hp, Ht. }
  split; [done|]. intros j sid' Hj. rewrite silences_clear in Hj.
  destruct (decide (i = j)) as [->|Hne].
  - rewrite list_lookup_alter_eq in Hj. by destruct (silences s !! j).
  - rewrite list_lookup_alter_ne in Hj by done.
    destruct (HT i sid Hl) as [E1 _]. destruct (HT j sid' Hj) as [E2 _]. congruence.
Qed.

Lemma handle_Capture pf e s h :
  Inv s -> handle pf e s = Some h -> Capture e s h.
Proof.
  intros HI Hh. pose proof HI as [HT HD].
  destruct e as [| |v| |i|sid ev|sid|sid e|d out|d]; simpl in Hh.
  - injection Hh as <-. apply control_Capture, control_toggleAutoChat; [done|apply control_refl].
  - injection Hh as <-. apply control_Capture, control_clickMic; [done|apply control_refl].
  - destruct (_ || _); [done|]. injection Hh as <-.
    apply control_Capture, control_setInput, control_refl.
  - injection Hh as <-. unfold handleSubmit.
    destruct (_ || _); [apply control_Capture, control_refl|].
    unfold processAIResponse. destruct (negb _); simpl; [apply control_Capture, control_refl|].
    apply capture_none; try done.
    intros sid. unfold dispatchedBy. simpl. rewrite filter_length_snoc. simpl. lia.
  - destruct (timers s !! i) as [t|] eqn:Hi; [|done].
    destruct (pending t) eqn:Hp; [|done]. simpl in Hh.
    destruct (due t <=? clock s); [|done]. injection Hh as <-.
    assert (H1 : control s (clearTimeout i s)) by apply control_clearTimeout, control_refl.
    destruct (task t) as [sid|c|c|c|b c] eqn:Et;
      [|by apply control_Capture, control_runTimer..].
    simpl. destruct (silences_fired i s t sid HT Hi Hp Et) as [Hl Hq].
    set (s1 := clearTimeout i s) in *.
    assert (Hdrop : Capture (TimerFires i) s s1).
    { apply (capture_fire _ _ _ i sid); [done|exact Hl|intros; reflexivity|exact Hq|intros; reflexivity|].
      exact (Nat.le_succ_diag_r (dispatchedBy sid s)). }
    destruct (sessions s1 !! sid) as [x|] eqn:Hx;
      [|unfold silenceCallback; by rewrite Hx].
    destruct (truthy (trim (finalTranscript x))) eqn:Htr;
      [|by rewrite (silenceCallback_dropped sid s1 x Hx) by (by right)].
    destruct (isProcessing x) eqn:Hpx;
      [by rewrite (silenceCallback_dropped sid s1 x Hx) by (by left)|].
    destruct (silenceCallback_dispatches sid s1 x Hx Htr Hpx)
      as (Hd & _ & _ & Hs & Hti & _).
    apply (capture_fire _ _ _ i sid); [done|exact Hl|..].
    + intros sid'. unfold stored. rewrite Hs.
      destruct (decide (sid = sid')) as [->|Hne].
      * rewrite list_lookup_alter_eq. change (sessions s1) with (sessions s).
        by destruct (sessions s !! sid').
      * by rewrite list_lookup_alter_ne.
    + intros j sid'. unfold silences. rewrite Hti. apply Hq.
    + intros sid' Hne. unfold dispatchedBy. rewrite Hd, filter_length_snoc.
      unfold fromSession at 2. simpl.
      destruct (Nat.eqb_spec sid' sid); [done|]. simpl.
      change (dispatches s1) with (dispatches s). lia.
    + unfold dispatchedBy. rewrite Hd, filter_length_snoc.
      change (dispatches s1) with (dispatches s).
      destruct (fromSession sid (dispatchOf sid x)); simpl; lia.
  - destruct (sessions s !! sid) as [x|] eqn:Hx; [|done].
    destruct (started x); [|done]. injection Hh as <-.
    destruct (onresult_effect sid ev s x Hx) as (Hs & _ & Hti & _ & _ & Hd & _).
    assert (Hst : stored sid (onresult sid ev s)
                  = default (stored sid s) (transcript <$> lastFinal ev)).
    { unfold stored. by rewrite Hs, list_lookup_alter_eq, Hx. }
    eapply capture_result; try done.
    + intros sid' Hne. unfold stored. by rewrite Hs, list_lookup_alter_ne.
    + intros i sid' Hi. unfold silences in Hi. rewrite Hti, fmap_app in Hi.
      apply lookup_app_Some in Hi as [Hi|[Hlen Hi]];
        [by destruct (clearSilenceTimer_quiet s HT i sid')|].
      rewrite length_fmap, clearSilenceTimer_length in Hlen, Hi.
      rewrite Hst. rewrite (stored_lookup sid s x Hx).
      destruct (truthy (trim _)) eqn:Hf; [|by destruct (i - _)%nat].
      destruct (i - length (timers s))%nat eqn:E; [|by destruct n].
      simpl in Hi. injection Hi as <-. split; [done|]. split; [lia|done].
    + intros sid'. unfold dispatchedBy. by rewrite Hd.
  - destruct (sessions s !! sid) as [x|]; [|done].
    destruct (started x); [|done]. injection Hh as <-.
    apply control_Capture, control_onend, control_updSession; [done|apply control_refl].
  - destruct (sessions s !! sid) as [x|]; [|done].
    destruct (started x); [|done]. injection Hh as <-.
    apply control_Capture, control_onerror, control_refl.
  - destruct (dispatches s !! d) as [x|] eqn:Hx; [|done].
    destruct (phase x) eqn:Hp; try done. injection Hh as <-.
    apply fetchSettled_Capture.
  - destruct (dispatches s !! d) as [x|] eqn:Hx; [|done].
    destruct (phase x) eqn:Hp; try done. injection Hh as <-.
    unfold afterSpeak. simpl. by apply finish_Capture.
Qed.

Lemma step_Capture pf now e s s' :
  reachable pf s -> step pf now e s = Some s' -> Capture e s s'.
Proof.
  intros Hr Hs. apply reachable_Inv in Hr as HI.
  unfold step in Hs. destruct (clock s <=? now); [|done].
  destruct (handle pf e _) as [h|] eqn:Hh; [|done]. injection Hs as <-.
  assert (H1 : Inv (set_clock now s)).
  { eapply Inv_control; [done|]. apply control_set_clock, control_refl. }
  pose proof (handle_Inv pf e _ h H1 Hh) as [HT2 _].
  pose proof (handle_Capture pf e _ h H1 Hh) as HC.
  eapply Capture_control; [|apply (control_render h HT2 h (control_refl h))].
  destruct HC as [H2 H3 H4|sid ev He H2 H2' H3 H4|i sid He Hi H2 H3 H4 H5].
  - by apply capture_none.
  - by eapply capture_result.
  - by eapply capture_fire.
Qed.

(** ** Runs with recognition objects that are not continuous *)

Lemma hasFinal_stored ev :
  default [] (transcript <$> lastFinal ev) <> [] -> hasFinal ev = true.
Proof. unfold hasFinal. by destruct (lastFinal ev). Qed.

Lemma Fresh_head now sid ev es s :
  Fresh ((now, RecognitionResult sid ev) :: es) s -> stored sid s = [].
Proof.
  intros HF. destruct (stored sid s) as [|c u] eqn:E; [done|].
  assert (H : silentFor sid ((now, RecognitionResult sid ev) :: es) = true)
    by (apply HF; by rewrite E).
  simpl in H. by rewrite Nat.eqb_refl in H.
Qed.

Lemma Fresh_tail p es s : Fresh (p :: es) s -> Fresh es s.
Proof.
  intros HF sid Hs. specialize (HF sid Hs). simpl in HF.
  by apply andb_prop in HF as [_ HF].
Qed.

Lemma step_Fresh pf now e es s s' :
  reachable pf s -> Fresh ((now, e) :: es) s -> nonContinuous ((now, e) :: es) = true ->
  step pf now e s = Some s' -> Fresh es s'.
Proof.
  intros Hr HF Hn Hs.
  destruct (step_Capture pf now e s s' Hr Hs)
    as [H1 _ _|sid ev -> H1 H1' _ _|i sid _ _ H1 _ _ _].
  - intros sid. rewrite H1. intros H. by eapply Fresh_tail.
  - pose proof (Fresh_head now sid ev es s HF) as E0.
    intros sid' Hs'. destruct (decide (sid' = sid)) as [->|Hne].
    + rewrite H1, E0 in Hs'. apply (hasFinal_stored ev) in Hs'.
      simpl in Hn. rewrite Hs' in Hn. simpl in Hn.
      by apply andb_prop in Hn as [Hn _].
    + rewrite H1' in Hs' by done. by eapply Fresh_tail.
  - intros sid'. rewrite H1. intros H. by eapply Fresh_tail.
Qed.

Lemma Once_init : Once init.
Proof.
  constructor.
  - intros sid. unfold dispatchedBy. simpl. lia.
  - intros i sid H. by destruct i.
  - done.
Qed.

Lemma pending_stored pf s i sid :
  reachable pf s -> silences s !! i = Some (Some sid) -> truthy (trim (stored sid s)) = true.
Proof.
  intros Hr Hi. destruct (reachable_Inv pf s Hr) as [HT _].
  destruct (HT i sid Hi) as (_ & p & Hp & Ht).
  by rewrite stored_cores, Hp.
Qed.

Lemma step_Once pf now e es s s' :
  reachable pf s -> Once s -> Fresh ((now, e) :: es) s ->
  step pf now e s = Some s' -> Once s'.
Proof.
  intros Hr [O1 O2 O3] HF Hs.
  destruct (step_Capture pf now e s s' Hr Hs)
    as [H1 H2 H3|sid ev -> H1 H1' H2 H3|i sid _ Hi H1 H2 H3 H4].
  - constructor.
    + intros sid. by rewrite H3.
    + intros i sid Hi. rewrite H3. by eapply O2, H2.
    + intros sid. rewrite H1, H3. apply O3.
  - pose proof (Fresh_head now sid ev es s HF) as E0.
    constructor.
    + intros sid'. by rewrite H3.
    + intros i sid' Hi. destruct (H2 i sid' Hi) as (-> & _). rewrite H3. by apply O3.
    + intros sid' Hs'. rewrite H3. destruct (decide (sid' = sid)) as [->|Hne].
      * by apply O3.
      * apply O3. by rewrite <- H1'.
  - pose proof (O2 i sid Hi) as E0.
    constructor.
    + intros sid'. destruct (decide (sid' = sid)) as [->|Hne]; [lia|].
      rewrite H3 by done. apply O1.
    + intros j sid' Hj. by destruct (H2 j sid').
    + intros sid' Hs'. rewrite H1 in Hs'.
      destruct (decide (sid' = sid)) as [->|Hne].
      * pose proof (pending_stored pf s i sid Hr Hi) as Ht. by rewrite Hs' in Ht.
      * rewrite H3 by done. by apply O3.
Qed.

Lemma run_Once pf es1 : forall es2 s s',
  reachable pf s -> Once s -> Fresh (es1 ++ es2) s -> nonContinuous (es1 ++ es2) = true ->
  run pf es1 s = Some s' ->
  Once s' /\ Fresh es2 s' /\ nonContinuous es2 = true.
Proof.
  induction es1 as [|[now e] es1 IH]; simpl; intros es2 s s' Hr HO HF Hn Hrun.
  - by injection Hrun as <-.
  - destruct (step pf now e s) as [s1|] eqn:Hs; [|done].
    apply (IH es2 s1 s'); [by eapply reachable_step|by eapply step_Once
                          |by eapply step_Fresh| |done].
    by apply andb_prop in Hn as [_ Hn].
Qed.

Lemma Fresh_init es : Fresh es init.
Proof. intros sid H. by destruct sid. Qed.

(** The states of a run from [init] with recognition objects that are not
    continuous. *)
Lemma nonContinuous_Once pf es1 es2 s :
  run pf es1 init = Some s -> nonContinuous (es1 ++ es2) = true ->
  Once s /\ Fresh es2 s.
Proof.
  intros Hrun Hn.
  destruct (run_Once pf es1 es2 init s (reachable_init pf) Once_init
              (Fresh_init _) Hn Hrun) as (H1 & H2 & _).
  done.
Qed.

Lemma inFlightFrom_dispatchedBy sid s : (inFlightFrom sid s <= dispatchedBy sid s)%nat.
Proof.
  unfold inFlightFrom, dispatchedBy.
  induction (dispatches s) as [|x l IH]; simpl; [done|].
  assert (H : unsettledFrom sid x = true -> fromSession sid x = true).
  { unfold unsettledFrom, fromSession. destruct (phase x), (origin x); done. }
  destruct (unsettledFrom sid x).
  - rewrite (H eq_refl). simpl. lia.
  - destruct (fromSession sid x); simpl; lia.
Qed.

(** * The claims *)

(** ** The scenario states are reachable *)

Example switchOn_listens :
  isAutoChat listening = true /\ recognitionRef listening = Some 0%nat /\
  sessions listening
    = [{| closure := autoChatClosure; finalTranscript := [];
          isProcessing := false; started := true |}] /\
  calls listening = [recognition_start 0%nat; recognition_start 0%nat].
Proof. repeat split. Qed.

Lemma listening_reachable : reachable chrome listening.
Proof.
  apply (run_reachable chrome switchOn init); [constructor|].
  vm_compute; reflexivity.
Qed.

Lemma heard_reachable : reachable chrome heard.
Proof.
  apply (run_reachable chrome heardHello init); [constructor|].
  vm_compute; reflexivity.
Qed.

Lemma sending_reachable : reachable chrome sending.
Proof.
  apply (run_reachable chrome sentHello init); [constructor|].
  vm_compute; reflexivity.
Qed.

Lemma off_reachable : reachable chrome off.
Proof.
  apply (run_reachable chrome switchedOff init); [constructor|].
  vm_compute; reflexivity.
Qed.

(** ** C1: switching auto-chat off *)

(** Switching auto-chat off, in any reachable state: [isListening] is false
    at once, the recognition object is dropped and no silence timer stays
    pending. *)
Lemma switch_off_stops_listening pf s now :
  reachable pf s -> isAutoChat s = true -> clock s <= now ->
  exists s',
    step pf now ClickAutoChat s = Some s' /\
    isAutoChat s' = false /\ isListening s' = false /\ recognitionRef s' = None /\
    silenceTimerRef s' = None /\
    forall i sid, silences s' !! i <> Some (Some sid).
Proof.
  intros Hr Ha Hle. eexists. split.
  { unfold step. destruct (Z.leb_spec (clock s) now); [|lia]. simpl. reflexivity. }
  pose proof (reachable_Inv pf s Hr) as [HT _].
  pose proof (reachable_consistent pf s Hr) as Hc. unfold consistent in Hc.
  set (s1 := toggleAutoChat pf (set_clock now s)).
  assert (H1 : control s s1).
  { apply control_toggleAutoChat; [done|]. apply control_set_clock, control_refl. }
  assert (E1 : s1 = stopListening (setIsAutoChat false (set_clock now s))).
  { unfold s1, toggleAutoChat. simpl. by rewrite Ha. }
  destruct (stopListening_effect (setIsAutoChat false (set_clock now s)))
    as (_ & _ & _ & Ha1 & Hcb1).
  rewrite <- E1 in Ha1, Hcb1. simpl in Ha1, Hcb1.
  assert (Hcb : cap_isAutoChat (startListeningCb s1) = true) by congruence.
  destruct (render_switch_off s1 Hcb Ha1) as [-> Ha2].
  set (u1 := set_startListeningCb _ s1) in *.
  set (u2 := match autoChatEffect u1 with Some t => _ | None => u1 end) in *.
  assert (H2 : control s u2).
  { assert (Hu1 : control s u1) by (by apply control_set_startListeningCb).
    subst u2. destruct (autoChatEffect u1); [|done].
    apply control_stopListening; [done|]. by apply control_clearTimeout. }
  destruct (stopListening_effect u2) as (Hl & Hrr & Hsr & Haa & _).
  split; [|split; [exact Hl|split; [exact Hrr|split; [exact Hsr|]]]].
  - change (isAutoChat (stopListening u2) = false). by rewrite Haa.
  - intros i sid. apply (stopListening_quiet u2). by eapply control_TimerInv.
Qed.

(** A restart timeout that [onend] set fires, in any reachable state of a
    browser with speech recognition: the check of line 207 and the guard of
    line 128 read the closure's [isAutoChat], so a new recognition object
    is created whether [isAutoChat] is true or false by now. *)
Lemma restart_timer_ignores_isAutoChat pf s now i t c :
  reachable pf s ->
  timers s !! i = Some t -> pending t = true -> task t = RestartTimer c ->
  due t <= now -> clock s <= now ->
  cap_isAutoChat c = true -> hasSpeechRecognition pf = true ->
  exists s',
    step pf now (TimerFires i) s = Some s' /\
    recognitionRef s' = Some (length (sessions s)) /\
    length (sessions s') = S (length (sessions s)) /\
    isAutoChat s' = isAutoChat s.
Proof.
  intros Hr Hi Hp Ht Hdue Hclock Hc Hrec.
  set (s1 := clearTimeout i (set_clock now s)).
  set (s2 := match recognitionRef s1 with
             | Some r => call (recognition_stop r) s1
             | None => s1
             end).
  assert (H2 : sessions s2 = sessions s /\ isAutoChat s2 = isAutoChat s /\
               startListeningCb s2 = startListeningCb s).
  { subst s2. by destruct (recognitionRef s1). }
  destruct H2 as (Hs2 & Ha2 & Hcb2).
  destruct (startListening_opens pf c s2 Hc Hrec) as (Hr' & Hl' & Ha' & Hcb').
  exists (startListening pf c s2). split.
  - apply step_no_render; try congruence.
    simpl. rewrite Hi, Hp. simpl.
    destruct (Z.leb_spec (due t) now); [|lia]. rewrite Ht. simpl. by rewrite Hc.
  - rewrite Hr', Hl', Ha', Hs2, Ha2. done.
Qed.

(** C1, on the code: switching auto-chat off makes [isListening] false and
    drops the recognition object at once, but the restart timeout that
    [onend] set before is still pending, and when it fires, lines 207 and
    128 read the [isAutoChat] of the render that created the closure
    ([true]), not the current one ([false]): [startListening] creates and
    starts session 1. *)
Theorem restart_fires_after_switch_off :
  exists s s',
    run chrome switchedOff init = Some s /\
    isAutoChat s = false /\ isListening s = false /\ recognitionRef s = None /\
    timers s !! 1%nat
      = Some {| task := RestartTimer autoChatClosure; due := 2300; pending := true |} /\
    step chrome 2300 (TimerFires 1%nat) s = Some s' /\
    isAutoChat s' = false /\ recognitionRef s' = Some 1%nat /\
    started <$> sessions s' !! 1%nat = Some true /\
    calls s' = calls s ++ [recognition_start 1%nat; recognition_start 1%nat].
Proof.
  eexists _, _. split; [vm_compute; reflexivity|].
  repeat (split; [vm_compute; reflexivity|]). vm_compute; reflexivity.
Qed.

(** The same without a restart pending beforehand: [stopListening] stops
    session 0, the browser delivers its [end], and the handler of the old
    closure sets the restart timeout only then. *)
Example restart_scheduled_after_switch_off :
  exists s,
    run chrome (switchOn ++ [(2000, ClickAutoChat); (2010, RecognitionEnd 0%nat);
                             (2310, TimerFires 1%nat)]) init = Some s /\
    isAutoChat s = false /\ recognitionRef s = Some 1%nat /\
    started <$> sessions s !! 1%nat = Some true.
Proof.
  eexists. split; [vm_compute; reflexivity|].
  repeat (split; [vm_compute; reflexivity|]). vm_compute; reflexivity.
Qed.

(** ** C2: the stored final transcript and its dispatch *)

(** C2, as stated, fails: nothing clears the stored final transcript.
    Session 0 hears "hello" and ends, session 1 takes over, and the silence
    timer of session 0 dispatches "hello": session 0 stores "hello" after
    the dispatch as before, and still does when the reply has arrived and
    has been spoken. No recognition object of the run receives a result
    after its final one. *)
Lemma dispatched_transcript_stays_stored :
  nonContinuous (dispatchedHello
                   ++ [(2500, FetchSettles 0%nat (plainReply "hi"));
                       (3000, SpeechEnds 0%nat)]) = true /\
  exists s1 s2,
    run chrome dispatchedHello init = Some s1 /\
    dispatches s1 = [{| sent := str "hello"; origin := FromSilenceTimer 0;
                        phase := AwaitFetch |}] /\
    finalTranscript <$> sessions s1 = [str "hello"; []] /\
    run chrome [(2500, FetchSettles 0%nat (plainReply "hi"));
                (3000, SpeechEnds 0%nat)] s1 = Some s2 /\
    phase <$> dispatches s2 = [Settled] /\
    finalTranscript <$> sessions s2 = [str "hello"; []].
Proof.
  split; [vm_compute; reflexivity|].
  eexists _, _. split; [vm_compute; reflexivity|].
  repeat (split; [vm_compute; reflexivity|]). vm_compute; reflexivity.
Qed.

(** C2, amended: in a run in which no recognition object receives a result
    after its final one (line 153), the silence timers of a capture session
    dispatch at most once. When a pending silence timer of a session is due
    and fires, the session stores a final transcript that is not empty and
    has not dispatched before; the fire dispatches the stored text and sets
    [isProcessing], and the stored text stays as it is. No step of such a
    run changes a final transcript once it is stored: nothing clears it,
    and what keeps an utterance from being dispatched twice is that its
    session hears nothing after it, so that no second silence timer is
    set. *)
Theorem final_transcript_dispatched_once pf es s :
  nonContinuous es = true -> run pf es init = Some s ->
  (forall sid, (dispatchedBy sid s <= 1)%nat) /\
  (forall now i t sid,
     timers s !! i = Some t -> pending t = true -> task t = SilenceTimer sid ->
     due t <= now -> clock s <= now ->
     exists x s',
       sessions s !! sid = Some x /\ finalTranscript x <> [] /\
       dispatchedBy sid s = 0%nat /\
       step pf now (TimerFires i) s = Some s' /\
       dispatches s' = dispatches s ++ [dispatchOf sid x] /\
       sessions s' !! sid = Some (set_isProcessing true x) /\
       dispatchedBy sid s' = 1%nat) /\
  (forall now e s' sid,
     nonContinuous (es ++ [(now, e)]) = true ->
     step pf now e s = Some s' ->
     stored sid s <> [] -> stored sid s' = stored sid s).
Proof.
  intros Hn Hrun.
  assert (Hr : reachable pf s) by (eapply run_reachable; [constructor|exact Hrun]).
  assert (HO : Once s).
  { apply (nonContinuous_Once pf es [] s Hrun). by rewrite app_nil_r. }
  split; [apply HO|]. split.
  - intros now i t sid Hi Hp Ht Hdue Hclock.
    destruct (step_silenceCallback pf s now i t sid Hr Hi Hp Ht Hdue Hclock)
      as (x & Hx & Htr & Hfl & Hstep).
    assert (Hl : silences s !! i = Some (Some sid)).
    { unfold silences. rewrite list_lookup_fmap, Hi. simpl. unfold live. by rewrite Hp, Ht. }
    pose proof (once_pending s HO i sid Hl) as H0.
    assert (Hpx : isProcessing x = false).
    { pose proof (inFlightFrom_dispatchedBy sid s) as Hle.
      destruct (isProcessing x); [simpl in Hfl; lia|done]. }
    set (s1 := clearTimeout i (set_clock now s)) in *.
    assert (Hx1 : sessions s1 !! sid = Some x) by done.
    destruct (silenceCallback_dispatches sid s1 x Hx1 Htr Hpx) as (Hd & _ & _ & Hs & _).
    exists x, (silenceCallback sid s1).
    split; [done|]. split; [intros E; by rewrite E in Htr|]. split; [done|].
    split; [done|]. split; [done|]. split.
    + by rewrite Hs, list_lookup_alter_eq, Hx1.
    + unfold dispatchedBy in *. rewrite Hd, filter_length_snoc.
      change (dispatches s1) with (dispatches s). rewrite H0.
      unfold fromSession. simpl. by rewrite Nat.eqb_refl.
  - intros now e s' sid Hn' Hs Hst.
    destruct (nonContinuous_Once pf es [(now, e)] s Hrun Hn') as [_ HF].
    destruct (step_Capture pf now e s s' Hr Hs)
      as [H1 _ _|sid0 ev -> _ H1 _ _|i sid0 _ _ H1 _ _ _]; [done| |done].
    destruct (decide (sid = sid0)) as [->|Hne]; [|by apply H1].
    by destruct Hst; apply (Fresh_head now sid0 ev []).
Qed.

(** C2, amended, at the state [heard]: session 0 has not dispatched, and
    the timer of "hello" fires at 2000. *)
Lemma final_transcript_dispatched_once_witness :
  (dispatchedBy 0 heard <= 1)%nat /\
  exists x s',
    sessions heard !! 0%nat = Some x /\ finalTranscript x <> [] /\
    dispatchedBy 0 heard = 0%nat /\
    step chrome 2000 (TimerFires 1%nat) heard = Some s' /\
    dispatches s' = dispatches heard ++ [dispatchOf 0 x] /\
    sessions s' !! 0%nat = Some (set_isProcessing true x) /\
    dispatchedBy 0 s' = 1%nat.
Proof.
  assert (H1 : nonContinuous heardHello = true) by (vm_compute; reflexivity).
  assert (H2 : run chrome heardHello init = Some heard) by (vm_compute; reflexivity).
  split.
  - apply (proj1 (final_transcript_dispatched_once chrome heardHello heard H1 H2)).
  - apply (proj1 (proj2 (final_transcript_dispatched_once chrome heardHello heard H1 H2))
             2000 1%nat {| task := SilenceTimer 0; due := 2000; pending := true |} 0%nat).
    + reflexivity.
    + reflexivity.
    + reflexivity.
    + vm_compute. discriminate.
    + vm_compute. discriminate.
Defined.

(** ** C3: a dispatch that fails *)

(** C3, as stated, fails: with auto-chat on and speech synthesis at hand,
    the failed dispatch makes no platform call at all (no
    [speechSynthesis.speak] of the apology, no [recognition.start]) and
    sets no timeout, while the same dispatch, had it succeeded, speaks the
    reply. *)
Lemma failed_dispatch_is_not_spoken :
  exists s failed succeeded,
    run chrome sentHello init = Some s /\
    step chrome 2500 (FetchSettles 0%nat Rejected) s = Some failed /\
    step chrome 2500 (FetchSettles 0%nat (plainReply "hi")) s = Some succeeded /\
    isAutoChat failed = true /\
    text <$> messages failed = [str "hello"; errorText] /\
    calls failed = calls s /\ timers failed = timers s /\
    phase <$> dispatches failed = [Settled] /\
    calls succeeded = calls s ++ [speechSynthesis_cancel; speechSynthesis_speak (str "hi")] /\
    phase <$> dispatches succeeded = [AwaitSpeak].
Proof.
  eexists _, _, _. split; [vm_compute; reflexivity|].
  repeat (split; [vm_compute; reflexivity|]). vm_compute; reflexivity.
Qed.

(** C3, amended: when the [fetch] of a dispatch fails, in any reachable
    state, the apology is appended as a message of the assistant and the
    call completes normally ([isLoading] false, the dispatch settled, the
    awaiting session's [isProcessing] released). The failure path does not
    restart listening itself: the step creates no recognition object, sets
    no timeout, and leaves [recognitionRef], [isListening] and [isAutoChat]
    as they are (lines 188-189 leave the restart to [onend]). *)
Theorem failed_dispatch_apologises pf s now d x out :
  reachable pf s ->
  dispatches s !! d = Some x -> phase x = AwaitFetch -> clock s <= now ->
  aiTextOf out = None ->
  exists s',
    step pf now (FetchSettles d out) s = Some s' /\
    messages s' = messages s ++ [mkMessage now ai errorText] /\
    isLoading s' = false /\
    dispatches s' = alter (set_phase Settled) d (dispatches s) /\
    sessions s' = sessionsResumed (origin x) (sessions s) /\
    timers s' = timers s /\
    recognitionRef s' = recognitionRef s /\ isListening s' = isListening s /\
    isAutoChat s' = isAutoChat s.
Proof.
  intros Hr Hx Hp Hle H. eexists. split; [by apply step_fetchSettled|].
  unfold fetchSettled. rewrite H.
  destruct (finish_effect d (origin x)
    (set_messages (messages (set_clock now s)
                     ++ [mkMessage (clock (set_clock now s)) ai errorText])
                  (set_clock now s)))
    as (-> & _ & -> & -> & -> & -> & -> & -> & -> & _).
  done.
Qed.

(** C3, amended, at the state [sending]: the [fetch] of "hello" rejects. *)
Lemma failed_dispatch_apologises_witness :
  exists s',
    step chrome 2500 (FetchSettles 0%nat Rejected) sending = Some s' /\
    messages s' = messages sending ++ [mkMessage 2500 ai errorText] /\
    isLoading s' = false /\
    dispatches s' = alter (set_phase Settled) 0%nat (dispatches sending) /\
    sessions s' = sessionsResumed (FromSilenceTimer 0) (sessions sending) /\
    timers s' = timers sending /\
    recognitionRef s' = recognitionRef sending /\
    isListening s' = isListening sending /\
    isAutoChat s' = isAutoChat sending.
Proof.
  apply (failed_dispatch_apologises chrome sending 2500 0%nat
           {| sent := str "hello"; origin := FromSilenceTimer 0; phase := AwaitFetch |}
           Rejected).
  - exact sending_reachable.
  - reflexivity.
  - reflexivity.
  - vm_compute. discriminate.
  - reflexivity.
Defined.

(** ** C4: capture errors that are not retried *)

(** The handler of a capture error [no-speech] or [not-allowed] itself, in
    any reachable state: it changes nothing but [isListening], which
    becomes false (and the clock); it sets no timeout and creates, starts
    and stops no recognition object. The recognition object is started as
    before, so its [end] event is still to come. *)
Lemma fatal_error_sets_no_timeout pf s now sid x e :
  reachable pf s ->
  sessions s !! sid = Some x ->
  started x = true ->
  clock s <= now ->
  nonFatal e = false ->
  step pf now (RecognitionError sid e) s = Some (setIsListening false (set_clock now s)).
Proof.
  intros Hr Hx Hs Hle He.
  apply step_no_render; try done.
  simpl. rewrite Hx, Hs. unfold onerror. simpl.
  by rewrite Hx, He, andb_false_r.
Qed.

(** C4, on the code: with auto-chat on, session 0 reports [no-speech] or
    [not-allowed] at 900. The handler of the error sets [isListening] to
    false and nothing else, as line 232 intends. The recognition object
    then ends, as it does after every error: its [onend] (lines 201-218)
    does not know of the error and sets the restart timeout, and 300 ms
    later [startListening] creates and starts session 1, with no action of
    the user in between. *)
Theorem fatal_error_is_retried e :
  nonFatal e = false ->
  exists s1 s2 s3,
    step chrome 900 (RecognitionError 0%nat e) listening = Some s1 /\
    s1 = setIsListening false (set_clock 900 listening) /\
    step chrome 910 (RecognitionEnd 0%nat) s1 = Some s2 /\
    timers s2 = timers listening
                  ++ [{| task := RestartTimer autoChatClosure; due := 1210;
                         pending := true |}] /\
    step chrome 1210 (TimerFires 1%nat) s2 = Some s3 /\
    isAutoChat s3 = true /\ recognitionRef s3 = Some 1%nat /\
    started <$> sessions s3 = [false; true] /\
    calls s3 = calls listening
                 ++ [recognition_stop 0%nat; recognition_stop 0%nat;
                     recognition_start 1%nat; recognition_start 1%nat].
Proof.
  intros He. destruct e; try discriminate He;
    (eexists _, _, _; split; [vm_compute; reflexivity|];
     repeat (split; [vm_compute; reflexivity|]); vm_compute; reflexivity).
Qed.

(** C4, on the code, for [not-allowed]. *)
Lemma fatal_error_is_retried_witness :
  exists s1 s2 s3,
    step chrome 900 (RecognitionError 0%nat not_allowed) listening = Some s1 /\
    s1 = setIsListening false (set_clock 900 listening) /\
    step chrome 910 (RecognitionEnd 0%nat) s1 = Some s2 /\
    timers s2 = timers listening
                  ++ [{| task := RestartTimer autoChatClosure; due := 1210;
                         pending := true |}] /\
    step chrome 1210 (TimerFires 1%nat) s2 = Some s3 /\
    isAutoChat s3 = true /\ recognitionRef s3 = Some 1%nat /\
    started <$> sessions s3 = [false; true] /\
    calls s3 = calls listening
                 ++ [recognition_stop 0%nat; recognition_stop 0%nat;
                     recognition_start 1%nat; recognition_start 1%nat].
Proof.
  apply (fatal_error_is_retried not_allowed). reflexivity.
Defined.

(** ** C5: the silence timer fires *)

(** C5, on the code: the test [!isProcessing] of line 183 is meant to drop
    a fire while a dispatch is in flight, but [isProcessing] is a local of
    one run of [startListening] (line 159), and every restart is a new run.
    Session 0 hears "hello" and ends; session 1 takes over; the silence
    timer of session 0 dispatches "hello". While that dispatch awaits its
    [fetch] ([isLoading] is true), session 1 hears "stop" and its silence
    timer fires: the flag of session 1 is false, the fire is not dropped,
    and two dispatches are in flight. [handleSubmit], in the same state,
    refuses: it tests [isLoading] (line 354). No recognition object of the
    run receives a result after its final one. *)
Theorem two_dispatches_in_flight :
  nonContinuous (overlapping ++ [(3500, TimerFires 3%nat)]) = true /\
  exists s s',
    run chrome overlapping init = Some s /\
    dispatches s = [{| sent := str "hello"; origin := FromSilenceTimer 0;
                       phase := AwaitFetch |}] /\
    isLoading s = true /\
    isProcessing <$> sessions s = [true; false] /\
    step chrome 3500 (TimerFires 3%nat) s = Some s' /\
    dispatches s' = [{| sent := str "hello"; origin := FromSilenceTimer 0;
                        phase := AwaitFetch |};
                     {| sent := str "stop"; origin := FromSilenceTimer 1;
                        phase := AwaitFetch |}] /\
    calls s' = calls s ++ [fetch (str "stop")] /\
    input s = str "stop" /\
    dispatches <$> step chrome 3500 Submit s = Some (dispatches s).
Proof.
  split; [vm_compute; reflexivity|].
  eexists _, _. split; [vm_compute; reflexivity|].
  repeat (split; [vm_compute; reflexivity|]). vm_compute; reflexivity.
Qed.

(** The same with one session: the input buffer shows "hello", the user
    clicks Send at 1500, and the silence timer of session 0, which
    [handleSubmit] does not clear, fires at 2000 while the dispatch of the
    form is in flight. *)
Example silence_timer_fires_while_loading :
  exists s s',
    run chrome (heardHello ++ [(1500, Submit)]) init = Some s /\
    dispatches s = [{| sent := str "hello"; origin := FromSubmit;
                       phase := AwaitFetch |}] /\
    isLoading s = true /\
    step chrome 2000 (TimerFires 1%nat) s = Some s' /\
    dispatches s' = [{| sent := str "hello"; origin := FromSubmit;
                        phase := AwaitFetch |};
                     {| sent := str "hello"; origin := FromSilenceTimer 0;
                        phase := AwaitFetch |}].
Proof.
  eexists _, _. split; [vm_compute; reflexivity|].
  repeat (split; [vm_compute; reflexivity|]). vm_compute; reflexivity.
Qed.

(** ** C6: the latest final result wins *)

(** C6: when the results that a result event reports contain final ones,
    the session's [finalTranscript] becomes the transcript of the last
    final result, whatever it held and whatever the earlier final results
    of the batch were; the other fields of the session are untouched. And
    when "hi" and then "hi there" arrive as final results within a second,
    the timer of "hi" is cleared and cannot fire, and the timer of
    "hi there" dispatches "hi there", the only dispatch. *)
Theorem latest_final_result_wins :
  (forall pf s now sid ev x r,
     reachable pf s ->
     sessions s !! sid = Some x -> started x = true -> clock s <= now ->
     lastFinal ev = Some r ->
     exists s',
       step pf now (RecognitionResult sid ev) s = Some s' /\
       sessions s' !! sid = Some (set_finalTranscript (transcript r) x)) /\
  (exists s s',
     run chrome heardHiThere init = Some s /\
     finalTranscript <$> sessions s = [str "hi there"] /\
     step chrome 2000 (TimerFires 1%nat) s = None /\
     step chrome 2500 (TimerFires 2%nat) s = Some s' /\
     dispatches s' = [{| sent := str "hi there"; origin := FromSilenceTimer 0;
                         phase := AwaitFetch |}] /\
     calls s' = calls s ++ [fetch (str "hi there")] /\
     text <$> messages s' = [str "hi there"]).
Proof.
  split.
  - intros pf s now sid ev x r Hr Hx Hs Hle Hf. eexists.
    split; [by apply (step_onresult pf s now sid ev x)|].
    by apply onresult_latest_final.
  - eexists _, _. split; [vm_compute; reflexivity|].
    repeat (split; [vm_compute; reflexivity|]). vm_compute; reflexivity.
Qed.

(** C6, at the state [heard], for a batch with the final results "hi" and
    "hi there" among the visited ones. *)
Lemma latest_final_result_wins_witness :
  let ev := {| resultIndex := 1;
               results := [{| transcript := str "old"; isFinal := true |};
                           {| transcript := str "hi"; isFinal := true |};
                           {| transcript := str "hi the"; isFinal := false |};
                           {| transcript := str "hi there"; isFinal := true |};
                           {| transcript := str "and"; isFinal := false |}] |} in
  let x := {| closure := autoChatClosure; finalTranscript := str "hello";
              isProcessing := false; started := true |} in
  exists s',
    step chrome 1500 (RecognitionResult 0%nat ev) heard = Some s' /\
    sessions s' !! 0%nat = Some (set_finalTranscript (str "hi there") x).
Proof.
  intros ev x.
  apply (proj1 latest_final_result_wins chrome heard 1500 0%nat ev x
           {| transcript := str "hi there"; isFinal := true |}).
  - exact heard_reachable.
  - reflexivity.
  - reflexivity.
  - vm_compute. discriminate.
  - vm_compute; reflexivity.
Defined.

(** ** C7: the message log *)

(** C7: every step from a reachable state keeps the messages that are in
    the log, unchanged and in place, and appends at most one: a message of
    the user with the text of the dispatch that the step makes, or a
    message of the assistant with the text that the [fetch] of a dispatch
    settles with, which was awaiting its [fetch] and no longer is. When a
    step dispatches a text and, any steps later, the [fetch] of that
    dispatch settles with a reply, then the dispatching step appended one
    message, of the user and with the text dispatched, the settling step
    appended one message, of the assistant and with the reply, the user's
    message stands before the assistant's in the log, and the [fetch] of
    that dispatch cannot settle a second time. And in every reachable state
    the texts of the user's messages are the texts of the dispatches, one
    for one and in order, and the log holds as many messages of the
    assistant as there are dispatches whose [fetch] has settled. *)
Theorem message_log_appends pf :
  (forall s now e s',
     reachable pf s -> step pf now e s = Some s' ->
     messages s `prefix_of` messages s' /\
     (messages s' = messages s \/
      (exists m dsp,
         messages s' = messages s ++ [m] /\ sender m = user /\ text m = sent dsp /\
         dispatches s' = dispatches s ++ [dsp]) \/
      (exists m d out x,
         messages s' = messages s ++ [m] /\ sender m = ai /\ text m = replyText out /\
         e = FetchSettles d out /\ dispatches s !! d = Some x /\
         answered x = false /\ answered <$> dispatches s' !! d = Some true))) /\
  (forall s now e s1 dsp es s2 now' out reply s3,
     reachable pf s ->
     step pf now e s = Some s1 ->
     dispatches s1 = dispatches s ++ [dsp] ->
     run pf es s1 = Some s2 ->
     step pf now' (FetchSettles (length (dispatches s)) out) s2 = Some s3 ->
     aiTextOf out = Some reply ->
     exists m m' mid,
       sender m = user /\ text m = sent dsp /\
       sender m' = ai /\ text m' = reply /\
       messages s1 = messages s ++ [m] /\
       messages s3 = messages s2 ++ [m'] /\
       messages s3 = messages s ++ [m] ++ mid ++ [m'] /\
       (forall es' s4 now'' out',
          run pf es' s3 = Some s4 ->
          step pf now'' (FetchSettles (length (dispatches s)) out') s4 = None)) /\
  (forall s,
     reachable pf s ->
     textsOf user s = sent <$> dispatches s /\
     length (textsOf ai s) = length (List.filter answered (dispatches s))).
Proof.
  split; [|split].
  - intros s now e s' Hr Hs. pose proof (step_log pf now e s s' Hr Hs) as HL.
    split; [by eapply LogStep_prefix|].
    destruct HL as [Hm _|t o Hm Hd|d x out p He Hx Hp Hm Hne Hd].
    + by left.
    + right. left.
      by exists (mkMessage now user t), {| sent := t; origin := o; phase := AwaitFetch |}.
    + right. right. exists (mkMessage now ai (replyText out)), d, out, x.
      repeat (split; [done|]). split.
      * unfold answered. by rewrite Hp.
      * rewrite Hd, list_lookup_alter_eq, Hx. simpl. unfold answered. simpl.
        by destruct p.
  - intros s now e s1 dsp es s2 now' out reply s3 Hr Hs1 Hd Hrun Hs3 Hout.
    assert (Hr1 : reachable pf s1) by (by eapply reachable_step).
    assert (Hr2 : reachable pf s2) by (by eapply run_reachable).
    assert (Hr3 : reachable pf s3) by (by eapply reachable_step).
    assert (Hm1 : messages s1 = messages s ++ [mkMessage now user (sent dsp)]).
    { destruct (step_log pf now e s s1 Hr Hs1)
        as [_ [E|[d E]]|t o Em Ed|d x out0 p _ _ _ _ _ E].
      - rewrite E in Hd. apply (f_equal length) in Hd.
        rewrite length_app in Hd. simpl in Hd. lia.
      - rewrite E in Hd. apply (f_equal length) in Hd.
        rewrite length_app, length_alter in Hd. simpl in Hd. lia.
      - rewrite Ed in Hd. apply app_inv_head in Hd. by injection Hd as <-.
      - rewrite E in Hd. apply (f_equal length) in Hd.
        rewrite length_app, length_alter in Hd. simpl in Hd. lia. }
    destruct (run_log pf es s1 s2 Hr1 Hrun) as [[mid Hmid] _].
    destruct (step_fetchSettles pf now' _ out s2 s3 Hr2 Hs3) as [Hm3 Hpast].
    unfold replyText in Hm3. rewrite Hout in Hm3.
    exists (mkMessage now user (sent dsp)), (mkMessage now' ai reply), mid.
    repeat (split; [done|]). split.
    + by rewrite Hm3, Hmid, Hm1, <- !app_assoc.
    + intros es' s4 now'' out' Hrun'.
      apply pastFetch_no_settle.
      by apply (run_log pf es' s3 s4 Hr3 Hrun').
  - intros s Hr. destruct (reachable_Ledger pf s Hr) as [Lu _ _ La _ _]. done.
Qed.

(** C7, for the turn "hello" / "hi": dispatched in the state [heard] at
    2000, replied to at 2500. *)
Lemma message_log_appends_witness :
  exists m m' mid,
    sender m = user /\ text m = str "hello" /\
    sender m' = ai /\ text m' = str "hi" /\
    messages sending = messages heard ++ [m] /\
    messages replied = messages sending ++ [m'] /\
    messages replied = messages heard ++ [m] ++ mid ++ [m'] /\
    (forall es' s4 now'' out',
       run chrome es' replied = Some s4 ->
       step chrome now'' (FetchSettles 0%nat out') s4 = None).
Proof.
  apply (proj1 (proj2 (message_log_appends chrome))
           heard 2000 (TimerFires 1%nat) sending
           {| sent := str "hello"; origin := FromSilenceTimer 0; phase := AwaitFetch |}
           [] sending 2500 (plainReply "hi") (str "hi") replied).
  - exact heard_reachable.
  - vm_compute; reflexivity.
  - reflexivity.
  - reflexivity.
  - vm_compute; reflexivity.
  - reflexivity.
Defined.

(** ** C8: interim results *)

(** C8: in a run in which no recognition object receives a result after
    its final one (line 153), an event of a started recognition object that
    reports no final result finds no final transcript stored: the input
    buffer becomes the interim text, the silence timer that
    [silenceTimerRef] holds is cleared and no timeout is set, so that no
    silence timer is pending afterwards; the sessions and the dispatches
    are as before. And whatever the event of a step of such a run, a
    silence timer that is pending after the step was pending before it, or
    the event is a result event that reports a final result, whose
    transcript is not blank, and the timer is the one that this step
    set. *)
Theorem interim_result_never_arms pf es s :
  run pf es init = Some s ->
  (forall now sid ev x,
     nonContinuous (es ++ [(now, RecognitionResult sid ev)]) = true ->
     sessions s !! sid = Some x -> started x = true -> clock s <= now ->
     lastFinal ev = None ->
     exists s',
       step pf now (RecognitionResult sid ev) s = Some s' /\
       input s' = default [] (transcript <$> lastInterim ev) /\
       timers s' = timers (clearSilenceTimer s) /\
       (forall i sid', silences s' !! i <> Some (Some sid')) /\
       sessions s' = sessions s /\ dispatches s' = dispatches s) /\
  (forall now e s' i sid,
     nonContinuous (es ++ [(now, e)]) = true ->
     step pf now e s = Some s' ->
     silences s' !! i = Some (Some sid) ->
     silences s !! i = Some (Some sid) \/
     exists ev r, e = RecognitionResult sid ev /\ lastFinal ev = Some r /\
                  truthy (trim (transcript r)) = true /\ i = length (timers s)).
Proof.
  intros Hrun.
  assert (Hr : reachable pf s) by (eapply run_reachable; [constructor|exact Hrun]).
  split.
  - intros now sid ev x Hn Hx Hst Hle Hf.
    destruct (nonContinuous_Once pf es _ s Hrun Hn) as [_ HF].
    pose proof (Fresh_head now sid ev [] s HF) as E0.
    rewrite (stored_lookup sid s x Hx) in E0.
    destruct (reachable_Inv pf s Hr) as [HT _].
    eexists. split; [by apply (step_onresult pf s now sid ev x)|].
    destruct (onresult_effect sid ev (set_clock now s) x Hx)
      as (Hs & Hi & Ht & _ & _ & Hd & _).
    rewrite Hf, E0 in Hs, Hi, Ht. simpl in Hs, Hi, Ht.
    rewrite clearSilenceTimer_clock, app_nil_r in Ht.
    split; [done|]. split; [done|]. split; [|split; [|done]].
    + intros i sid'. unfold silences. rewrite Ht. by apply clearSilenceTimer_quiet.
    + rewrite Hs. eapply alter_lookup_id; [exact Hx|]. destruct x; simpl in *; by subst.
  - intros now e s' i sid Hn Hs Hi.
    destruct (nonContinuous_Once pf es _ s Hrun Hn) as [_ HF].
    destruct (step_Capture pf now e s s' Hr Hs)
      as [_ H2 _|sid0 ev -> H1 _ H2 _|j sid0 _ _ _ H2 _ _].
    + left. by apply H2.
    + right. destruct (H2 i sid Hi) as (-> & -> & Ht).
      rewrite H1, (Fresh_head now sid0 ev [] s HF) in Ht.
      destruct (lastFinal ev) as [r|] eqn:Hf; [|done]. simpl in Ht. by exists ev, r.
    + by destruct (H2 i sid).
Qed.

(** C8, at the state [restarted]: session 1 reports the interim result
    "and" at 1500, while the silence timer of session 0 (id 1) is
    pending. *)
Lemma interim_result_never_arms_witness :
  exists s',
    step chrome 1500 (RecognitionResult 1%nat (interimEvent "and")) restarted = Some s' /\
    input s' = str "and" /\
    timers s' = timers (clearSilenceTimer restarted) /\
    (forall i sid', silences s' !! i <> Some (Some sid')) /\
    sessions s' = sessions restarted /\ dispatches s' = dispatches restarted.
Proof.
  assert (H : run chrome restartedAfterHello init = Some restarted)
    by (vm_compute; reflexivity).
  apply (proj1 (interim_result_never_arms chrome restartedAfterHello restarted H)
           1500 1%nat (interimEvent "and")
           {| closure := autoChatClosure; finalTranscript := [];
              isProcessing := false; started := true |}).
  - vm_compute; reflexivity.
  - reflexivity.
  - reflexivity.
  - vm_compute. discriminate.
  - reflexivity.
Defined.

(** In [restarted] the silence timer of "hello" is pending, and the interim
    result clears it. *)
Example restarted_timer :
  timers restarted !! 1%nat
    = Some {| task := SilenceTimer 0; due := 2000; pending := true |} /\
  timers (clearSilenceTimer restarted) !! 1%nat
    = Some {| task := SilenceTimer 0; due := 2000; pending := false |}.
Proof. split; reflexivity. Qed.

(** ** C9: [startListening] at its guards *)

(** C9, on the code: the restart timeout of the state [off] fires at 2300.
    Auto-chat is off, and the call of [startListening] that the timeout
    makes is not a no-op: it runs the closure of the earlier render, whose
    [isAutoChat] is [true], and creates and starts session 1. The closure
    of the current render does nothing in the same state. *)
Theorem startListening_runs_while_off :
  let s := clearTimeout 1 (set_clock 2300 off) in
  let s' := startListening chrome autoChatClosure s in
  reachable chrome off /\ isAutoChat s = false /\
  task <$> timers off !! 1%nat = Some (RestartTimer autoChatClosure) /\
  step chrome 2300 (TimerFires 1%nat) off = Some s' /\
  s' <> s /\
  recognitionRef s' = Some 1%nat /\
  started <$> sessions s' !! 1%nat = Some true /\
  startListening chrome (startListeningCb s) s = s.
Proof.
  intros s s'. split; [exact off_reachable|].
  repeat (split; [vm_compute; try reflexivity; discriminate|]).
  vm_compute; reflexivity.
Qed.

(** ** C10: the dispatch path ignores blank text *)

(** C10: with a text of white space only (or empty), [processAIResponse]
    returns at line 63: the promise is resolved at once and the state is the
    one it was called in, so no message is appended, no [fetch] call is
    made, and [isLoading] and everything else is unchanged. *)
Theorem processAIResponse_blank (o : Origin) (t : jsstring) (s : State) :
  blank t -> processAIResponse o t s = (s, resolved).
Proof.
  intros H. unfold processAIResponse.
  apply truthy_trim_blank in H. by rewrite H.
Qed.

(** C10, for a text of two spaces. *)
Lemma processAIResponse_blank_witness :
  blank (str "  ") /\
  processAIResponse FromSubmit (str "  ") init = (init, resolved).
Proof.
  assert (H : blank (str "  ")) by (repeat constructor).
  split; [exact H | exact (processAIResponse_blank FromSubmit (str "  ") init H)].
Defined.

(** * Further properties of the component *)

(** ** More reachable states *)

Lemma typed_reachable : reachable chrome typed.
Proof.
  apply (run_reachable chrome [(0, ChangeInput (str " hi "))] init); [constructor|].
  vm_compute; reflexivity.
Qed.

Lemma retrying_reachable : reachable blocked retrying.
Proof.
  apply (run_reachable blocked switchOn init); [constructor|].
  vm_compute; reflexivity.
Qed.

Lemma replied_reachable : reachable chrome replied.
Proof.
  apply (run_reachable chrome gotReply init); [constructor|].
  vm_compute; reflexivity.
Qed.

Lemma unsupported_reachable : reachable noRecognition unsupported.
Proof.
  apply (run_reachable noRecognition [(0, ClickAutoChat)] init); [constructor|].
  vm_compute; reflexivity.
Qed.

(** ** The listening flag *)

(** X1: in a browser whose [start()] throws on a recognition object that is
    started already, as the Web Speech API requires, [isListening] is false
    in every reachable state. [startListening] calls [start()] twice on the
    object it creates (lines 254 and 267): the second call throws, or both
    do, and the [catch] of line 271 has the last word. *)
Theorem isListening_stays_false pf s :
  startThrows pf true = true -> reachable pf s -> isListening s = false.
Proof.
  intros Hpf Hr. by apply (sound_listening pf s (reachable_Sound pf s Hr)).
Qed.

(** X1, at the state [listening]: the recognition object is started, and
    [isListening] is false. *)
Lemma isListening_stays_false_witness :
  isListening listening = false /\
  started <$> sessions listening !! 0%nat = Some true.
Proof.
  split; [|reflexivity].
  apply (isListening_stays_false chrome listening); [reflexivity|].
  exact listening_reachable.
Defined.

(** ** The microphone button *)

(** X2: in such a browser the microphone button (line 407) never calls
    [stopListening]: [isListening] is false, so a click calls
    [startListening]. With auto-chat off the click changes nothing. With
    auto-chat on and speech recognition at hand it stops the recognition
    object that [recognitionRef] holds and creates and starts a new one,
    and [isListening] is false afterwards as before. *)
Theorem clickMic_never_stops pf s now :
  startThrows pf true = true -> reachable pf s -> clock s <= now ->
  step pf now ClickMic s
    = Some (startListening pf (startListeningCb s) (set_clock now s)) /\
  (isAutoChat s = false -> step pf now ClickMic s = Some (set_clock now s)) /\
  (isAutoChat s = true -> hasSpeechRecognition pf = true ->
   exists s',
     step pf now ClickMic s = Some s' /\
     recognitionRef s' = Some (length (sessions s)) /\
     calls s' = calls s ++ stops s
                  ++ [recognition_start (length (sessions s));
                      recognition_start (length (sessions s))] /\
     isListening s' = false).
Proof.
  intros Hpf Hr Hle.
  pose proof (sound_listening pf s (reachable_Sound pf s Hr) Hpf) as Hl.
  pose proof (reachable_consistent pf s Hr) as Hc. unfold consistent in Hc.
  assert (Hstep : step pf now ClickMic s
                  = Some (startListening pf (startListeningCb s) (set_clock now s))).
  { destruct (hooks_startListening pf (startListeningCb s) (set_clock now s))
      as [[= Hcb _ _] Ha].
    apply step_no_render; try done.
    simpl. unfold clickMic. simpl. by rewrite Hl. }
  split; [done|]. split.
  - intros Ha. rewrite Hstep. f_equal. apply startListening_guard. congruence.
  - intros Ha Hp. eexists. split; [exact Hstep|].
    rewrite startListening_run by congruence. simpl.
    rewrite Hpf. by rewrite andb_false_r.
Qed.

(** X2, at the state [listening], at time 900. *)
Lemma clickMic_never_stops_witness :
  step chrome 900 ClickMic listening
    = Some (startListening chrome (startListeningCb listening) (set_clock 900 listening)) /\
  (isAutoChat listening = false ->
   step chrome 900 ClickMic listening = Some (set_clock 900 listening)) /\
  (isAutoChat listening = true -> hasSpeechRecognition chrome = true ->
   exists s',
     step chrome 900 ClickMic listening = Some s' /\
     recognitionRef s' = Some (length (sessions listening)) /\
     calls s' = calls listening ++ stops listening
                  ++ [recognition_start (length (sessions listening));
                      recognition_start (length (sessions listening))] /\
     isListening s' = false).
Proof.
  apply (clickMic_never_stops chrome listening 900).
  - reflexivity.
  - exact listening_reachable.
  - vm_compute. discriminate.
Defined.

(** ** The closures that stay alive *)

(** X3: in every reachable state, every recognition object was created by
    a closure whose [isAutoChat] is [true], and every timeout that was ever
    set carries such a closure (and [true] for the [isAutoChat] that the
    timeout of the effect reads). So the tests of [isAutoChat] in the
    handlers of a recognition object and in the callbacks of the timeouts
    (lines 196, 202, 207, 232, 245, 259 and 315) always find [true]. *)
Theorem closures_capture_true pf s :
  reachable pf s ->
  Forall (fun x => cap_isAutoChat (closure x) = true) (sessions s) /\
  Forall (fun t => taskOk (task t)) (timers s).
Proof.
  intros Hr. destruct (reachable_Sound pf s Hr) as [H1 H2 _ _ _]. done.
Qed.

(** X3, at the state [off]. *)
Lemma closures_capture_true_witness :
  Forall (fun x => cap_isAutoChat (closure x) = true) (sessions off) /\
  Forall (fun t => taskOk (task t)) (timers off).
Proof. exact (closures_capture_true chrome off off_reachable). Defined.

(** ** The recognition object that the component holds *)

(** X4: [recognitionRef] is null or holds the recognition object that was
    created last: the older objects are out of the component's reach,
    whether they have ended or not. *)
Theorem recognitionRef_is_newest pf s r :
  reachable pf s -> recognitionRef s = Some r -> S r = length (sessions s).
Proof. intros Hr. apply (sound_ref pf s (reachable_Sound pf s Hr)). Qed.

(** X4, at the state [listening], which holds object 0. *)
Lemma recognitionRef_is_newest_witness : 1%nat = length (sessions listening).
Proof.
  apply (recognitionRef_is_newest chrome listening 0%nat);
    [exact listening_reachable|reflexivity].
Defined.

(** ** A recognition object ends *)

(** The closure of a recognition object has [isAutoChat = true]. *)
Lemma session_closure pf s sid x :
  reachable pf s -> sessions s !! sid = Some x -> cap_isAutoChat (closure x) = true.
Proof.
  intros Hr Hx. destruct (reachable_Sound pf s Hr) as [H1 _ _ _ _].
  rewrite Forall_lookup in H1. by apply (H1 sid x).
Qed.

(** X5: the [end] event of a started recognition object, in any reachable
    state and whatever [isAutoChat] is by now, sets exactly one restart
    timeout, 1000 ms ahead if the closure's [isLoading] is true and 300 ms
    otherwise, and changes nothing else (but that the object is no longer
    started): lines 196-199 and 224 never run, and [isListening] is left as
    it is. *)
Theorem recognition_end_schedules_restart pf s now sid x :
  reachable pf s ->
  sessions s !! sid = Some x -> started x = true -> clock s <= now ->
  step pf now (RecognitionEnd sid) s
    = Some (set_timers
              (timers s
                 ++ [{| task := RestartTimer (closure x);
                        due := now + (if cap_isLoading (closure x) then 1000 else 300);
                        pending := true |}])
              (updSession (set_started false) sid (set_clock now s))).
Proof.
  intros Hr Hx Hs Hle.
  pose proof (session_closure pf s sid x Hr Hx) as Hc.
  apply step_no_render; try done.
  simpl. rewrite Hx, Hs. f_equal. unfold onend. simpl.
  rewrite list_lookup_alter_eq, Hx. simpl. rewrite Hc. simpl. done.
Qed.

(** X5, at the state [listening]: object 0 ends at 2000. *)
Lemma recognition_end_schedules_restart_witness :
  step chrome 2000 (RecognitionEnd 0%nat) listening
    = Some (set_timers
              (timers listening
                 ++ [{| task := RestartTimer autoChatClosure;
                        due := 2000 + 300; pending := true |}])
              (updSession (set_started false) 0%nat (set_clock 2000 listening))).
Proof.
  apply (recognition_end_schedules_restart chrome listening 2000 0%nat
           {| closure := autoChatClosure; finalTranscript := [];
              isProcessing := false; started := true |}).
  - exact listening_reachable.
  - reflexivity.
  - reflexivity.
  - vm_compute. discriminate.
Defined.

(** ** A capture error that is retried *)

(** X6: a capture error other than [no-speech] and [not-allowed], reported
    by a started recognition object in any reachable state and whatever
    [isAutoChat] is by now: [isListening] becomes false, [stop()] is called
    on the object that [recognitionRef] holds (if any), and exactly one
    recovery timeout is set, 1000 ms ahead; nothing else changes. *)
Theorem recoverable_error_schedules_restart pf s now sid x e :
  reachable pf s ->
  sessions s !! sid = Some x -> started x = true -> clock s <= now ->
  nonFatal e = true ->
  step pf now (RecognitionError sid e) s
    = Some (set_timers
              (timers s
                 ++ [{| task := RecoverTimer (closure x); due := now + 1000;
                        pending := true |}])
              (set_calls (calls s ++ stops s)
                 (setIsListening false (set_clock now s)))).
Proof.
  intros Hr Hx Hs Hle He.
  pose proof (session_closure pf s sid x Hr Hx) as Hc.
  assert (Hh : onerror sid e (set_clock now s)
               = set_timers
                   (timers s
                      ++ [{| task := RecoverTimer (closure x); due := now + 1000;
                             pending := true |}])
                   (set_calls (calls s ++ stops s)
                      (setIsListening false (set_clock now s)))).
  { unfold onerror, stops. simpl. rewrite Hx, Hc, He. simpl.
    destruct (recognitionRef s); simpl; [done|].
    unfold set_calls. simpl. by rewrite app_nil_r. }
  apply step_no_render; try done.
  simpl. by rewrite Hx, Hs, Hh.
Qed.

(** X6, at the state [listening]: object 0 reports [network] at 900. *)
Lemma recoverable_error_schedules_restart_witness :
  step chrome 900 (RecognitionError 0%nat network) listening
    = Some (set_timers
              (timers listening
                 ++ [{| task := RecoverTimer autoChatClosure; due := 900 + 1000;
                        pending := true |}])
              (set_calls (calls listening ++ stops listening)
                 (setIsListening false (set_clock 900 listening)))).
Proof.
  apply (recoverable_error_schedules_restart chrome listening 900 0%nat
           {| closure := autoChatClosure; finalTranscript := [];
              isProcessing := false; started := true |} network).
  - exact listening_reachable.
  - reflexivity.
  - reflexivity.
  - vm_compute. discriminate.
  - reflexivity.
Defined.

(** ** A timeout calls [startListening] *)

(** The closure of a timeout has [isAutoChat = true]. *)
Lemma timer_task pf s i t :
  reachable pf s -> timers s !! i = Some t -> taskOk (task t).
Proof.
  intros Hr Hi. destruct (reachable_Sound pf s Hr) as [_ H2 _ _ _].
  rewrite Forall_lookup in H2. by apply (H2 i t).
Qed.

(** X7: when a pending restart, recovery, retry or effect timeout is due
    and fires, in a reachable state of a browser with speech recognition,
    [startListening] gets past its guards, whatever [isAutoChat] is by now:
    a new recognition object is created, and [recognitionRef] holds it. It
    is started unless [start()] throws on it; in that case a retry timeout
    is set 1000 ms ahead, so a [start()] that keeps failing is retried
    every second, each time on a new object. *)
Theorem delayed_start_always_runs pf s now i t c :
  reachable pf s ->
  timers s !! i = Some t -> pending t = true -> closureOf (task t) = Some c ->
  due t <= now -> clock s <= now ->
  hasSpeechRecognition pf = true ->
  exists s',
    step pf now (TimerFires i) s = Some s' /\
    isAutoChat s' = isAutoChat s /\
    recognitionRef s' = Some (length (sessions s)) /\
    sessions s' = sessions s
                    ++ [set_started (negb (startThrows pf false)) (newSession c)] /\
    timers s' = alter cancelled i (timers s)
                  ++ (if startThrows pf false
                      then [{| task := RetryTimer c; due := now + 1000;
                               pending := true |}]
                      else []) /\
    isListening s' = negb (startThrows pf false) && negb (startThrows pf true).
Proof.
  intros Hr Hi Hp Hc Hdue Hle Hrec.
  pose proof (timer_task pf s i t Hr Hi) as Hok.
  set (s1 := clearTimeout i (set_clock now s)).
  set (s2 := match recognitionRef s1 with
             | Some r => call (recognition_stop r) s1
             | None => s1
             end).
  assert (Hcap : cap_isAutoChat c = true).
  { destruct (task t); simpl in *; try done; injection Hc as <-; tauto. }
  assert (Hrun : runTimer pf (task t) s1 = startListening pf c s1
                 \/ runTimer pf (task t) s1 = startListening pf c s2).
  { destruct (task t) as [sid|c'|c'|c'|b c']; simpl in *; try done;
      injection Hc as <-; rewrite ?Hcap; auto.
    destruct Hok as [-> _]. auto. }
  assert (H2 : sessions s2 = sessions s /\ timers s2 = timers s1 /\
               isAutoChat s2 = isAutoChat s /\ startListeningCb s2 = startListeningCb s /\
               clock s2 = now).
  { subst s2. by destruct (recognitionRef s1). }
  destruct H2 as (Hs2 & Ht2 & Ha2 & Hcb2 & Hck2).
  assert (Hstep : step pf now (TimerFires i) s = Some (runTimer pf (task t) s1)).
  { destruct (hooks_runTimer pf (task t) s1) as [[= Hcb _ _] Ha].
    apply step_no_render; try done.
    simpl. rewrite Hi, Hp. simpl.
    by destruct (Z.leb_spec (due t) now); [|lia]. }
  eexists. split; [exact Hstep|].
  destruct Hrun as [-> | ->]; rewrite startListening_run by done; simpl;
    unfold retryTimerAt; rewrite ?Hs2, ?Ht2, ?Ha2, ?Hck2;
    by destruct (startThrows pf false).
Qed.

(** X7, at the state [retrying]: the retry timeout (id 1) fires at 1300 and
    [start()] throws again. *)
Lemma delayed_start_always_runs_witness :
  exists s',
    step blocked 1300 (TimerFires 1%nat) retrying = Some s' /\
    isAutoChat s' = isAutoChat retrying /\
    recognitionRef s' = Some (length (sessions retrying)) /\
    sessions s' = sessions retrying
                    ++ [set_started (negb (startThrows blocked false))
                          (newSession autoChatClosure)] /\
    timers s' = alter cancelled 1%nat (timers retrying)
                  ++ (if startThrows blocked false
                      then [{| task := RetryTimer autoChatClosure; due := 1300 + 1000;
                               pending := true |}]
                      else []) /\
    isListening s' = negb (startThrows blocked false) && negb (startThrows blocked true).
Proof.
  apply (delayed_start_always_runs blocked retrying 1300 1%nat
           {| task := RetryTimer autoChatClosure; due := 1300; pending := true |}
           autoChatClosure).
  - exact retrying_reachable.
  - reflexivity.
  - reflexivity.
  - reflexivity.
  - vm_compute. discriminate.
  - vm_compute. discriminate.
  - reflexivity.
Defined.

(** ** Switching auto-chat on *)

(** X8: switching auto-chat on, in any reachable state with auto-chat off:
    [isAutoChat] becomes true, [startListening] becomes the closure of the
    new render, and the effect sets one timeout 300 ms ahead; nothing else
    changes. The call of [startListening] that [toggleAutoChat] makes
    itself (line 303) runs the closure of the render with auto-chat off and
    returns at line 128: no recognition object is created before the
    timeout fires. *)
Theorem enabling_auto_chat_arms_a_timer pf s now :
  reachable pf s -> isAutoChat s = false -> clock s <= now ->
  let c := {| cap_isAutoChat := true; cap_isLoading := isLoading s |} in
  step pf now ClickAutoChat s
    = Some (set_autoChatEffect (Some (length (timers s)))
              (set_timers
                 (timers s ++ [{| task := AutoChatTimer true c; due := now + 300;
                                  pending := true |}])
                 (set_startListeningCb c (setIsAutoChat true (set_clock now s))))).
Proof.
  intros Hr Ha Hle c.
  pose proof (reachable_consistent pf s Hr) as Hc. unfold consistent in Hc.
  pose proof (reachable_EffectInv pf s Hr) as He. unfold EffectInv in He.
  assert (Hcap : cap_isAutoChat (startListeningCb s) = false) by congruence.
  apply He in Hcap as Heff.
  unfold step. destruct (Z.leb_spec (clock s) now); [|lia]. simpl. f_equal.
  assert (Hh : toggleAutoChat pf (set_clock now s) = setIsAutoChat true (set_clock now s)).
  { unfold toggleAutoChat. simpl. rewrite Ha. simpl.
    destruct (negb (isListening s)); [|done]. by apply startListening_guard. }
  rewrite Hh. unfold render. simpl. rewrite Hcap, Heff. simpl. done.
Qed.

(** X8, at the state [typed], at time 5. *)
Lemma enabling_auto_chat_arms_a_timer_witness :
  let c := {| cap_isAutoChat := true; cap_isLoading := isLoading typed |} in
  step chrome 5 ClickAutoChat typed
    = Some (set_autoChatEffect (Some (length (timers typed)))
              (set_timers
                 (timers typed ++ [{| task := AutoChatTimer true c; due := 5 + 300;
                                      pending := true |}])
                 (set_startListeningCb c (setIsAutoChat true (set_clock 5 typed))))).
Proof.
  apply (enabling_auto_chat_arms_a_timer chrome typed 5).
  - exact typed_reachable.
  - reflexivity.
  - vm_compute. discriminate.
Defined.

(** ** Switching auto-chat off *)

(** X9: switching auto-chat off, in any reachable state with auto-chat on:
    the effect holds a timeout [i]; the step calls [stop()] once, on the
    object that [recognitionRef] holds, clears the two refs and
    [isListening], and cancels exactly the silence timer that
    [silenceTimerRef] holds and the timeout [i] of the effect. Every other
    timeout (restart, recovery, retry) stays as it is, and so do the
    recognition objects, the log and the dispatches. *)
Theorem disabling_auto_chat_cancels_two_timeouts pf s now :
  reachable pf s -> isAutoChat s = true -> clock s <= now ->
  exists i,
    autoChatEffect s = Some i /\
    step pf now ClickAutoChat s
      = Some {| messages := messages s; input := input s; isLoading := isLoading s;
                isAutoChat := false; isListening := false;
                recognitionRef := None; silenceTimerRef := None;
                startListeningCb :=
                  {| cap_isAutoChat := false; cap_isLoading := isLoading s |};
                autoChatEffect := None;
                sessions := sessions s;
                timers := alter cancelled i (timers (clearSilenceTimer s));
                dispatches := dispatches s;
                calls := calls s ++ stops s;
                clock := now |}.
Proof.
  intros Hr Ha Hle.
  pose proof (reachable_consistent pf s Hr) as Hc. unfold consistent in Hc.
  pose proof (reachable_EffectInv pf s Hr) as He. unfold EffectInv in He.
  assert (Hcap : cap_isAutoChat (startListeningCb s) = true) by congruence.
  destruct (autoChatEffect s) as [i|] eqn:Heff;
    [|destruct He as [He _]; rewrite (He eq_refl) in Hcap; done].
  exists i. split; [done|].
  unfold step. destruct (Z.leb_spec (clock s) now); [|lia]. simpl. f_equal.
  unfold toggleAutoChat. simpl. rewrite Ha. simpl.
  rewrite stopListening_run. unfold render. simpl. rewrite Hcap, Heff. simpl.
  rewrite !stopListening_run. simpl. unfold stops, clearSilenceTimer. simpl.
  rewrite !app_nil_r. unfold set_autoChatEffect. simpl.
  by destruct (silenceTimerRef s).
Qed.

(** X9, at the state [heard], at time 1500. *)
Lemma disabling_auto_chat_cancels_two_timeouts_witness :
  exists i,
    autoChatEffect heard = Some i /\
    step chrome 1500 ClickAutoChat heard
      = Some {| messages := messages heard; input := input heard;
                isLoading := isLoading heard;
                isAutoChat := false; isListening := false;
                recognitionRef := None; silenceTimerRef := None;
                startListeningCb :=
                  {| cap_isAutoChat := false; cap_isLoading := isLoading heard |};
                autoChatEffect := None;
                sessions := sessions heard;
                timers := alter cancelled i (timers (clearSilenceTimer heard));
                dispatches := dispatches heard;
                calls := calls heard ++ stops heard;
                clock := 1500 |}.
Proof.
  apply (disabling_auto_chat_cancels_two_timeouts chrome heard 1500).
  - exact heard_reachable.
  - reflexivity.
  - vm_compute. discriminate.
Defined.

(** ** Without speech recognition *)

(** X10: in a browser without speech recognition no recognition object
    ever exists, and a timeout that calls [startListening] only alerts
    (lines 144-147): the step makes the [alert] call and changes nothing
    else, so [isAutoChat] stays as it is. *)
Theorem without_recognition_a_start_only_alerts pf s now i t c :
  hasSpeechRecognition pf = false ->
  reachable pf s ->
  timers s !! i = Some t -> pending t = true -> closureOf (task t) = Some c ->
  due t <= now -> clock s <= now ->
  step pf now (TimerFires i) s
    = Some (call (alert unsupportedText) (clearTimeout i (set_clock now s))) /\
  sessions s = [] /\ recognitionRef s = None.
Proof.
  intros Hrec Hr Hi Hp Hc Hdue Hle.
  pose proof (timer_task pf s i t Hr Hi) as Hok.
  destruct (reachable_Sound pf s Hr) as [_ _ Hrf _ Hsup].
  pose proof (Hsup Hrec) as Hs.
  assert (Href : recognitionRef s = None).
  { destruct (recognitionRef s) as [r|] eqn:E; [|done].
    specialize (Hrf r eq_refl). by rewrite Hs in Hrf. }
  split; [|done].
  set (s1 := clearTimeout i (set_clock now s)).
  assert (Hcap : cap_isAutoChat c = true).
  { destruct (task t); simpl in *; try done; injection Hc as <-; tauto. }
  assert (Hrun : runTimer pf (task t) s1 = startListening pf c s1).
  { destruct (task t) as [sid|c'|c'|c'|b c']; simpl in *; try done;
      injection Hc as <-; rewrite ?Hcap, ?Href; try done.
    by destruct Hok as [-> _]. }
  assert (Hst : startListening pf c s1 = call (alert unsupportedText) s1).
  { unfold startListening. rewrite Hcap, Hrec. simpl. by rewrite Href. }
  apply step_no_render; try done.
  simpl. rewrite Hi, Hp. simpl.
  destruct (Z.leb_spec (due t) now); [|lia]. fold s1. by rewrite Hrun, Hst.
Qed.

(** X10, at the state [unsupported]: the timeout of the effect fires at 300. *)
Lemma without_recognition_a_start_only_alerts_witness :
  step noRecognition 300 (TimerFires 0%nat) unsupported
    = Some (call (alert unsupportedText) (clearTimeout 0 (set_clock 300 unsupported))) /\
  sessions unsupported = [] /\ recognitionRef unsupported = None.
Proof.
  apply (without_recognition_a_start_only_alerts noRecognition unsupported 300 0%nat
           {| task := AutoChatTimer true autoChatClosure; due := 300; pending := true |}
           autoChatClosure).
  - reflexivity.
  - exact unsupported_reachable.
  - reflexivity.
  - reflexivity.
  - reflexivity.
  - vm_compute. discriminate.
  - vm_compute. discriminate.
Defined.

(** ** One silence timer *)

(** X11: at most one silence timer is pending at a time, and it is the one
    that [silenceTimerRef] holds: a result event clears the timer of the
    event before it (lines 163-165) before it sets its own (line 182). *)
Theorem one_silence_timer_pending pf s i j t t' sid sid' :
  reachable pf s ->
  timers s !! i = Some t -> pending t = true -> task t = SilenceTimer sid ->
  timers s !! j = Some t' -> pending t' = true -> task t' = SilenceTimer sid' ->
  i = j /\ silenceTimerRef s = Some i.
Proof.
  intros Hr Hi Hp Ht Hj Hp' Ht'.
  destruct (reachable_Inv pf s Hr) as [HT _].
  assert (Hl : forall k u sd, timers s !! k = Some u -> pending u = true ->
                 task u = SilenceTimer sd -> silenceTimerRef s = Some k).
  { intros k u sd Hk Hpu Htu.
    apply (HT k sd). unfold silences. rewrite list_lookup_fmap, Hk. simpl.
    unfold live. by rewrite Hpu, Htu. }
  pose proof (Hl i t sid Hi Hp Ht) as Ei.
  pose proof (Hl j t' sid' Hj Hp' Ht') as Ej.
  split; [congruence|done].
Qed.

(** X11, at the state [heard] and its silence timer (id 1). *)
Lemma one_silence_timer_pending_witness :
  1%nat = 1%nat /\ silenceTimerRef heard = Some 1%nat.
Proof.
  apply (one_silence_timer_pending chrome heard 1%nat 1%nat
           {| task := SilenceTimer 0; due := 2000; pending := true |}
           {| task := SilenceTimer 0; due := 2000; pending := true |} 0%nat 0%nat);
    try reflexivity.
  exact heard_reachable.
Defined.

(** ** The form *)

(** X12: [handleSubmit] dispatches exactly when the Send button is enabled
    (lines 354 and 438 test the same). While the button is disabled a
    submit changes nothing. While it is enabled, the trimmed input is
    dispatched: one message of the user and one [fetch] with that text, the
    input is cleared and [isLoading] set, and the button is disabled
    afterwards, so a second submit sends nothing. The timeouts (a pending
    silence timer among them) and the sessions are left as they are. *)
Theorem send_button_guards_submit pf s now :
  reachable pf s -> clock s <= now ->
  (sendDisabled s = true -> step pf now Submit s = Some (set_clock now s)) /\
  (sendDisabled s = false ->
   exists s',
     step pf now Submit s = Some s' /\
     messages s' = messages s ++ [mkMessage now user (trim (input s))] /\
     dispatches s' = dispatches s
                       ++ [{| sent := trim (input s); origin := FromSubmit;
                              phase := AwaitFetch |}] /\
     calls s' = calls s ++ [fetch (trim (input s))] /\
     input s' = [] /\ isLoading s' = true /\ sendDisabled s' = true /\
     timers s' = timers s /\ sessions s' = sessions s).
Proof.
  intros Hr Hle. unfold sendDisabled. split.
  - intros Hd. apply step_no_render; try done.
    simpl. unfold handleSubmit. simpl. by rewrite orb_comm, Hd.
  - intros Hd. apply orb_false_elim in Hd as [Hl Ht].
    apply negb_false_iff in Ht.
    assert (Hh : handleSubmit (set_clock now s)
                 = (processAIResponse FromSubmit (trim (input s)) (set_clock now s)).1).
    { unfold handleSubmit. simpl. by rewrite Ht, Hl. }
    assert (Hp : processAIResponse FromSubmit (trim (input s)) (set_clock now s)
                 = (set_dispatches
                      (dispatches s ++ [{| sent := trim (input s); origin := FromSubmit;
                                           phase := AwaitFetch |}])
                      (call (fetch (trim (input s)))
                         (setIsLoading true
                            (setInput []
                               (set_messages
                                  (messages s ++ [mkMessage now user (trim (input s))])
                                  (set_clock now s))))),
                    awaiting (length (dispatches s)))).
    { unfold processAIResponse. by rewrite trim_idem, Ht. }
    eexists. split.
    + apply step_no_render; try done; simpl; rewrite Hh, Hp; done.
    + rewrite Hh, Hp. done.
Qed.

(** X12, at the state [typed], at time 10. *)
Lemma send_button_guards_submit_witness :
  (sendDisabled typed = true -> step chrome 10 Submit typed = Some (set_clock 10 typed)) /\
  (sendDisabled typed = false ->
   exists s',
     step chrome 10 Submit typed = Some s' /\
     messages s' = messages typed ++ [mkMessage 10 user (trim (input typed))] /\
     dispatches s' = dispatches typed
                       ++ [{| sent := trim (input typed); origin := FromSubmit;
                              phase := AwaitFetch |}] /\
     calls s' = calls typed ++ [fetch (trim (input typed))] /\
     input s' = [] /\ isLoading s' = true /\ sendDisabled s' = true /\
     timers s' = timers typed /\ sessions s' = sessions typed).
Proof.
  apply (send_button_guards_submit chrome typed 10).
  - exact typed_reachable.
  - vm_compute. discriminate.
Defined.

(** ** A reply arrives *)

(** X14: when the [fetch] of a dispatch settles with a reply, in any
    reachable state, the reply is appended to the log as a message of the
    assistant; no timeout is set and no recognition object touched. With
    speech synthesis the speech in progress is cancelled and the same text
    is spoken, and the call stays suspended: [isLoading] and the sessions
    are as before until the speech ends. Without speech synthesis the call
    completes at once. *)
Theorem reply_is_logged_then_spoken pf s now d x out t :
  reachable pf s ->
  dispatches s !! d = Some x -> phase x = AwaitFetch -> clock s <= now ->
  aiTextOf out = Some t ->
  exists s',
    step pf now (FetchSettles d out) s = Some s' /\
    messages s' = messages s ++ [mkMessage now ai t] /\
    timers s' = timers s /\ recognitionRef s' = recognitionRef s /\
    isListening s' = isListening s /\
    (hasSpeechSynthesis pf = true ->
       calls s' = calls s ++ [speechSynthesis_cancel; speechSynthesis_speak t] /\
       dispatches s' = alter (set_phase AwaitSpeak) d (dispatches s) /\
       isLoading s' = isLoading s /\ sessions s' = sessions s) /\
    (hasSpeechSynthesis pf = false ->
       calls s' = calls s /\
       dispatches s' = alter (set_phase Settled) d (dispatches s) /\
       isLoading s' = false /\
       sessions s' = sessionsResumed (origin x) (sessions s)).
Proof.
  intros Hr Hx Hp Hle Ho. eexists. split; [by apply step_fetchSettled|].
  unfold fetchSettled, speak, afterSpeak. rewrite Ho. simpl.
  set (s1 := set_messages _ _).
  destruct (finish_effect d (origin x) s1)
    as (Hm & Hc & Ht & Hl & Hd & Hs & Hrf & Hli & _).
  destruct (hasSpeechSynthesis pf); simpl.
  - repeat split; try done. by rewrite <- app_assoc.
  - rewrite Hm, Ht, Hrf, Hli, Hc, Hd, Hl, Hs. done.
Qed.

(** X14, at the state [sending]: the reply "hi" arrives at 2500. *)
Lemma reply_is_logged_then_spoken_witness :
  exists s',
    step chrome 2500 (FetchSettles 0%nat (plainReply "hi")) sending = Some s' /\
    messages s' = messages sending ++ [mkMessage 2500 ai (str "hi")] /\
    timers s' = timers sending /\ recognitionRef s' = recognitionRef sending /\
    isListening s' = isListening sending /\
    (hasSpeechSynthesis chrome = true ->
       calls s' = calls sending
                    ++ [speechSynthesis_cancel; speechSynthesis_speak (str "hi")] /\
       dispatches s' = alter (set_phase AwaitSpeak) 0%nat (dispatches sending) /\
       isLoading s' = isLoading sending /\ sessions s' = sessions sending) /\
    (hasSpeechSynthesis chrome = false ->
       calls s' = calls sending /\
       dispatches s' = alter (set_phase Settled) 0%nat (dispatches sending) /\
       isLoading s' = false /\
       sessions s' = sessionsResumed (FromSilenceTimer 0) (sessions sending)).
Proof.
  apply (reply_is_logged_then_spoken chrome sending 2500 0%nat
           {| sent := str "hello"; origin := FromSilenceTimer 0; phase := AwaitFetch |}
           (plainReply "hi") (str "hi")).
  - exact sending_reachable.
  - reflexivity.
  - reflexivity.
  - vm_compute. discriminate.
  - reflexivity.
Defined.

(** ** The speech of a reply ends *)

(** X15: when the speech of a reply ends, in any reachable state, the call
    completes: [isLoading] becomes false, the dispatch is settled and the
    awaiting session's [isProcessing] released. Nothing else happens,
    whatever [isAutoChat] is: [processAIResponse] is [useCallback(..., [])],
    so lines 110-112 read the [isAutoChat] of the first render, which is
    false, and [startListening] is never called from there. *)
Theorem speech_end_settles_without_restart pf s now d x :
  reachable pf s ->
  dispatches s !! d = Some x -> phase x = AwaitSpeak -> clock s <= now ->
  exists s',
    step pf now (SpeechEnds d) s = Some s' /\
    isLoading s' = false /\
    dispatches s' = alter (set_phase Settled) d (dispatches s) /\
    sessions s' = sessionsResumed (origin x) (sessions s) /\
    calls s' = calls s /\ timers s' = timers s /\ messages s' = messages s /\
    recognitionRef s' = recognitionRef s /\ isListening s' = isListening s /\
    isAutoChat s' = isAutoChat s.
Proof.
  intros Hr Hx Hp Hle.
  destruct (finish_effect d (origin x) (set_clock now s))
    as (Hm & Hc & Ht & Hl & Hd & Hs & Hrf & Hli & Ha & Hcb & _).
  exists (finish d (origin x) (set_clock now s)). split.
  - apply step_no_render; try done. simpl. by rewrite Hx, Hp.
  - rewrite Hm, Hc, Ht, Hl, Hd, Hs, Hrf, Hli, Ha. done.
Qed.

(** X15, at the state [replied]: the speech of "hi" ends at 4000. *)
Lemma speech_end_settles_without_restart_witness :
  exists s',
    step chrome 4000 (SpeechEnds 0%nat) replied = Some s' /\
    isLoading s' = false /\
    dispatches s' = alter (set_phase Settled) 0%nat (dispatches replied) /\
    sessions s' = sessionsResumed (FromSilenceTimer 0) (sessions replied) /\
    calls s' = calls replied /\ timers s' = timers replied /\
    messages s' = messages replied /\
    recognitionRef s' = recognitionRef replied /\
    isListening s' = isListening replied /\
    isAutoChat s' = isAutoChat replied.
Proof.
  apply (speech_end_settles_without_restart chrome replied 4000 0%nat
           {| sent := str "hello"; origin := FromSilenceTimer 0; phase := AwaitSpeak |}).
  - exact replied_reachable.
  - reflexivity.
  - reflexivity.
  - vm_compute. discriminate.
Defined.

(** ** The log, the dispatches and the calls *)

(** X16: in every reachable state, [isLoading] is true only while some
    dispatch has not settled: once every call of [processAIResponse] has
    completed, the loading indicator is off. *)
Theorem loading_means_in_flight pf s :
  reachable pf s -> isLoading s = true ->
  exists d x, dispatches s !! d = Some x /\ phase x <> Settled.
Proof. intros Hr. apply (ledger_loading s (reachable_Ledger pf s Hr)). Qed.

(** X16, at the state [sending]. *)
Lemma loading_means_in_flight_witness :
  exists d x, dispatches sending !! d = Some x /\ phase x <> Settled.
Proof.
  apply (loading_means_in_flight chrome sending); [exact sending_reachable|reflexivity].
Defined.

(** X17: in every reachable state the texts of the user's messages in the
    log, the texts of the dispatches and the texts of the [fetch] calls are
    one and the same list: every message of the user was sent to the
    server exactly once, in the order of the log. Each of these texts has a
    character that is not white space, and those that come from the form
    are trimmed (those from the voice are sent as recognized). *)
Theorem user_messages_are_the_requests pf s :
  reachable pf s ->
  textsOf user s = sent <$> dispatches s /\
  fetches s = sent <$> dispatches s /\
  Forall (fun x => truthy (trim (sent x)) = true /\
                   (origin x = FromSubmit -> trim (sent x) = sent x))
         (dispatches s).
Proof.
  intros Hr. destruct (reachable_Ledger pf s Hr) as [H1 H2 H3 _ _ _]. done.
Qed.

(** X17, at the state [replied]. *)
Lemma user_messages_are_the_requests_witness :
  textsOf user replied = sent <$> dispatches replied /\
  fetches replied = sent <$> dispatches replied /\
  Forall (fun x => truthy (trim (sent x)) = true /\
                   (origin x = FromSubmit -> trim (sent x) = sent x))
         (dispatches replied).
Proof. exact (user_messages_are_the_requests chrome replied replied_reachable). Defined.

(** X18: in every reachable state the log holds as many messages of the
    assistant as there are dispatches whose [fetch] has settled: one reply
    for each of these, none for a dispatch that still awaits its
    [fetch]. *)
Theorem one_reply_per_answered_dispatch pf s :
  reachable pf s ->
  length (textsOf ai s) = length (List.filter answered (dispatches s)).
Proof. intros Hr. apply (ledger_ai s (reachable_Ledger pf s Hr)). Qed.

(** X18, at the state [replied]. *)
Lemma one_reply_per_answered_dispatch_witness :
  length (textsOf ai replied) = length (List.filter answered (dispatches replied)).
Proof. exact (one_reply_per_answered_dispatch chrome replied replied_reachable). Defined.

(** X19: in every reachable state the texts that were spoken are messages
    of the assistant in the log, in the same order: nothing is spoken that
    is not shown. *)
Theorem spoken_texts_are_logged pf s :
  reachable pf s -> spoken s `sublist_of` textsOf ai s.
Proof. intros Hr. apply (ledger_spoken s (reachable_Ledger pf s Hr)). Qed.

(** X19, at the state [replied]. *)
Lemma spoken_texts_are_logged_witness :
  spoken replied `sublist_of` textsOf ai replied.
Proof. exact (spoken_texts_are_logged chrome replied replied_reachable). Defined.

(** ** A conversation in writing *)

Lemma TextOnly_init : TextOnly init.
Proof. constructor; done. Qed.

Lemma TextOnly_finish d o s : TextOnly s -> TextOnly (finish d o s).
Proof.
  intros [H1 H2 H3 H4 H5 H6 H7].
  destruct (finish_effect d o s)
    as (_ & Hc & Ht & _ & _ & Hs & Hr & Hl & Ha & Hcb & _).
  constructor; rewrite ?Hc, ?Ht, ?Hs, ?Hr, ?Hl, ?Ha, ?Hcb; try done.
  rewrite H5. by destruct o.
Qed.

Lemma TextOnly_handle pf e s h :
  e <> ClickAutoChat -> TextOnly s -> handle pf e s = Some h -> TextOnly h.
Proof.
  intros He HT Hh. pose proof HT as [H1 H2 H3 H4 H5 H6 H7].
  destruct e as [| |v| |i|sid ev|sid|sid e|d out|d]; simpl in Hh; try done.
  - injection Hh as <-. unfold clickMic. rewrite H3.
    by rewrite startListening_guard.
  - destruct (_ || _); [done|]. by injection Hh as <-.
  - injection Hh as <-. unfold handleSubmit, processAIResponse.
    destruct (_ || _); [done|]. destruct (negb _); [done|].
    constructor; simpl; try done.
    apply list.Forall_app. split; [done|]. by repeat constructor.
  - by rewrite H6 in Hh.
  - by rewrite H5 in Hh.
  - by rewrite H5 in Hh.
  - by rewrite H5 in Hh.
  - destruct (dispatches s !! d) as [x|]; [|done].
    destruct (phase x); try done. injection Hh as <-.
    unfold fetchSettled, speak, afterSpeak. simpl.
    destruct (aiTextOf out); [destruct (hasSpeechSynthesis pf)|].
    + constructor; simpl; try done.
      rewrite <- app_assoc. apply list.Forall_app. split; [done|]. by repeat constructor.
    + apply TextOnly_finish. by constructor.
    + apply TextOnly_finish. by constructor.
  - destruct (dispatches s !! d) as [x|]; [|done].
    destruct (phase x); try done. injection Hh as <-.
    unfold afterSpeak. simpl. by apply TextOnly_finish.
Qed.

Lemma TextOnly_step pf now e s s' :
  e <> ClickAutoChat -> TextOnly s -> step pf now e s = Some s' -> TextOnly s'.
Proof.
  intros He HT Hs. unfold step in Hs. destruct (clock s <=? now); [|done].
  destruct (handle pf e _) as [h|] eqn:Hh; [|done]. injection Hs as <-.
  assert (H0 : TextOnly (set_clock now s)) by (destruct HT; by constructor).
  pose proof (TextOnly_handle pf e _ h He H0 Hh) as Hh'.
  rewrite render_id; [done|]. unfold consistent. destruct Hh'. congruence.
Qed.

Lemma run_TextOnly pf es : forall s s',
  TextOnly s ->
  Forall (fun ev : Z * Event => ev.2 <> ClickAutoChat) es ->
  run pf es s = Some s' -> TextOnly s'.
Proof.
  induction es as [|[now e] es IH]; simpl; intros s s' HT Hes Hrun.
  - by injection Hrun as <-.
  - destruct (step pf now e s) as [s1|] eqn:Hs; [|done].
    inversion Hes as [|ev es' He Hes']; subst. simpl in He.
    apply (IH s1 s'); [|done|done]. by eapply TextOnly_step.
Qed.

(** X21: as long as auto-chat has not been switched on, whatever else
    happens (typing, submits, clicks on the microphone button, replies),
    the component never listens: no recognition object is created, no
    timeout is set, and the only calls into the platform are the requests
    to the server and the speech of the replies. *)
Theorem text_chat_never_listens pf es s :
  Forall (fun ev : Z * Event => ev.2 <> ClickAutoChat) es ->
  run pf es init = Some s ->
  isAutoChat s = false /\ isListening s = false /\ recognitionRef s = None /\
  sessions s = [] /\ timers s = [] /\ Forall textCall (calls s).
Proof.
  intros Hes Hrun.
  destruct (run_TextOnly pf es init s TextOnly_init Hes Hrun). done.
Qed.

(** X21, for the turn in writing [inWriting]. *)
Lemma text_chat_never_listens_witness :
  isAutoChat written = false /\ isListening written = false /\
  recognitionRef written = None /\
  sessions written = [] /\ timers written = [] /\ Forall textCall (calls written).
Proof.
  apply (text_chat_never_listens chrome inWriting written).
  - repeat constructor; simpl; discriminate.
  - vm_compute. reflexivity.
Defined.

(** ** Who switches auto-chat *)

Lemma render_isAutoChat s : isAutoChat (render s) = isAutoChat s.
Proof.
  unfold render. destruct (Bool.eqb _ _); [done|].
  set (c := {| cap_isAutoChat := isAutoChat s; cap_isLoading := isLoading s |}).
  set (s1 := set_startListeningCb c s).
  set (s2 := match autoChatEffect s1 with Some t => _ | None => s1 end).
  assert (H2 : isAutoChat s2 = isAutoChat s).
  { subst s2. destruct (autoChatEffect s1) as [t|]; [|reflexivity].
    destruct (hooks_stopListening (clearTimeout t s1)) as [_ ->]. reflexivity. }
  clearbody s2. destruct (isAutoChat s2) eqn:E; simpl; [congruence|].
  destruct (hooks_stopListening s2) as [_ Ha].
  change (isAutoChat (stopListening s2) = isAutoChat s). congruence.
Qed.

(** X22: [isAutoChat] follows the auto-chat button and nothing else: a
    click on it turns it into its opposite, and no other event changes it
    (no capture error, no missing speech recognition, no reply and no
    timeout switches auto-chat off or on). *)
Theorem isAutoChat_follows_the_button pf now e s s' :
  step pf now e s = Some s' ->
  isAutoChat s' = match e with
                  | ClickAutoChat => negb (isAutoChat s)
                  | _ => isAutoChat s
                  end.
Proof.
  intros Hs. unfold step in Hs. destruct (clock s <=? now); [|done].
  destruct (handle pf e _) as [h|] eqn:Hh; [|done]. injection Hs as <-.
  rewrite render_isAutoChat.
  assert (Hothers : e <> ClickAutoChat -> isAutoChat h = isAutoChat s).
  { intros He. by destruct (handle_hooks pf e _ h Hh) as [_ ->]. }
  destruct e; try (apply Hothers; discriminate).
  simpl in Hh. injection Hh as <-. unfold toggleAutoChat.
  change (isAutoChat (set_clock now s)) with (isAutoChat s).
  change (isListening (set_clock now s)) with (isListening s).
  destruct (isAutoChat s); cbn [negb].
  - destruct (hooks_stopListening (setIsAutoChat false (set_clock now s))) as [_ E].
    by rewrite E.
  - destruct (isListening s); cbn [negb]; [done|].
    destruct (hooks_startListening pf
                (startListeningCb (setIsAutoChat true (set_clock now s)))
                (setIsAutoChat true (set_clock now s))) as [_ E].
    by rewrite E.
Qed.

(** X22, at the state [listening]: object 0 reports [no-speech] at 900, and
    auto-chat stays on. *)
Lemma isAutoChat_follows_the_button_witness :
  isAutoChat (setIsListening false (set_clock 900 listening)) = isAutoChat listening.
Proof.
  apply (isAutoChat_follows_the_button chrome 900 (RecognitionError 0%nat no_speech)
           listening).
  vm_compute. reflexivity.
Defined.

(** ** The flag of a capture session *)

(** X23: in every reachable state the [isProcessing] of a capture session
    is true exactly while a dispatch that its silence timer made has not
    settled: the flag is never left set, and it is never released while
    the session's dispatch is in flight. *)
Theorem isProcessing_tracks_the_dispatch pf s sid x :
  reachable pf s -> sessions s !! sid = Some x ->
  inFlightFrom sid s = Nat.b2n (isProcessing x).
Proof.
  intros Hr Hx. destruct (reachable_Inv pf s Hr) as [_ HD].
  rewrite (HD sid). unfold processing. by rewrite (cores_lookup s sid x Hx).
Qed.

(** X23, at the state [sending], whose session 0 awaits the reply to its text. *)
Lemma isProcessing_tracks_the_dispatch_witness :
  inFlightFrom 0 sending = Nat.b2n true.
Proof.
  apply (isProcessing_tracks_the_dispatch chrome sending 0%nat
           {| closure := autoChatClosure; finalTranscript := str "hello";
              isProcessing := true; started := true |}).
  - exact sending_reachable.
  - reflexivity.
Defined.
